(** * bmp2tiff: the BMP decoder of tools/bmp2tiff.c

    A shallow embedding of the decoding half of [main] in
    tools/bmp2tiff.c: header-variant selection, the colour-table entry
    width, the row stride, the uncompressed row loop, the RLE8 and RLE4
    decompression loops and the emission of the decompressed rows;
    then the reading of the two headers, the colour table,
    [rearrangePixels] and [processCompressOptions].

    Conventions.
    - [uint32] values are integers in [0, 2^32); every C operation on
      them is followed by [u32], the reduction modulo 2^32.
    - A heap block is a [list Z] of bytes.  An access outside the block
      is undefined behaviour in C; here it yields [Ub] and ends the run.
    - [while] loops take a fuel argument; [None] means the fuel ran out.
    - The variables that [fread] fills are lists of bytes that hold
      what the memory held before; the host is little-endian. *)

From Stdlib Require Import Ascii.
From stdpp Require Import base numbers list strings.

Local Open Scope Z_scope.

(** ** Machine integers *)

Definition u32 (z : Z) : Z := z mod 2 ^ 32.

(** An integer used as a condition. *)
Definition nonzero (z : Z) : bool := negb (z =? 0).

(** ** Undefined behaviour as an error result *)

Inductive fault :=
| ReadPastEnd (idx : Z)
| WritePastEnd (idx : Z).

Inductive res (A : Type) :=
| Ok (a : A)
| Ub (f : fault).
Arguments Ok {A} a.
Arguments Ub {A} f.

Definition bind {A B} (m : res A) (k : A -> res B) : res B :=
  match m with
  | Ok a => k a
  | Ub f => Ub f
  end.

Notation "'do' x <- m ; k" := (bind m (fun x => k))
  (at level 10, x name, m at level 100, k at level 200).
Notation "'do' ' p <- m ; k" := (bind m (fun x => let 'p := x in k))
  (at level 10, p pattern, m at level 100, k at level 200).

(** [buf[i]] as an rvalue. *)
Definition load (buf : list Z) (i : Z) : res Z :=
  if i <? 0 then Ub (ReadPastEnd i)
  else match buf !! Z.to_nat i with
       | Some b => Ok b
       | None => Ub (ReadPastEnd i)
       end.

(** [buf[j] = v]. *)
Definition store (buf : list Z) (j v : Z) : res (list Z) :=
  if (j <? 0) || (Z.of_nat (length buf) <=? j) then Ub (WritePastEnd j)
  else Ok (<[Z.to_nat j := v]> buf).

(** ** The run-length decompressor (bmp2tiff.c, lines 526-602) *)

(** The cursors [i] and [j], the output block [uncomprbuf], and the
    list of the indices stored to so far (most recent first).  The last
    field is not a program variable: it records which positions of
    [uncomprbuf] the run has written. *)
Record rle_state := {
  rs_i : Z;
  rs_j : Z;
  rs_out : list Z;
  rs_stores : list Z
}.

Inductive step :=
| Again (s : rle_state)     (* falls through to the loop test *)
| Leave (s : rle_state).    (* break *)

Definition incr_i (s : rle_state) : rle_state :=
  {| rs_i := u32 (rs_i s + 1); rs_j := rs_j s;
     rs_out := rs_out s; rs_stores := rs_stores s |}.

Definition set_ij (i j : Z) (s : rle_state) : rle_state :=
  {| rs_i := i; rs_j := j; rs_out := rs_out s; rs_stores := rs_stores s |}.

(** [uncomprbuf[j++] = v]. *)
Definition put (s : rle_state) (v : Z) : res rle_state :=
  do out <- store (rs_out s) (rs_j s) v;
  Ok {| rs_i := rs_i s; rs_j := u32 (rs_j s + 1);
        rs_out := out; rs_stores := rs_j s :: rs_stores s |}.

Section Decompressor.

Variable comprbuf : list Z.
Variables compr_size uncompr_size width : Z.

(** [j < uncompr_size && i < compr_size] *)
Definition in_range (s : rle_state) : bool :=
  (rs_j s <? uncompr_size) && (rs_i s <? compr_size).

(** RLE8, lines 532-537: the encoded run. *)
Fixpoint rle8_run (runlength : nat) (s : rle_state) : res rle_state :=
  match runlength with
  | O => Ok s
  | S n =>
    if in_range s then
      do b <- load comprbuf (rs_i s);
      do s' <- put s b;
      rle8_run n s'
    else Ok s
  end.

(** RLE8, lines 555-556: the literal run; [n] is [runlength - k]. *)
Fixpoint rle8_abs (n : nat) (k : Z) (s : rle_state) : res (Z * rle_state) :=
  match n with
  | O => Ok (k, s)
  | S n' =>
    if in_range s then
      do b <- load comprbuf (rs_i s);
      do s' <- put s b;
      rle8_abs n' (k + 1) (incr_i s')
    else Ok (k, s)
  end.

(** RLE4, lines 567-573: the encoded run.  The nibble is chosen by
    the parity of the count that is left. *)
Fixpoint rle4_run (runlength : nat) (s : rle_state) : res rle_state :=
  match runlength with
  | O => Ok s
  | S n =>
    if in_range s then
      do b <- load comprbuf (rs_i s);
      do s' <- put s (if nonzero (Z.land (Z.of_nat runlength) 1)
                      then Z.shiftr (Z.land b 240) 4
                      else Z.land b 15);
      rle4_run n s'
    else Ok s
  end.

(** RLE4, lines 591-596: the literal run. *)
Fixpoint rle4_abs (n : nat) (k : Z) (s : rle_state) : res (Z * rle_state) :=
  match n with
  | O => Ok (k, s)
  | S n' =>
    if in_range s then
      do b <- load comprbuf (rs_i s);
      if nonzero (Z.land k 1) then
        do s' <- put s (Z.land b 15);
        rle4_abs n' (k + 1) (incr_i s')
      else
        do s' <- put s (Z.shiftr (Z.land b 240) 4);
        rle4_abs n' (k + 1) s'
    else Ok (k, s)
  end.

(** Lines 540-559 and 576-599: the escape branch, which the two loops
    share word for word but for the literal run. *)
Definition escape (abs : nat -> Z -> rle_state -> res (Z * rle_state))
    (s : rle_state) : res step :=
  let s1 := incr_i s in
  do b1 <- load comprbuf (rs_i s1);
  if b1 =? 0 then Ok (Again (incr_i s1))
  else if b1 =? 1 then Ok (Leave s1)
  else if b1 =? 2 then
    let s2 := incr_i s1 in
    if rs_i s2 <? u32 (compr_size - 1) then
      do dx <- load comprbuf (rs_i s2);
      do dy <- load comprbuf (rs_i s2 + 1);
      Ok (Again (set_ij (u32 (rs_i s2 + 2))
                        (u32 (rs_j s2 + u32 (dx + u32 (dy * width)))) s2))
    else Ok (Leave s2)
  else
    do '(k, s3) <- abs (Z.to_nat b1) 0 (incr_i s1);
    Ok (Again (if nonzero (Z.land k 1) then incr_i s3 else s3)).

(** One pass through the body of the RLE8 loop, lines 530-560. *)
Definition rle8_body (s : rle_state) : res step :=
  do b0 <- load comprbuf (rs_i s);
  if nonzero b0 then
    do s2 <- rle8_run (Z.to_nat b0) (incr_i s);
    Ok (Again (incr_i s2))
  else escape rle8_abs s.

(** One pass through the body of the RLE4 loop, lines 565-600. *)
Definition rle4_body (s : rle_state) : res step :=
  do b0 <- load comprbuf (rs_i s);
  if nonzero b0 then
    do s2 <- rle4_run (Z.to_nat b0) (incr_i s);
    Ok (Again (incr_i s2))
  else escape rle4_abs s.

(** [while (j < uncompr_size && i < compr_size) body] *)
Fixpoint rle_loop (body : rle_state -> res step) (fuel : nat)
    (s : rle_state) {struct fuel} : option (res rle_state) :=
  if in_range s then
    match fuel with
    | O => None
    | S fuel' =>
      match body s with
      | Ub f => Some (Ub f)
      | Ok (Leave s') => Some (Ok s')
      | Ok (Again s') => rle_loop body fuel' s'
      end
    end
  else Some (Ok s).

(** Lines 526-602: [i = 0; j = 0;] and the loop chosen by the bit
    count; [uncomprbuf] is the block as the allocator returned it. *)
Definition rle_decompress (iBitCount : Z) (uncomprbuf : list Z)
    (fuel : nat) : option (res rle_state) :=
  let s0 := {| rs_i := 0; rs_j := 0;
               rs_out := uncomprbuf; rs_stores := [] |} in
  if iBitCount =? 8 then rle_loop rle8_body fuel s0
  else rle_loop rle4_body fuel s0.

End Decompressor.

(** ** Header variants and the colour-table entry width (lines 289-357) *)

Inductive BMPType :=
| BMPT_WIN4      (* BMP used in Windows 3.0/NT 3.51/95 *)
| BMPT_WIN5      (* BMP used in Windows NT 4.0/98/Me/2000/XP *)
| BMPT_OS21      (* BMP used in OS/2 PM 1.x *)
| BMPT_OS22.     (* BMP used in OS/2 PM 2.x *)

#[global] Instance BMPType_eq_dec : EqDecision BMPType.
Proof. solve_decision. Defined.

Definition BFH_SIZE : Z := 14.
Definition BIH_WIN4SIZE : Z := 40.
Definition BIH_WIN5SIZE : Z := 57.
Definition BIH_OS21SIZE : Z := 12.
Definition BIH_OS22SIZE : Z := 64.

Definition BMPC_RGB : Z := 0.
Definition BMPC_RLE8 : Z := 1.
Definition BMPC_RLE4 : Z := 2.
Definition BMPC_BITFIELDS : Z := 3.
Definition BMPC_JPEG : Z := 4.
Definition BMPC_PNG : Z := 5.

(** Lines 289-296. *)
Definition bmp_type_of (iSize : Z) : BMPType :=
  if iSize =? BIH_WIN4SIZE then BMPT_WIN4
  else if iSize =? BIH_OS21SIZE then BMPT_OS21
  else if (iSize =? BIH_OS22SIZE) || (iSize =? 16) then BMPT_OS22
  else BMPT_WIN5.

(** [n_clr_elems] after lines 222, 298-322, 324-330 and 332-357: the
    initial value and the three conditional assignments, in order. *)
Definition n_clr_elems_of (bmp_type : BMPType) : Z :=
  let n_clr_elems := 3 in
  let n_clr_elems :=
    if bool_decide (bmp_type = BMPT_WIN4 ∨ bmp_type = BMPT_WIN5
                    ∨ bmp_type = BMPT_OS22)
    then 4 else n_clr_elems in
  let n_clr_elems :=
    if bool_decide (bmp_type = BMPT_OS22) then 3 else n_clr_elems in
  let n_clr_elems :=
    if bool_decide (bmp_type = BMPT_OS21) then 3 else n_clr_elems in
  n_clr_elems.

(** ** The parsed headers *)

Record BMPFileHeader := {
  fh_iSize : Z;        (* file_hdr.iSize, set from st_size on line 277 *)
  iOffBits : Z
}.

Record BMPInfoHeader := {
  iSize : Z;
  iWidth : Z;          (* int32 *)
  iHeight : Z;         (* int32 *)
  iBitCount : Z;       (* int16 *)
  iCompression : Z     (* uint32 *)
}.

(** Line 369: [width = info_hdr.iWidth]. *)
Definition image_width (info_hdr : BMPInfoHeader) : Z :=
  u32 (iWidth info_hdr).

(** Line 370. *)
Definition image_length (info_hdr : BMPInfoHeader) : Z :=
  u32 (if 0 <? iHeight info_hdr then iHeight info_hdr
       else - iHeight info_hdr).

(** Line 474: [size = ((width * info_hdr.iBitCount + 31) & ~31) / 8],
    computed in [uint32]. *)
Definition row_size (width bit_count : Z) : Z :=
  Z.land (u32 (u32 (width * bit_count) + 31)) (u32 (Z.lnot 31)) / 8.

(** ** rearrangePixels (lines 633-664) *)

(** [case 24]; [p] is the offset of [buf] in the block. *)
Fixpoint rearrange24 (n : nat) (p : Z) (blk : list Z) : res (list Z) :=
  match n with
  | O => Ok blk
  | S n' =>
    do tmp <- load blk p;
    do b2 <- load blk (p + 2);
    do blk <- store blk p b2;
    do blk <- store blk (p + 2) tmp;
    rearrange24 n' (p + 3) blk
  end.

(** [case 32]; [p] and [p1] are the offsets of [buf] and [buf1]. *)
Fixpoint rearrange32 (n : nat) (p p1 : Z) (blk : list Z) : res (list Z) :=
  match n with
  | O => Ok blk
  | S n' =>
    do tmp <- load blk p;
    do b2 <- load blk (p + 2);
    do blk <- store blk p1 b2;
    do b1 <- load blk (p + 1);
    do blk <- store blk (p1 + 1) b1;
    do blk <- store blk (p1 + 2) tmp;
    rearrange32 n' (p + 4) (p1 + 3) blk
  end.

Definition rearrangePixels (blk : list Z) (width bit_count : Z)
    : res (list Z) :=
  if bit_count =? 16 then Ok blk
  else if bit_count =? 24 then rearrange24 (Z.to_nat width) 0 blk
  else if bit_count =? 32 then rearrange32 (Z.to_nat width) 0 0 blk
  else Ok blk.

(** ** The input stream and the trace of a run *)

Record stream := {
  st_data : list Z;    (* the bytes of the input file *)
  st_pos : Z           (* the file position *)
}.

Definition seek (f : stream) (offset : Z) : stream :=
  {| st_data := st_data f; st_pos := offset |}.

(** [fread(blk, size, nmemb, in)]: the bytes that are there are copied
    to the front of [blk]; the result is the block, the number of whole
    items read and the stream. *)
Definition fread (f : stream) (blk : list Z) (size nmemb : Z)
    : list Z * Z * stream :=
  let got := take (Z.to_nat (size * nmemb))
                  (drop (Z.to_nat (st_pos f)) (st_data f)) in
  let n := Z.of_nat (length got) in
  (got ++ drop (length got) blk,
   if size =? 0 then 0 else n / size,
   {| st_data := st_data f; st_pos := st_pos f + n |}).

Inductive diag :=
| BadBitCount (bits : Z)     (* Cannot process BMP file with bit count *)
| SeekError (row : Z)        (* scanline: Seek error. *)
| ReadError (row : Z)        (* scanline: Read error. *)
| WriteError (row : Z)       (* scanline: Write error. *)
| CannotOpenOutput.          (* Cannot open file for output. *)

(** What can be observed of a run: the calls on the input stream, the
    lines printed on stderr and the calls of TIFFWriteScanline, whose
    buffer argument is a pointer: a block and an offset into it. *)
Inductive event :=
| EvSeek (offset : Z)
| EvRead (size nmemb : Z)
| EvDiag (d : diag)
| EvScanline (row : Z) (blk : list Z) (ofs : Z)
| EvUb (f : fault).

(** The test of lines 359-361. *)
Definition bit_count_rejected (bits : Z) : bool :=
  negb (bits =? 1) && negb (bits =? 4) && negb (bits =? 8)
  && negb (bits =? 16) && negb (bits =? 24) && negb (bits =? 32).

Section Main.

(** The environment: whether fseek to an offset fails and whether
    TIFFWriteScanline refuses a row. *)
Variable fseek_fails : Z -> bool.
Variable write_fails : Z -> bool.

Variable file_hdr : BMPFileHeader.
Variable info_hdr : BMPInfoHeader.

Local Abbreviation width := (image_width info_hdr).
Local Abbreviation length := (image_length info_hdr).

(** Lines 477-504; [n] rows are left and [scanbuf] is reused. *)
Fixpoint rgb_rows (size : Z) (n : nat) (row : Z) (f : stream)
    (scanbuf : list Z) : list event :=
  match n with
  | O => []
  | S n' =>
    let offset :=
      if 0 <? iHeight info_hdr
      then u32 (iOffBits file_hdr + u32 (u32 (u32 (length - row) - 1) * size))
      else u32 (iOffBits file_hdr + u32 (row * size)) in
    let failed := fseek_fails offset in
    let '(blk, items, f') :=
      fread (if failed then f else seek f offset) scanbuf size 1 in
    [EvSeek offset]
    ++ (if failed then [EvDiag (SeekError row)] else [])
    ++ [EvRead size 1]
    ++ (if items =? 1 then [] else [EvDiag (ReadError row)])
    ++ match rearrangePixels blk width (iBitCount info_hdr) with
       | Ub e => [EvUb e]
       | Ok blk' =>
         [EvScanline row blk' 0]
         ++ (if write_fails row then [EvDiag (WriteError row)] else [])
         ++ rgb_rows size n' (u32 (row + 1)) f' blk'
       end
  end.

(** Lines 606-613. *)
Fixpoint rle_rows (uncomprbuf : list Z) (n : nat) (row : Z) : list event :=
  match n with
  | O => []
  | S n' =>
    let offset := u32 (u32 (u32 (length - row) - 1) * width) in
    [EvScanline row uncomprbuf offset]
    ++ (if write_fails row then [EvDiag (WriteError row)] else [])
    ++ rle_rows uncomprbuf n' (u32 (row + 1))
  end.

(** Lines 519-525: the sizes of the two blocks and the compressed block
    after [fread]; [comprbuf] is the block as _TIFFmalloc returned it. *)
Definition compr_size_of : Z :=
  u32 (fh_iSize file_hdr - iOffBits file_hdr).

Definition uncompr_size_of : Z := u32 (width * length).

Definition read_compressed (f : stream) (comprbuf : list Z) : list Z :=
  (fread (if fseek_fails (iOffBits file_hdr) then f
          else seek f (iOffBits file_hdr))
         comprbuf 1 compr_size_of).1.1.

(** Lines 526-602 on these blocks. *)
Definition decompress_image (f : stream) (comprbuf uncomprbuf : list Z)
    (fuel : nat) : option (res rle_state) :=
  rle_decompress (read_compressed f comprbuf) compr_size_of uncompr_size_of
                 width (iBitCount info_hdr) uncomprbuf fuel.

(** Lines 470-616.  [scanbuf], [comprbuf] and [uncomprbuf] are the
    blocks as _TIFFmalloc returned them. *)
Definition read_image (f : stream) (scanbuf comprbuf uncomprbuf : list Z)
    (fuel : nat) : option (list event) :=
  if iCompression info_hdr =? BMPC_RGB then
    let size := row_size width (iBitCount info_hdr) in
    Some (rgb_rows size (Z.to_nat length) 0 f scanbuf)
  else if (iCompression info_hdr =? BMPC_RLE8)
          || (iCompression info_hdr =? BMPC_RLE4) then
    let io := [EvSeek (iOffBits file_hdr); EvRead 1 compr_size_of] in
    match decompress_image f comprbuf uncomprbuf fuel with
    | None => None
    | Some (Ub e) => Some (io ++ [EvUb e])
    | Some (Ok s) =>
      Some (io ++ rle_rows (rs_out s) (Z.to_nat length) 0)
    end
  else Some [].

End Main.

(** ** Views of a run *)


(** The rows handed to TIFFWriteScanline: row number and offset of the
    pointer in its block. *)
Definition scanlines (evs : list event) : list (Z * Z) :=
  omap (fun e => match e with EvScanline r _ o => Some (r, o) | _ => None end)
       evs.

(** The calls on the input stream and on the sink, in order. *)
Inductive call :=
| Fseek (offset : Z)
| Fread (size nmemb : Z)
| WriteScanline (row : Z).

Definition calls (evs : list event) : list call :=
  omap (fun e => match e with
                 | EvSeek o => Some (Fseek o)
                 | EvRead size nmemb => Some (Fread size nmemb)
                 | EvScanline r _ _ => Some (WriteScanline r)
                 | _ => None
                 end) evs.

(** Modelled from the spec: TIFFWriteScanline is not part of
    tools/bmp2tiff.c.  The sink takes one row, [width] samples, from
    the pointer it is given. *)
Definition sink_row (width : Z) (blk : list Z) (ofs : Z) : list Z :=
  take (Z.to_nat width) (drop (Z.to_nat ofs) blk).

(** The rows as the sink takes them. *)
Definition sink_rows (width : Z) (evs : list event) : list (Z * list Z) :=
  omap (fun e => match e with
                 | EvScanline r blk o => Some (r, sink_row width blk o)
                 | _ => None
                 end) evs.

(** The row of the file that holds display row [r] (lines 478-481). *)
Definition file_row (info_hdr : BMPInfoHeader) (r : Z) : Z :=
  if 0 <? iHeight info_hdr then image_length info_hdr - 1 - r else r.


Definition file_of (data : list Z) : stream :=
  {| st_data := data; st_pos := 0 |}.

Definition hdr_at_54 (data : list Z) : BMPFileHeader :=
  {| fh_iSize := Z.of_nat (base.length data); iOffBits := 54 |}.

Definition never : Z -> bool := fun _ => false.

(** The 4 x 2 RLE8 image of the spec's round-trip test, behind 54
    bytes of headers. *)
Definition rle8_4x2_hdr : BMPInfoHeader :=
  {| iSize := 40; iWidth := 4; iHeight := 2; iBitCount := 8;
     iCompression := BMPC_RLE8 |}.

Definition rle8_4x2_data : list Z := replicate 54 0 ++ [4; 1; 4; 2; 0; 1].

(** A 65536 x 65537 RLE8 image that ends at once. *)
Definition rle8_wide_hdr : BMPInfoHeader :=
  {| iSize := 40; iWidth := 65536; iHeight := 65537; iBitCount := 8;
     iCompression := BMPC_RLE8 |}.

Definition rle8_wide_data : list Z := replicate 54 0 ++ [0; 1].

(** A 2 x 2 image of 24 bits, stored bottom-up, and the same rows
    stored top-down. *)
Definition rgb24_hdr (height : Z) : BMPInfoHeader :=
  {| iSize := 40; iWidth := 2; iHeight := height; iBitCount := 24;
     iCompression := BMPC_RGB |}.

Definition rgb24_data : list Z :=
  replicate 54 0 ++ [1; 2; 3; 4; 5; 6; 0; 0] ++ [11; 12; 13; 14; 15; 16; 0; 0].

(** A 32-bit image one pixel wide and 2^30 + 1 rows high. *)
Definition rgb32_tall_hdr : BMPInfoHeader :=
  {| iSize := 40; iWidth := 1; iHeight := 2 ^ 30 + 1; iBitCount := 32;
     iCompression := BMPC_RGB |}.

(** The spec's row stride, [ceil (width * bitsPerPixel / 32) * 4]. *)
Definition ceil_div (a b : Z) : Z := - (- a / b).

Definition spec_row_stride (width bitsPerPixel : Z) : Z :=
  ceil_div (width * bitsPerPixel) 32 * 4.

Definition result_out (r : option (res rle_state)) : option (list Z) :=
  match r with
  | Some (Ok s) => Some (rs_out s)
  | _ => None
  end.

Definition step_state (st : step) : rle_state :=
  match st with
  | Again s => s
  | Leave s => s
  end.

(** ** Invariants of the decompression loops *)

(** Every position of the output block that was not stored to holds
    what the block [init] held when it was allocated. *)
Definition untouched (init : list Z) (s : rle_state) : Prop :=
  forall p : nat, Z.of_nat p ∉ rs_stores s -> rs_out s !! p = init !! p.

Definition rle_inv (init : list Z) (s : rle_state) : Prop :=
  0 <= rs_i s /\ 0 <= rs_j s
  /\ base.length (rs_out s) = base.length init
  /\ untouched init s.

(** What both literal-run loops do to the cursor: it moves forward and
    does not pass the end of the compressed block. *)
Definition abs_cursor_ok (compr_size : Z)
    (abs : nat -> Z -> rle_state -> res (Z * rle_state)) : Prop :=
  forall n k s k' s',
    abs n k s = Ok (k', s') -> 0 <= rs_i s ->
    rs_i s <= rs_i s' /\ (rs_i s <= compr_size -> rs_i s' <= compr_size).

(** The outcome of one pass from [s]: the invariant holds again, or
    the pass ended by the load one past the end of the compressed
    block, with the cursor on its last byte. *)
Definition step_safe (init : list Z) (compr_size : Z) (s : rle_state)
    (r : res step) : Prop :=
  match r with
  | Ok st => rle_inv init (step_state st)
  | Ub f => f = ReadPastEnd compr_size /\ rs_i s = compr_size - 1
  end.

(** A compressed block of 2^32 - 1 bytes: end-of-line pairs and a last
    byte that opens an encoded run. *)
Definition wrap_stream : list Z :=
  replicate (Z.to_nat (2 ^ 32 - 2)) 0 ++ [1].

(** The state of a run over a one-byte output block that has stored
    nothing yet, with the cursor at [i]. *)
Definition idle_state (i : Z) : rle_state :=
  {| rs_i := i; rs_j := 0; rs_out := [0]; rs_stores := [] |}.

(** ** What the decompressor's runs stand for *)

(** [(b & 0xF0) >> 4] and [b & 0x0F], the two pixels of a byte. *)
Definition hi_nibble (b : Z) : Z := Z.shiftr (Z.land b 240) 4.
Definition lo_nibble (b : Z) : Z := Z.land b 15.

(** The pixels of the RLE4 encoded run of [n] pixels with the byte [b],
    as lines 567-573 store them: pixel [t] is the high nibble when
    the count that is left, [n - t], is odd. *)
Definition run4_pixels (n b : Z) : list Z :=
  (fun t => if Z.odd (n - t) then hi_nibble b else lo_nibble b)
    <$> seqZ 0 n.

(** The pixels packed in a list of bytes, high nibble first. *)
Definition nibbles (bytes : list Z) : list Z :=
  bytes ≫= (fun b => [hi_nibble b; lo_nibble b]).

(** The pixels that an RLE4 literal run has not stored yet when its
    counter is [k] and the cursor is at the head of [l]. *)
Definition pending_nibbles (k : Z) (l : list Z) : list Z :=
  if Z.odd k then drop 1 (nibbles l) else nibbles l.

(** A stream made of encoded runs only, each a count and a byte, and
    the pixels the runs stand for in RLE8. *)
Definition encode_runs (runs : list (Z * Z)) : list Z :=
  runs ≫= (fun r => [r.1; r.2]).

Definition expand_runs (runs : list (Z * Z)) : list Z :=
  runs ≫= (fun r => replicate (Z.to_nat r.1) r.2).

(** The same for RLE4. *)
Definition expand_runs4 (runs : list (Z * Z)) : list Z :=
  runs ≫= (fun r => run4_pixels r.1 r.2).

(** ** What rearrangePixels makes of a row *)

(** The first [n] pixels of a row of 3-byte pixels with the first and
    the third byte of each exchanged; the rest of the row as it is. *)
Fixpoint bgr_to_rgb (n : nat) (row : list Z) : list Z :=
  match n, row with
  | S n', b :: g :: r :: row' => r :: g :: b :: bgr_to_rgb n' row'
  | _, _ => row
  end.

(** The first [n] pixels of a row of 4-byte pixels, each as its third,
    second and first byte. *)
Fixpoint bgra_to_rgb (n : nat) (row : list Z) : list Z :=
  match n, row with
  | S n', b :: g :: r :: a :: row' => r :: g :: b :: bgra_to_rgb n' row'
  | _, _ => []
  end.

Definition rearranged (bit_count : Z) (width : nat) (row : list Z)
    : list Z :=
  if bit_count =? 24 then bgr_to_rgb width row
  else if bit_count =? 32
       then bgra_to_rgb width row ++ drop (3 * width) row
  else row.

(** ** More views of a run *)

(** The blocks handed to TIFFWriteScanline with their row numbers. *)
Definition scanline_blocks (evs : list event) : list (Z * list Z) :=
  omap (fun e => match e with
                 | EvScanline r blk _ => Some (r, blk)
                 | _ => None
                 end) evs.

(** The rows for which [Read error] was printed. *)
Definition read_errors (evs : list event) : list Z :=
  omap (fun e => match e with
                 | EvDiag (ReadError r) => Some r
                 | _ => None
                 end) evs.

(** The [n] bytes of a file from offset [ofs] on. *)
Definition bytes_at (data : list Z) (ofs n : Z) : list Z :=
  take (Z.to_nat n) (drop (Z.to_nat ofs) data).

(** Whether the [size] bytes of a file from [ofs] on are all there. *)
Definition in_file (data : list Z) (ofs size : Z) : bool :=
  ofs + size <=? Z.of_nat (length data).

(** ** The colour table (lines 374-406) *)

Definition u16 (z : Z) : Z := z mod 2 ^ 16.

(** Lines 381-385; [1 << depth] and [iClrUsed] are of type [int], the
    table size is a [uint32]. *)
Definition clr_tbl_size_of (depth iClrUsed : Z) : Z :=
  if nonzero iClrUsed
  then u32 (if Z.shiftl 1 depth <? iClrUsed then Z.shiftl 1 depth
            else iClrUsed)
  else u32 (Z.shiftl 1 depth).

(** The sizes asked of _TIFFmalloc on lines 386-387 and 392-397, in
    bytes; [sizeof(unsigned short)] is 2, and [*] binds tighter than
    [<<]. *)
Definition clr_tbl_bytes (n_clr_elems clr_tbl_size : Z) : Z :=
  u32 (n_clr_elems * clr_tbl_size).

Definition colormap_bytes (depth : Z) : Z := Z.shiftl 1 (depth * 2).

(** [fread] into a block that may be smaller than the request: bytes
    that arrive and do not fit are stored past its end. *)
Definition fread_into (f : stream) (blk : list Z) (size nmemb : Z)
    : res (list Z * Z * stream) :=
  let r := fread f blk size nmemb in
  if (length blk <? length r.1.1)%nat
  then Ub (WritePastEnd (Z.of_nat (length blk)))
  else Ok r.

(** The three maps, blocks of [unsigned short]. *)
Record colormap := {
  red_tbl : list Z;
  green_tbl : list Z;
  blue_tbl : list Z
}.

(** Lines 399-403; [n] passes are left. *)
Fixpoint clr_loop (n_clr_elems : Z) (clr_tbl : list Z) (n : nat) (clr : Z)
    (m : colormap) : res colormap :=
  match n with
  | O => Ok m
  | S n' =>
    do r <- load clr_tbl (u32 (u32 (clr * n_clr_elems) + 2));
    do red <- store (red_tbl m) clr (u16 (257 * r));
    do g <- load clr_tbl (u32 (u32 (clr * n_clr_elems) + 1));
    do green <- store (green_tbl m) clr (u16 (257 * g));
    do b <- load clr_tbl (u32 (clr * n_clr_elems));
    do blue <- store (blue_tbl m) clr (u16 (257 * b));
    clr_loop n_clr_elems clr_tbl n' (u32 (clr + 1))
             {| red_tbl := red; green_tbl := green; blue_tbl := blue |}
  end.

(** Lines 381-403, in the cases 1, 4 and 8 of the switch.  [clr_tbl]
    and the maps of [m] are the blocks as _TIFFmalloc returned them. *)
Definition colour_table (fseek_fails : Z -> bool) (info_hdr : BMPInfoHeader)
    (iClrUsed n_clr_elems : Z) (f : stream) (clr_tbl : list Z)
    (m : colormap) : res colormap :=
  let depth := iBitCount info_hdr in
  let clr_tbl_size := clr_tbl_size_of depth iClrUsed in
  let offset := u32 (BFH_SIZE + iSize info_hdr) in
  do '(clr_tbl, _, _) <-
    fread_into (if fseek_fails offset then f else seek f offset)
               clr_tbl n_clr_elems clr_tbl_size;
  clr_loop n_clr_elems clr_tbl (Z.to_nat clr_tbl_size) 0 m.

(** ** The run from the bit-count test on (lines 359-626) *)

(** How [main] is left: by a [return], or in undefined behaviour after
    an access outside a block. *)
Inductive status :=
| Exit (code : Z)
| Undefined.

(** The switch of lines 372-420 reads and builds a colour table in the
    cases 1, 4 and 8. *)
Definition has_colour_table (bits : Z) : bool :=
  (bits =? 1) || (bits =? 4) || (bits =? 8).

(** The accesses outside a block in a trace. *)
Definition faults (evs : list event) : list fault :=
  omap (fun e => match e with EvUb f => Some f | _ => None end) evs.

Section Convert.

(** The environment: whether fseek to an offset fails, whether
    TIFFWriteScanline refuses a row and whether TIFFOpen returns
    NULL. *)
Variables fseek_fails write_fails : Z -> bool.
Variable open_fails : bool.

Variable file_hdr : BMPFileHeader.
Variable info_hdr : BMPInfoHeader.
Variables iClrUsed n_clr_elems : Z.

Local Abbreviation bits := (iBitCount info_hdr).

(** Line 389. *)
Definition table_offset : Z := u32 (BFH_SIZE + iSize info_hdr).

(** The calls of lines 389-390 on the input stream. *)
Definition table_io : list event :=
  if has_colour_table bits
  then [EvSeek table_offset;
        EvRead n_clr_elems (clr_tbl_size_of bits iClrUsed)]
  else [].

(** The input stream behind those calls. *)
Definition after_table (f : stream) (clr_tbl : list Z) : stream :=
  if has_colour_table bits
  then (fread (if fseek_fails table_offset then f else seek f table_offset)
              clr_tbl n_clr_elems (clr_tbl_size_of bits iClrUsed)).2
  else f.

(** Lines 359-626: the bit-count test, the colour table, the opening
    of the output file, the image data and the way [main] is left.
    [clr_tbl], the maps of [m], [scanbuf], [comprbuf] and [uncomprbuf]
    are the blocks as _TIFFmalloc returned them.  The calls of
    TIFFSetField and TIFFClose print nothing through this file and
    leave no event. *)
Definition convert (f : stream) (clr_tbl : list Z) (m : colormap)
    (scanbuf comprbuf uncomprbuf : list Z) (fuel : nat)
    : option (list event * status) :=
  if bit_count_rejected bits
  then Some ([EvDiag (BadBitCount bits)], Exit 0)
  else
    match (if has_colour_table bits
           then colour_table fseek_fails info_hdr iClrUsed n_clr_elems
                             f clr_tbl m
           else Ok m) with
    | Ub e => Some (table_io ++ [EvUb e], Undefined)
    | Ok _ =>
      if open_fails
      then Some (table_io ++ [EvDiag CannotOpenOutput], Exit (-1))
      else
        match read_image fseek_fails write_fails file_hdr info_hdr
                         (after_table f clr_tbl)
                         scanbuf comprbuf uncomprbuf fuel with
        | None => None
        | Some evs =>
          Some (table_io ++ evs,
                match faults evs with
                | [] => Exit 0
                | _ => Undefined
                end)
        end
    end.

End Convert.


(** The pointers handed to TIFFWriteScanline: the offset into the
    block and the length of the block. *)
Definition row_pointers (evs : list event) : list (Z * Z) :=
  omap (fun e => match e with
                 | EvScanline _ blk o => Some (o, Z.of_nat (length blk))
                 | _ => None
                 end) evs.

(** A 2 x 1 image of 1 bit with its two-entry colour table behind 54
    bytes of headers, and fresh maps of [colormap_bytes 1] bytes. *)
Definition mono_hdr : BMPInfoHeader :=
  {| iSize := 40; iWidth := 2; iHeight := 1; iBitCount := 1;
     iCompression := BMPC_RGB |}.

Definition mono_data : list Z :=
  replicate 54 0 ++ [1; 2; 3; 0; 4; 5; 6; 0] ++ [128; 0; 0; 0].

Definition fresh_maps : colormap :=
  {| red_tbl := [7; 7]; green_tbl := [7; 7]; blue_tbl := [7; 7] |}.

(** The same header with the BITFIELDS method. *)
Definition bitfields_mono_hdr : BMPInfoHeader :=
  {| iSize := 40; iWidth := 2; iHeight := 1; iBitCount := 1;
     iCompression := BMPC_BITFIELDS |}.

(** ** Reading the headers (lines 260-357) *)

(** The variables that [fread] fills. *)
Module Var.
Inductive t :=
| bType | iOffBits | iSize | iWidth | iHeight | iPlanes | iBitCount
| iCompression | iSizeImage | iXPelsPerMeter | iYPelsPerMeter
| iClrUsed | iClrImportant | iShort.

#[global] Instance eq_dec : EqDecision t.
Proof. solve_decision. Defined.

(** Their sizes in bytes. *)
Definition size (v : t) : Z :=
  match v with
  | bType | iPlanes | iBitCount | iShort => 2
  | _ => 4
  end.
End Var.

(** The bytes of each variable, least significant first. *)
Definition memory : Type := Var.t -> list Z.

Definition assign (v : Var.t) (bytes : list Z) (m : memory) : memory :=
  fun v' => if decide (v' = v) then bytes else m v'.

(** Every variable has its size. *)
Definition sized (m : memory) : Prop :=
  forall v, Z.of_nat (length (m v)) = Var.size v.

(** How the program sees those bytes; the host is little-endian
    (WORDS_BIGENDIAN is not defined). *)
Definition le_unsigned (bytes : list Z) : Z := little_endian_to_Z 8 bytes.

Definition le_signed (bytes : list Z) : Z :=
  let v := le_unsigned bytes in
  let m := 2 ^ (8 * Z.of_nat (length bytes)) in
  if 2 * v <? m then v else v - m.

(** The [n] bytes of a value, two's complement. *)
Definition le_bytes (n v : Z) : list Z := Z_to_little_endian n 8 v.

(** [fread(&v, 1, sizeof v, in)]; the result of [fread] is not looked
    at. *)
Definition fread_var (st : memory * stream) (v : Var.t) : memory * stream :=
  let '(bytes, _, f) := fread st.2 (st.1 v) 1 (Var.size v) in
  (assign v bytes st.1, f).

(** [fread(&iShort, 1, 2, in); v = iShort;] of lines 335-354; the
    assignment extends the sign. *)
Definition fread_short (st : memory * stream) (v : Var.t)
    : memory * stream :=
  let st := fread_var st Var.iShort in
  (assign v (le_bytes (Var.size v) (le_signed (st.1 Var.iShort))) st.1,
   st.2).

Inductive header :=
| NotBMP      (* File is not BMP. *)
| Header (file_hdr : BMPFileHeader) (info_hdr : BMPInfoHeader)
         (iClrUsed : Z) (bmp_type : BMPType) (n_clr_elems : Z)
         (f : stream).

(** Lines 260-357.  [m] holds the variables as they are when [main]
    starts, not initialised. *)
Definition read_header (fseek_fails : Z -> bool) (m : memory) (f : stream)
    : header :=
  let st := fread_var (m, f) Var.bType in
  if negb (default 0 (st.1 Var.bType !! 0%nat) =? 66)
     || negb (default 0 (st.1 Var.bType !! 1%nat) =? 77)
  then NotBMP
  else
    let st := fread_var (st.1, if fseek_fails 10 then st.2 else seek st.2 10)
                        Var.iOffBits in
    let st_size := Z.of_nat (length (st_data f)) in
    let st := fread_var (st.1, if fseek_fails BFH_SIZE then st.2
                               else seek st.2 BFH_SIZE) Var.iSize in
    let bmp_type := bmp_type_of (le_unsigned (st.1 Var.iSize)) in
    let st :=
      if bool_decide (bmp_type = BMPT_WIN4 ∨ bmp_type = BMPT_WIN5
                      ∨ bmp_type = BMPT_OS22)
      then foldl fread_var st
             [Var.iWidth; Var.iHeight; Var.iPlanes; Var.iBitCount;
              Var.iCompression; Var.iSizeImage; Var.iXPelsPerMeter;
              Var.iYPelsPerMeter; Var.iClrUsed; Var.iClrImportant]
      else st in
    let st :=
      if bool_decide (bmp_type = BMPT_OS21)
      then
        let st := foldl fread_short st
                    [Var.iWidth; Var.iHeight; Var.iPlanes; Var.iBitCount] in
        (assign Var.iCompression (le_bytes 4 BMPC_RGB) st.1, st.2)
      else st in
    Header {| fh_iSize := u32 st_size;
              iOffBits := le_unsigned (st.1 Var.iOffBits) |}
           {| iSize := le_unsigned (st.1 Var.iSize);
              iWidth := le_signed (st.1 Var.iWidth);
              iHeight := le_signed (st.1 Var.iHeight);
              iBitCount := le_signed (st.1 Var.iBitCount);
              iCompression := le_unsigned (st.1 Var.iCompression) |}
           (le_signed (st.1 Var.iClrUsed)) bmp_type
           (n_clr_elems_of bmp_type) st.2.

(** Variables that hold the byte 170 throughout. *)
Definition junk : memory := fun v => replicate (Z.to_nat (Var.size v)) 170.

(** The headers of a 2 x 2 image of 24 bits, stored top-down, with a
    Windows info header, and of the same image with an OS/2 1.x info
    header. *)
Definition win4_headers : list Z :=
  [66; 77] ++ [70; 0; 0; 0] ++ [0; 0; 0; 0] ++ [54; 0; 0; 0]
  ++ [40; 0; 0; 0] ++ [2; 0; 0; 0] ++ [254; 255; 255; 255]
  ++ [1; 0] ++ [24; 0] ++ [0; 0; 0; 0] ++ [16; 0; 0; 0]
  ++ [0; 0; 0; 0] ++ [0; 0; 0; 0] ++ [0; 0; 0; 0] ++ [0; 0; 0; 0].

Definition os21_headers : list Z :=
  [66; 77] ++ [42; 0; 0; 0] ++ [0; 0; 0; 0] ++ [26; 0; 0; 0]
  ++ [12; 0; 0; 0] ++ [2; 0] ++ [254; 255] ++ [1; 0] ++ [24; 0].

(** ** processCompressOptions (lines 666-693) *)

(** The option variables of lines 196-199. *)
Record options := {
  compression : Z;       (* uint16 *)
  jpegcolormode : Z;
  quality : Z;
  predictor : Z          (* uint16 *)
}.

(** The constants of tiff.h that the function assigns. *)
Record tiff_h := {
  COMPRESSION_NONE : Z;
  COMPRESSION_PACKBITS : Z;
  COMPRESSION_JPEG : Z;
  COMPRESSION_LZW : Z;
  COMPRESSION_DEFLATE : Z;
  JPEGCOLORMODE_RAW : Z
}.

(** [strchr(s, c)] for a character other than the terminator: the
    string from the first [c] on. *)
Fixpoint strchr (s : string) (c : Ascii.ascii) : option string :=
  match s with
  | EmptyString => None
  | String a s' => if Ascii.eqb a c then Some s else strchr s' c
  end.

Definition isdigit (c : Ascii.ascii) : bool :=
  (48 <=? Ascii.nat_of_ascii c)%nat && (Ascii.nat_of_ascii c <=? 57)%nat.

(** [isdigit(cp[1])]; [cp[1]] may be the terminator. *)
Definition digit_at_1 (cp : string) : bool :=
  match cp with
  | String _ (String d _) => isdigit d
  | _ => false
  end.

(** [cp + 1], for a string that is not empty. *)
Definition string_tail (cp : string) : string :=
  match cp with
  | EmptyString => EmptyString
  | String _ s => s
  end.

Section CompressOptions.

Variable tiff : tiff_h.
(** [atoi] of the C library. *)
Variable atoi : string -> Z.

(** The result and the option variables after the call. *)
Definition processCompressOptions (opt : string) (o : options)
    : Z * options :=
  if String.eqb opt "none" then
    (1, {| compression := COMPRESSION_NONE tiff;
           jpegcolormode := jpegcolormode o; quality := quality o;
           predictor := predictor o |})
  else if String.eqb opt "packbits" then
    (1, {| compression := COMPRESSION_PACKBITS tiff;
           jpegcolormode := jpegcolormode o; quality := quality o;
           predictor := predictor o |})
  else if String.prefix "jpeg" opt then
    let cp := strchr opt ":"%char in
    let quality :=
      match cp with
      | Some cp => if digit_at_1 cp then atoi (string_tail cp) else quality o
      | None => quality o
      end in
    let jpegcolormode :=
      match cp with
      | Some cp => match strchr cp "r"%char with
                   | Some _ => JPEGCOLORMODE_RAW tiff
                   | None => jpegcolormode o
                   end
      | None => jpegcolormode o
      end in
    (1, {| compression := COMPRESSION_JPEG tiff;
           jpegcolormode := jpegcolormode; quality := quality;
           predictor := predictor o |})
  else if String.prefix "lzw" opt then
    let predictor :=
      match strchr opt ":"%char with
      | Some cp => u16 (atoi (string_tail cp))
      | None => predictor o
      end in
    (1, {| compression := COMPRESSION_LZW tiff;
           jpegcolormode := jpegcolormode o; quality := quality o;
           predictor := predictor |})
  else if String.prefix "zip" opt then
    let predictor :=
      match strchr opt ":"%char with
      | Some cp => u16 (atoi (string_tail cp))
      | None => predictor o
      end in
    (1, {| compression := COMPRESSION_DEFLATE tiff;
           jpegcolormode := jpegcolormode o; quality := quality o;
           predictor := predictor |})
  else (0, o).

End CompressOptions.

(** For the examples: the values of tiff.h, the option variables as
    lines 196-199 initialise them, and [atoi] as the C library defines
    it for values that fit in an [int]: blanks, a sign, digits. *)
Definition tiff_values : tiff_h :=
  {| COMPRESSION_NONE := 1; COMPRESSION_PACKBITS := 32773;
     COMPRESSION_JPEG := 7; COMPRESSION_LZW := 5;
     COMPRESSION_DEFLATE := 32946; JPEGCOLORMODE_RAW := 0 |}.

Definition initial_options : options :=
  {| compression := 65535; jpegcolormode := 1; quality := 75;
     predictor := 0 |}.

Fixpoint leading_digits (s : string) (acc : Z) : Z :=
  match s with
  | String d s' =>
    if isdigit d
    then leading_digits s' (10 * acc + Z.of_nat (Ascii.nat_of_ascii d) - 48)
    else acc
  | EmptyString => acc
  end.

Definition isspace (c : Ascii.ascii) : bool :=
  (Ascii.nat_of_ascii c =? 32)%nat
  || (9 <=? Ascii.nat_of_ascii c)%nat && (Ascii.nat_of_ascii c <=? 13)%nat.

Fixpoint skip_blanks (s : string) : string :=
  match s with
  | String c s' => if isspace c then skip_blanks s' else s
  | EmptyString => EmptyString
  end.

Definition c_atoi (s : string) : Z :=
  match skip_blanks s with
  | String c s' =>
    if Ascii.eqb c "-"%char then - leading_digits s' 0
    else if Ascii.eqb c "+"%char then leading_digits s' 0
    else leading_digits (String c s') 0
  | EmptyString => 0
  end.

(** * Properties *)

(** ** Machine arithmetic *)

Lemma u32_small z : 0 <= z < 2 ^ 32 -> u32 z = z.
Proof. intros H. unfold u32. apply Z.mod_small. exact H. Qed.

Lemma u32_range z : 0 <= u32 z < 2 ^ 32.
Proof. unfold u32. apply Z.mod_pos_bound. lia. Qed.

(** Masking with [~31] clears the five low bits. *)
Lemma land_not31 x :
  0 <= x < 2 ^ 32 -> Z.land x (u32 (Z.lnot 31)) = 32 * (x / 32).
Proof.
  intros Hx. unfold u32.
  rewrite <- (Z.land_ones (Z.lnot 31) 32) by lia.
  rewrite (Z.land_comm (Z.lnot 31)), Z.land_assoc.
  rewrite (Z.land_ones x 32) by lia.
  rewrite (Z.mod_small x) by lia.
  rewrite <- Z.ldiff_land.
  change 31 with (Z.ones 5).
  rewrite Z.ldiff_ones_r by lia.
  rewrite Z.shiftl_mul_pow2, Z.shiftr_div_pow2 by lia.
  change (2 ^ 5) with 32. lia.
Qed.

Lemma ceil_div_32 a : ceil_div a 32 = (a + 31) / 32.
Proof.
  unfold ceil_div.
  pose proof (Z.div_mod (- a) 32 ltac:(lia)).
  pose proof (Z.mod_pos_bound (- a) 32 ltac:(lia)).
  apply (Z.div_unique_pos _ _ _ (31 - (- a) mod 32)); lia.
Qed.

Lemma row_size_no_overflow width bit_count :
  0 <= width * bit_count -> width * bit_count + 31 < 2 ^ 32 ->
  row_size width bit_count = spec_row_stride width bit_count.
Proof.
  intros H0 H1. unfold row_size, spec_row_stride.
  rewrite (u32_small (width * bit_count)) by lia.
  rewrite (u32_small (width * bit_count + 31)) by lia.
  rewrite land_not31 by lia.
  rewrite ceil_div_32.
  replace (32 * ((width * bit_count + 31) / 32))
    with ((width * bit_count + 31) / 32 * 4 * 8) by lia.
  apply Z.div_mul. lia.
Qed.

(** ** The colour-table entry width *)

(** C4, as the code has it: the colour-table entry is 4 bytes wide for
    the Win4 and Win5 variants and 3 bytes wide for the OS21 and the
    OS22 variants. *)
Theorem n_clr_elems_by_variant (bmp_type : BMPType) :
  n_clr_elems_of bmp_type =
  match bmp_type with
  | BMPT_WIN4 | BMPT_WIN5 => 4
  | BMPT_OS21 | BMPT_OS22 => 3
  end.
Proof. destruct bmp_type; reflexivity. Qed.

(** C4 fails for OS22: an info header of 64 bytes selects the OS22
    variant, whose entries are read 3 bytes wide, not 4. *)
Lemma n_clr_elems_os22_is_3 :
  bmp_type_of 64 = BMPT_OS22 /\ n_clr_elems_of (bmp_type_of 64) <> 4.
Proof. split; [reflexivity | vm_compute; discriminate]. Qed.

(** ** The row stride *)

(** C9, as the code has it: when the 32-bit computation
    [width * bitsPerPixel + 31] does not wrap around, the row size of
    the decoder is [ceil (width * bitsPerPixel / 32) * 4]; a 3-pixel,
    24-bit row is 12 bytes. *)
Theorem row_size_is_padded_stride (width bit_count : Z) :
  0 < width ->
  bit_count ∈ [1; 4; 8; 16; 24; 32] ->
  width * bit_count + 31 < 2 ^ 32 ->
  row_size width bit_count = spec_row_stride width bit_count
  /\ row_size 3 24 = 12.
Proof.
  intros Hw Hb Hno. split; [| reflexivity].
  apply row_size_no_overflow; [| exact Hno].
  repeat (apply elem_of_cons in Hb as [-> | Hb]; [lia |]).
  by apply elem_of_nil in Hb.
Qed.

Lemma row_size_is_padded_stride_witness :
  row_size 3 24 = spec_row_stride 3 24 /\ row_size 3 24 = 12.
Proof.
  apply (row_size_is_padded_stride 3 24).
  - lia.
  - repeat constructor.
  - reflexivity.
Defined.

(** C9 fails once the product wraps: a 32-bit row of 2^27 pixels gets
    the row size 0, not 2^29. *)
Lemma row_size_wraps :
  0 < 2 ^ 27 /\ 32 ∈ [1; 4; 8; 16; 24; 32]
  /\ row_size (2 ^ 27) 32 = 0
  /\ spec_row_stride (2 ^ 27) 32 = 2 ^ 29
  /\ row_size (2 ^ 27) 32 <> spec_row_stride (2 ^ 27) 32.
Proof.
  split; [lia |]. split; [repeat constructor |].
  split; [reflexivity |]. split; [reflexivity |].
  vm_compute. discriminate.
Qed.

(** ** Loads and stores *)

#[local] Arguments u32 : simpl never.
#[local] Arguments load : simpl never.
#[local] Arguments store : simpl never.
#[local] Arguments put : simpl never.
#[local] Arguments incr_i : simpl never.
#[local] Arguments in_range : simpl never.

Lemma load_inside (buf : list Z) i :
  0 <= i < Z.of_nat (length buf) -> exists b, load buf i = Ok b.
Proof.
  intros [H0 H1]. unfold load.
  destruct (Z.ltb_spec i 0); [lia |].
  destruct (lookup_lt_is_Some_2 buf (Z.to_nat i)) as [b ->]; [lia |].
  by exists b.
Qed.

Lemma load_Ok (buf : list Z) i b :
  load buf i = Ok b ->
  0 <= i < Z.of_nat (length buf) /\ buf !! Z.to_nat i = Some b.
Proof.
  unfold load. destruct (Z.ltb_spec i 0); [discriminate |].
  destruct (buf !! Z.to_nat i) eqn:E; [| discriminate].
  intros [= ->]. split; [| reflexivity].
  apply lookup_lt_Some in E. lia.
Qed.

Lemma load_Ub (buf : list Z) i f :
  load buf i = Ub f -> 0 <= i ->
  f = ReadPastEnd i /\ Z.of_nat (length buf) <= i.
Proof.
  unfold load. destruct (Z.ltb_spec i 0); [lia |].
  destruct (buf !! Z.to_nat i) eqn:E; [discriminate |].
  intros [= <-] _. split; [reflexivity |].
  apply lookup_ge_None in E. lia.
Qed.

Lemma put_cursor s v s' : put s v = Ok s' -> rs_i s' = rs_i s.
Proof.
  unfold put. destruct (store _ _ _); simpl; [| discriminate].
  by intros [= <-].
Qed.

Lemma incr_i_small s :
  0 <= rs_i s < 2 ^ 32 - 1 -> rs_i (incr_i s) = rs_i s + 1.
Proof. intros H. unfold incr_i. simpl. apply u32_small. lia. Qed.

Lemma in_range_true cs us s :
  in_range cs us s = true -> rs_j s < us /\ rs_i s < cs.
Proof. unfold in_range. rewrite andb_true_iff, !Z.ltb_lt. tauto. Qed.

(** ** The cursor of the compressed block *)

Section Cursor.

Variable comprbuf : list Z.
Variables compr_size uncompr_size width : Z.
Hypothesis Hcs : Z.of_nat (length comprbuf) = compr_size.
Hypothesis Hmax : compr_size < 2 ^ 32 - 1.

Lemma rle8_run_cursor n s s' :
  rle8_run comprbuf compr_size uncompr_size n s = Ok s' -> rs_i s' = rs_i s.
Proof.
  revert s. induction n as [| n IH]; simpl; intros s H.
  - by injection H as <-.
  - destruct (in_range _ _ s); [| by injection H as <-].
    destruct (load comprbuf (rs_i s)) as [b |]; simpl in H; [| discriminate].
    destruct (put s b) as [s1 |] eqn:P; simpl in H; [| discriminate].
    rewrite (IH _ H). by apply put_cursor in P.
Qed.

Lemma rle4_run_cursor n s s' :
  rle4_run comprbuf compr_size uncompr_size n s = Ok s' -> rs_i s' = rs_i s.
Proof.
  revert s. induction n as [| n IH]; intros s H.
  - simpl in H. by injection H as <-.
  - cbn [rle4_run] in H.
    destruct (in_range _ _ s); [| by injection H as <-].
    destruct (load comprbuf (rs_i s)) as [b |]; simpl in H; [| discriminate].
    destruct (put s _) as [s1 |] eqn:P; simpl in H; [| discriminate].
    rewrite (IH _ H). by apply put_cursor in P.
Qed.

Lemma rle8_abs_cursor n k s k' s' :
  rle8_abs comprbuf compr_size uncompr_size n k s = Ok (k', s') ->
  0 <= rs_i s ->
  rs_i s <= rs_i s' /\ (rs_i s <= compr_size -> rs_i s' <= compr_size).
Proof.
  revert k s. induction n as [| n IH]; simpl; intros k s H H0.
  - injection H as <- <-. lia.
  - destruct (in_range _ _ s) eqn:E; [| injection H as <- <-; lia].
    apply in_range_true in E as [_ Ei].
    destruct (load comprbuf (rs_i s)) as [b |]; simpl in H; [| discriminate].
    destruct (put s b) as [s1 |] eqn:P; simpl in H; [| discriminate].
    apply put_cursor in P.
    assert (rs_i (incr_i s1) = rs_i s + 1) as Hi
      by (rewrite incr_i_small; lia).
    apply IH in H; lia.
Qed.

Lemma rle4_abs_cursor n k s k' s' :
  rle4_abs comprbuf compr_size uncompr_size n k s = Ok (k', s') ->
  0 <= rs_i s ->
  rs_i s <= rs_i s' /\ (rs_i s <= compr_size -> rs_i s' <= compr_size).
Proof.
  revert k s. induction n as [| n IH]; simpl; intros k s H H0.
  - injection H as <- <-. lia.
  - destruct (in_range _ _ s) eqn:E; [| injection H as <- <-; lia].
    apply in_range_true in E as [_ Ei].
    destruct (load comprbuf (rs_i s)) as [b |]; simpl in H; [| discriminate].
    destruct (nonzero (Z.land k 1));
      destruct (put s _) as [s1 |] eqn:P; simpl in H; try discriminate;
      apply put_cursor in P.
    + assert (rs_i (incr_i s1) = rs_i s + 1) as Hi
        by (rewrite incr_i_small; lia).
      apply IH in H; lia.
    + apply IH in H; lia.
Qed.

Lemma escape_cursor abs s s' :
  abs_cursor_ok compr_size abs ->
  0 <= rs_i s < compr_size ->
  escape comprbuf compr_size width abs s = Ok (Again s') ->
  rs_i s < rs_i s' <= compr_size + 1.
Proof.
  intros Habs Hi. unfold escape, incr_i. simpl.
  rewrite (u32_small (rs_i s + 1)) by lia.
  destruct (load comprbuf (rs_i s + 1)) as [b1 |] eqn:L1; simpl;
    [| discriminate].
  apply load_Ok in L1 as [L1 _].
  rewrite ?(u32_small (rs_i s + 1 + 1)) by lia.
  destruct (b1 =? 0); [intros [= <-]; simpl; lia |].
  destruct (b1 =? 1); [discriminate |].
  destruct (b1 =? 2).
  - rewrite (u32_small (compr_size - 1)) by lia.
    destruct (Z.ltb_spec (rs_i s + 1 + 1) (compr_size - 1)); [| discriminate].
    destruct (load comprbuf _) as [dx |]; simpl; [| discriminate].
    destruct (load comprbuf _) as [dy |]; simpl; [| discriminate].
    intros [= <-]. simpl. rewrite u32_small; lia.
  - destruct (abs _ _ _) as [[k s3] |] eqn:A; simpl; [| discriminate].
    destruct (Habs _ _ _ _ _ A) as [A1 A2]; [simpl; lia |]. simpl in A1, A2.
    destruct (nonzero (Z.land k 1)); intros [= <-]; simpl; [| lia].
    rewrite u32_small; lia.
Qed.

Lemma rle8_body_cursor s s' :
  0 <= rs_i s < compr_size ->
  rle8_body comprbuf compr_size uncompr_size width s = Ok (Again s') ->
  rs_i s < rs_i s' <= compr_size + 1.
Proof.
  intros Hi. unfold rle8_body.
  destruct (load comprbuf (rs_i s)) as [b0 |]; simpl; [| discriminate].
  destruct (nonzero b0).
  - destruct (rle8_run _ _ _ _ _) as [s2 |] eqn:R; simpl; [| discriminate].
    apply rle8_run_cursor in R. intros [= <-].
    assert (rs_i (incr_i s) = rs_i s + 1) by (apply incr_i_small; lia).
    rewrite incr_i_small; lia.
  - apply escape_cursor; [| exact Hi].
    intros n k s0 k' s0'. apply rle8_abs_cursor.
Qed.

Lemma rle4_body_cursor s s' :
  0 <= rs_i s < compr_size ->
  rle4_body comprbuf compr_size uncompr_size width s = Ok (Again s') ->
  rs_i s < rs_i s' <= compr_size + 1.
Proof.
  intros Hi. unfold rle4_body.
  destruct (load comprbuf (rs_i s)) as [b0 |]; simpl; [| discriminate].
  destruct (nonzero b0).
  - destruct (rle4_run _ _ _ _ _) as [s2 |] eqn:R; simpl; [| discriminate].
    apply rle4_run_cursor in R. intros [= <-].
    assert (rs_i (incr_i s) = rs_i s + 1) by (apply incr_i_small; lia).
    rewrite incr_i_small; lia.
  - apply escape_cursor; [| exact Hi].
    intros n k s0 k' s0'. apply rle4_abs_cursor.
Qed.

(** A loop whose body moves the cursor forward ends within
    [compr_size - i] passes. *)
Lemma rle_loop_ends body fuel s :
  (forall s s', 0 <= rs_i s < compr_size -> body s = Ok (Again s') ->
                rs_i s < rs_i s') ->
  0 <= rs_i s ->
  compr_size - rs_i s < Z.of_nat fuel ->
  is_Some (rle_loop compr_size uncompr_size body fuel s).
Proof.
  intros Hbody. revert s. induction fuel as [| fuel IH]; intros s H0 Hf.
  - simpl. destruct (in_range _ _ s) eqn:E; [| by eexists].
    apply in_range_true in E. lia.
  - simpl. destruct (in_range _ _ s) eqn:E; [| by eexists].
    apply in_range_true in E as [_ Ei].
    destruct (body s) as [[s' | s'] |] eqn:B; try by eexists.
    apply Hbody in B; [| lia]. apply IH; lia.
Qed.

End Cursor.

(** ** Stores stay inside the output block *)

Section Safety.

Variable comprbuf : list Z.
Variables compr_size uncompr_size width : Z.
Variable init : list Z.
Hypothesis Hcs : Z.of_nat (length comprbuf) = compr_size.
Hypothesis Hus : Z.of_nat (length init) = uncompr_size.
Hypothesis Hmax : compr_size < 2 ^ 32 - 1.

Lemma incr_i_inv s : rle_inv init s -> rle_inv init (incr_i s).
Proof.
  intros (Hi & Hj & Hl & Hu). unfold incr_i.
  repeat split; simpl; try done. apply u32_range.
Qed.

Lemma put_inv s v :
  rle_inv init s -> rs_j s < uncompr_size ->
  exists s', put s v = Ok s' /\ rle_inv init s'.
Proof.
  intros (Hi & Hj & Hl & Hu) Hlt. unfold put, store.
  destruct ((rs_j s <? 0) || (Z.of_nat (length (rs_out s)) <=? rs_j s))
    eqn:E.
  - apply orb_true_iff in E as [E | E];
      [apply Z.ltb_lt in E | apply Z.leb_le in E]; lia.
  - simpl. eexists. split; [reflexivity |].
    unfold rle_inv, untouched. cbn [rs_i rs_j rs_out rs_stores].
    split; [done |]. split; [apply u32_range |].
    split; [by rewrite length_insert |].
    intros p Hp. apply not_elem_of_cons in Hp as [Hne Hp].
    rewrite list_lookup_insert_ne by lia. by apply Hu.
Qed.

Lemma rle8_run_inv n s :
  rle_inv init s ->
  exists s', rle8_run comprbuf compr_size uncompr_size n s = Ok s'
             /\ rle_inv init s'.
Proof.
  revert s. induction n as [| n IH]; intros s Hs; simpl; [by exists s |].
  destruct (in_range _ _ s) eqn:E; [| by exists s].
  apply in_range_true in E as [Ej Ei].
  destruct (load_inside comprbuf (rs_i s)) as [b ->];
    [destruct Hs; lia |]. simpl.
  destruct (put_inv s b Hs Ej) as (s1 & -> & Hs1). simpl.
  by apply IH.
Qed.

Lemma rle4_run_inv n s :
  rle_inv init s ->
  exists s', rle4_run comprbuf compr_size uncompr_size n s = Ok s'
             /\ rle_inv init s'.
Proof.
  revert s. induction n as [| n IH]; intros s Hs; [by exists s |].
  cbn [rle4_run].
  destruct (in_range _ _ s) eqn:E; [| by exists s].
  apply in_range_true in E as [Ej Ei].
  destruct (load_inside comprbuf (rs_i s)) as [b ->];
    [destruct Hs; lia |]. simpl.
  match goal with |- context [put s ?v] =>
    destruct (put_inv s v Hs Ej) as (s1 & -> & Hs1) end.
  simpl. by apply IH.
Qed.

Lemma rle8_abs_inv n k s :
  rle_inv init s ->
  exists k' s', rle8_abs comprbuf compr_size uncompr_size n k s = Ok (k', s')
                /\ rle_inv init s'.
Proof.
  revert k s. induction n as [| n IH]; intros k s Hs; simpl;
    [by exists k, s |].
  destruct (in_range _ _ s) eqn:E; [| by exists k, s].
  apply in_range_true in E as [Ej Ei].
  destruct (load_inside comprbuf (rs_i s)) as [b ->];
    [destruct Hs; lia |]. simpl.
  destruct (put_inv s b Hs Ej) as (s1 & -> & Hs1). simpl.
  apply IH. by apply incr_i_inv.
Qed.

Lemma rle4_abs_inv n k s :
  rle_inv init s ->
  exists k' s', rle4_abs comprbuf compr_size uncompr_size n k s = Ok (k', s')
                /\ rle_inv init s'.
Proof.
  revert k s. induction n as [| n IH]; intros k s Hs; simpl;
    [by exists k, s |].
  destruct (in_range _ _ s) eqn:E; [| by exists k, s].
  apply in_range_true in E as [Ej Ei].
  destruct (load_inside comprbuf (rs_i s)) as [b ->];
    [destruct Hs; lia |]. simpl.
  destruct (nonzero (Z.land k 1));
    match goal with |- context [put s ?v] =>
      destruct (put_inv s v Hs Ej) as (s1 & -> & Hs1) end; simpl.
  - apply IH. by apply incr_i_inv.
  - by apply IH.
Qed.

Lemma escape_safe abs s :
  (forall n k s, rle_inv init s ->
     exists k' s', abs n k s = Ok (k', s') /\ rle_inv init s') ->
  rle_inv init s -> rs_i s < compr_size ->
  step_safe init compr_size s (escape comprbuf compr_size width abs s).
Proof.
  intros Habs Hs Hi. pose proof Hs as (H0 & _).
  pose proof (incr_i_inv _ Hs) as Hs1.
  pose proof (incr_i_inv _ Hs1) as Hs2.
  unfold escape.
  assert (rs_i (incr_i s) = rs_i s + 1) as E1 by (apply incr_i_small; lia).
  destruct (load comprbuf (rs_i (incr_i s))) as [b1 | f] eqn:L1; cbn [bind].
  - apply load_Ok in L1 as [L1 _]. rewrite E1 in L1.
    assert (rs_i (incr_i (incr_i s)) = rs_i s + 2) as E2
      by (rewrite incr_i_small; lia).
    destruct (b1 =? 0); [exact Hs2 |].
    destruct (b1 =? 1); [exact Hs1 |].
    destruct (b1 =? 2).
    + destruct (Z.ltb_spec (rs_i (incr_i (incr_i s)))
                           (u32 (compr_size - 1))) as [Hlt | _];
        [| exact Hs2].
      rewrite u32_small in Hlt by lia.
      destruct (load_inside comprbuf (rs_i (incr_i (incr_i s))))
        as [dx ->]; [lia |]. cbn [bind].
      destruct (load_inside comprbuf (rs_i (incr_i (incr_i s)) + 1))
        as [dy ->]; [lia |]. cbn [bind].
      destruct Hs2 as (_ & _ & Hl & Hu).
      unfold step_safe, rle_inv, untouched, set_ij.
      cbn [step_state rs_i rs_j rs_out rs_stores].
      repeat split; try done; apply u32_range.
    + destruct (Habs (Z.to_nat b1) 0 _ Hs2) as (k & s3 & -> & Hs3). cbn [bind].
      destruct (nonzero (Z.land k 1)); [by apply incr_i_inv | exact Hs3].
  - apply load_Ub in L1 as [-> L1]; [| lia]. rewrite E1 in *.
    split; [f_equal |]; lia.
Qed.

Lemma rle8_body_safe s :
  rle_inv init s -> in_range compr_size uncompr_size s = true ->
  step_safe init compr_size s
            (rle8_body comprbuf compr_size uncompr_size width s).
Proof.
  intros Hs E. apply in_range_true in E as [Ej Ei].
  pose proof Hs as (H0 & _). unfold rle8_body.
  destruct (load_inside comprbuf (rs_i s)) as [b0 ->]; [lia |]. simpl.
  destruct (nonzero b0).
  - destruct (rle8_run_inv (Z.to_nat b0) _ (incr_i_inv _ Hs))
      as (s2 & -> & Hs2). simpl. by apply incr_i_inv.
  - apply escape_safe; [| done | done]. intros n k s0. apply rle8_abs_inv.
Qed.

Lemma rle4_body_safe s :
  rle_inv init s -> in_range compr_size uncompr_size s = true ->
  step_safe init compr_size s
            (rle4_body comprbuf compr_size uncompr_size width s).
Proof.
  intros Hs E. apply in_range_true in E as [Ej Ei].
  pose proof Hs as (H0 & _). unfold rle4_body.
  destruct (load_inside comprbuf (rs_i s)) as [b0 ->]; [lia |]. simpl.
  destruct (nonzero b0).
  - destruct (rle4_run_inv (Z.to_nat b0) _ (incr_i_inv _ Hs))
      as (s2 & -> & Hs2). simpl. by apply incr_i_inv.
  - apply escape_safe; [| done | done]. intros n k s0. apply rle4_abs_inv.
Qed.

(** The loop ends in a state that satisfies the invariant, or by the
    load one past the end of the compressed block. *)
Lemma rle_loop_safe body fuel s r :
  (forall s, rle_inv init s -> in_range compr_size uncompr_size s = true ->
             step_safe init compr_size s (body s)) ->
  rle_inv init s ->
  rle_loop compr_size uncompr_size body fuel s = Some r ->
  match r with
  | Ok s' => rle_inv init s'
  | Ub f => f = ReadPastEnd compr_size
  end.
Proof.
  intros Hbody. revert s. induction fuel as [| fuel IH]; intros s Hs; simpl.
  - destruct (in_range _ _ s); [discriminate |]. by intros [= <-].
  - destruct (in_range _ _ s) eqn:E; [| by intros [= <-]].
    pose proof (Hbody s Hs E) as Hstep.
    destruct (body s) as [[s' | s'] | f]; simpl in Hstep.
    + by apply IH.
    + by intros [= <-].
    + intros [= <-]. by destruct Hstep.
Qed.

End Safety.

(** ** A block of 2^32 - 1 bytes *)

Section FullBlock.

Variable buf : list Z.
Variable width : Z.
Hypothesis Hlo : forall i, 0 <= i < 2 ^ 32 - 2 -> load buf i = Ok 0.
Hypothesis Hhi : load buf (2 ^ 32 - 2) = Ok 1.

Lemma idle_in_range i :
  0 <= i < 2 ^ 32 - 1 -> in_range (2 ^ 32 - 1) 1 (idle_state i) = true.
Proof.
  intros Hi. unfold in_range, idle_state. cbn [rs_i rs_j].
  apply andb_true_iff. split; apply Z.ltb_lt; lia.
Qed.

(** An end-of-line pair moves the cursor by two. *)
Lemma full_block_eol i :
  0 <= i < 2 ^ 32 - 3 ->
  rle8_body buf (2 ^ 32 - 1) 1 width (idle_state i)
  = Ok (Again (idle_state (i + 2))).
Proof.
  intros Hi. unfold rle8_body, idle_state. cbn [rs_i].
  rewrite Hlo by lia. cbn [bind]. change (nonzero 0) with false. cbv iota.
  unfold escape, incr_i. cbn [rs_i rs_j rs_out rs_stores].
  rewrite (u32_small (i + 1)) by lia.
  rewrite Hlo by lia. cbn [bind]. change (0 =? 0) with true. cbv iota.
  rewrite (u32_small (i + 1 + 1)) by lia.
  by replace (i + 1 + 1) with (i + 2) by lia.
Qed.

(** The run opened by the last byte copies nothing, and the cursor,
    2^32 after the two increments, is 0 again. *)
Lemma full_block_last :
  rle8_body buf (2 ^ 32 - 1) 1 width (idle_state (2 ^ 32 - 2))
  = Ok (Again (idle_state 0)).
Proof.
  unfold rle8_body, idle_state. cbn [rs_i].
  rewrite Hhi. cbn [bind]. change (nonzero 1) with true. cbv iota.
  change (Z.to_nat 1) with 1%nat. cbn [rle8_run].
  unfold in_range, incr_i. cbn [rs_i rs_j rs_out rs_stores].
  change (u32 (2 ^ 32 - 2 + 1)) with (2 ^ 32 - 1).
  change (2 ^ 32 - 1 <? 2 ^ 32 - 1) with false.
  rewrite andb_false_r. cbn [bind rs_i rs_j rs_out rs_stores].
  reflexivity.
Qed.

Lemma full_block_never_ends fuel m :
  0 <= m <= 2 ^ 31 - 1 ->
  rle_loop (2 ^ 32 - 1) 1 (rle8_body buf (2 ^ 32 - 1) 1 width) fuel
           (idle_state (2 * m)) = None.
Proof.
  revert m. induction fuel as [| fuel IH]; intros m Hm; cbn [rle_loop];
    rewrite idle_in_range by lia; [reflexivity |].
  destruct (decide (m = 2 ^ 31 - 1)) as [-> | Hne].
  - change (2 * (2 ^ 31 - 1)) with (2 ^ 32 - 2).
    rewrite full_block_last. apply (IH 0). lia.
  - rewrite full_block_eol by lia.
    replace (2 * m + 2) with (2 * (m + 1)) by lia. apply IH. lia.
Qed.

End FullBlock.

Lemma wrap_stream_length : Z.of_nat (length wrap_stream) = 2 ^ 32 - 1.
Proof.
  unfold wrap_stream. rewrite length_app, length_replicate.
  cbn [length]. lia.
Qed.

Lemma wrap_stream_lo i : 0 <= i < 2 ^ 32 - 2 -> load wrap_stream i = Ok 0.
Proof.
  intros Hi. unfold load, wrap_stream.
  destruct (Z.ltb_spec i 0); [lia |].
  rewrite lookup_app_l by (rewrite length_replicate; lia).
  rewrite lookup_replicate_2 by lia. reflexivity.
Qed.

Lemma wrap_stream_hi : load wrap_stream (2 ^ 32 - 2) = Ok 1.
Proof.
  unfold load, wrap_stream.
  destruct (Z.ltb_spec (2 ^ 32 - 2) 0); [lia |].
  rewrite lookup_app_r by (rewrite length_replicate; lia).
  rewrite length_replicate, Nat.sub_diag. reflexivity.
Qed.

(** ** The decompressor: bounds of the accesses *)

(** C1 on the code: a compressed block that consists of the single
    escape byte 0.  Both loops increment the cursor and load
    [comprbuf[1]], one past the end of the block, whatever the size of
    the output block and whatever it holds. *)
Theorem escape_at_end_loads_past_block (width bits v : Z) (fuel : nat) :
  rle_decompress [0] 1 1 width bits [v] (S fuel)
  = Some (Ub (ReadPastEnd 1)).
Proof. unfold rle_decompress. by destruct (bits =? 8). Qed.

(** Stores, on the other hand, never leave the output block, and no
    other load leaves the compressed block. *)
Lemma rle_decompress_safe comprbuf init compr_size uncompr_size width bits
    fuel r :
  Z.of_nat (length comprbuf) = compr_size ->
  Z.of_nat (length init) = uncompr_size ->
  compr_size < 2 ^ 32 - 1 ->
  rle_decompress comprbuf compr_size uncompr_size width bits init fuel
  = Some r ->
  match r with
  | Ok s => rle_inv init s
  | Ub f => f = ReadPastEnd compr_size
  end.
Proof.
  intros Hcs Hus Hmax. unfold rle_decompress.
  assert (rle_inv init {| rs_i := 0; rs_j := 0;
                          rs_out := init; rs_stores := [] |}) as H0
    by (repeat split; simpl; lia || done).
  destruct (bits =? 8); apply rle_loop_safe with (init := init);
    try exact H0; intros s Hs Hr.
  - by apply rle8_body_safe.
  - by apply rle4_body_safe.
Qed.

(** In a block that the allocator has cleared, the positions that were
    never stored to hold 0. *)
Lemma cleared_block_stays_zero comprbuf init compr_size uncompr_size width
    bits fuel s (p : nat) v :
  Z.of_nat (length comprbuf) = compr_size ->
  Z.of_nat (length init) = uncompr_size ->
  compr_size < 2 ^ 32 - 1 ->
  (forall q w, init !! q = Some w -> w = 0) ->
  rle_decompress comprbuf compr_size uncompr_size width bits init fuel
  = Some (Ok s) ->
  Z.of_nat p ∉ rs_stores s -> rs_out s !! p = Some v -> v = 0.
Proof.
  intros Hcs Hus Hmax Hzero Hr Hp Hv.
  destruct (rle_decompress_safe _ _ _ _ _ _ _ _ Hcs Hus Hmax Hr)
    as (_ & _ & _ & Hu).
  rewrite (Hu p Hp) in Hv. by apply (Hzero p).
Qed.

(** ** The decompressor: termination *)

Lemma rle_decompress_ends comprbuf init compr_size uncompr_size width bits
    fuel :
  Z.of_nat (length comprbuf) = compr_size ->
  compr_size < 2 ^ 32 - 1 ->
  compr_size < Z.of_nat fuel ->
  is_Some (rle_decompress comprbuf compr_size uncompr_size width bits
                          init fuel).
Proof.
  intros Hcs Hmax Hfuel. unfold rle_decompress.
  destruct (bits =? 8); apply (rle_loop_ends comprbuf); simpl; try lia;
    intros s s' Hs Hb.
  - by eapply rle8_body_cursor in Hb as [? _].
  - by eapply rle4_body_cursor in Hb as [? _].
Qed.

(** C10, as the code has it: for a compressed block of fewer than
    2^32 - 1 bytes, every pass through the body of either loop that
    does not break moves the cursor [i] forward, and both loops end:
    any fuel above [compr_size] is enough. *)
Theorem rle_loops_terminate (comprbuf : list Z)
    (compr_size uncompr_size width : Z) :
  Z.of_nat (length comprbuf) = compr_size ->
  compr_size < 2 ^ 32 - 1 ->
  (forall s s',
     0 <= rs_i s -> in_range compr_size uncompr_size s = true ->
     rle8_body comprbuf compr_size uncompr_size width s = Ok (Again s')
     \/ rle4_body comprbuf compr_size uncompr_size width s = Ok (Again s') ->
     rs_i s < rs_i s')
  /\ (forall bits uncomprbuf fuel,
        compr_size < Z.of_nat fuel ->
        is_Some (rle_decompress comprbuf compr_size uncompr_size width bits
                                uncomprbuf fuel)).
Proof.
  intros Hcs Hmax. split.
  - intros s s' H0 Hr Hb. apply in_range_true in Hr as [_ Hi].
    destruct Hb as [Hb | Hb].
    + by eapply rle8_body_cursor in Hb as [? _].
    + by eapply rle4_body_cursor in Hb as [? _].
  - intros bits uncomprbuf fuel Hfuel. by apply rle_decompress_ends.
Qed.

Lemma rle_loops_terminate_witness :
  is_Some (rle_decompress [4; 1; 4; 2; 0; 1] 6 8 4 8 (replicate 8 0) 7).
Proof.
  apply (rle_loops_terminate [4; 1; 4; 2; 0; 1] 6 8 4);
    [reflexivity | reflexivity | reflexivity].
Defined.

(** C10 fails for a block of 2^32 - 1 bytes: after the encoded run that
    its last byte opens the cursor is 2^32, that is 0, and the loop
    starts over; no amount of fuel ends it. *)
Lemma full_block_cursor_wraps :
  Z.of_nat (length wrap_stream) = 2 ^ 32 - 1
  /\ in_range (2 ^ 32 - 1) 1 (idle_state (2 ^ 32 - 2)) = true
  /\ rle8_body wrap_stream (2 ^ 32 - 1) 1 1 (idle_state (2 ^ 32 - 2))
     = Ok (Again (idle_state 0))
  /\ forall fuel,
       rle_decompress wrap_stream (2 ^ 32 - 1) 1 1 8 [0] fuel = None.
Proof.
  split; [exact wrap_stream_length |].
  split; [by apply idle_in_range |].
  split; [apply full_block_last; exact wrap_stream_hi |].
  intros fuel. unfold rle_decompress. change (8 =? 8) with true. cbv iota.
  apply (full_block_never_ends wrap_stream 1 wrap_stream_lo wrap_stream_hi
           fuel 0).
  lia.
Qed.

(** ** The decompressor: positions that are never written *)

(** C2, as the code has it: for a compressed block of fewer than
    2^32 - 1 bytes decoding always ends.  Unless it ends by the load
    one past the end of the block, the output block has kept its
    length, and every position that was never stored to holds what the
    allocator left there. *)
Theorem unwritten_positions_keep_allocated_bytes
    (comprbuf init : list Z) (compr_size uncompr_size width bits : Z)
    (fuel : nat) :
  Z.of_nat (length comprbuf) = compr_size ->
  Z.of_nat (length init) = uncompr_size ->
  compr_size < 2 ^ 32 - 1 ->
  compr_size < Z.of_nat fuel ->
  (exists s,
     rle_decompress comprbuf compr_size uncompr_size width bits init fuel
     = Some (Ok s)
     /\ length (rs_out s) = length init
     /\ forall p : nat,
          Z.of_nat p ∉ rs_stores s -> rs_out s !! p = init !! p)
  \/ rle_decompress comprbuf compr_size uncompr_size width bits init fuel
     = Some (Ub (ReadPastEnd compr_size)).
Proof.
  intros Hcs Hus Hmax Hfuel.
  destruct (rle_decompress_ends comprbuf init compr_size uncompr_size
              width bits fuel Hcs Hmax Hfuel) as [r Hr].
  pose proof (rle_decompress_safe _ _ _ _ _ _ _ _ Hcs Hus Hmax Hr) as Hsafe.
  destruct r as [s | f].
  - left. exists s. destruct Hsafe as (_ & _ & Hl & Hu). by repeat split.
  - right. by rewrite Hr, Hsafe.
Qed.

Lemma unwritten_positions_keep_allocated_bytes_witness :
  (exists s,
     rle_decompress [4; 1; 4; 2] 4 12 4 8 (replicate 12 0) 5 = Some (Ok s)
     /\ length (rs_out s) = length (replicate 12 0)
     /\ forall p : nat,
          Z.of_nat p ∉ rs_stores s -> rs_out s !! p = replicate 12 0 !! p)
  \/ rle_decompress [4; 1; 4; 2] 4 12 4 8 (replicate 12 0) 5
     = Some (Ub (ReadPastEnd 4)).
Proof.
  apply (unwritten_positions_keep_allocated_bytes
           [4; 1; 4; 2] (replicate 12 0) 4 12 4 8 5);
    reflexivity.
Defined.

(** C2 fails where the allocator returns a block that is not zeroed:
    the stream of the spec's own test without its end-of-bitmap marker,
    decoded into a 4 x 3 block filled with 170.  Decoding ends
    normally, position 8 was never stored to, and it holds 170. *)
Lemma unwritten_position_not_zero :
  exists s,
    rle_decompress [4; 1; 4; 2] 4 12 4 8 (replicate 12 170) 5 = Some (Ok s)
    /\ (8 ∉ rs_stores s)
    /\ rs_out s !! 8%nat = Some 170
    /\ rs_out s !! 8%nat <> Some 0.
Proof.
  eexists. split; [vm_compute; reflexivity |]. cbn [rs_stores rs_out].
  split; [| split; [reflexivity | discriminate]].
  intros H. repeat (apply elem_of_cons in H as [H | H]; [discriminate |]).
  by apply elem_of_nil in H.
Qed.

(** ** The decompressor: nibble order and padding in RLE4 *)

(** C3 on the code: the RLE4 encoded run (2, 0x12) in a 2 x 1 image.
    The count left is even when the first pixel is stored, so the low
    nibble comes first: the pixels are 2, 1 and not 1, 2. *)
Theorem rle4_even_run_starts_with_low_nibble :
  result_out (rle_decompress [2; 18; 0; 1] 4 2 2 4 [0; 0] 4)
  = Some [2; 1].
Proof. vm_compute. reflexivity. Qed.

(** An odd count does start with the high nibble. *)
Example rle4_odd_run_starts_with_high_nibble :
  result_out (rle_decompress [3; 18; 0; 1] 4 3 3 4 [0; 0; 0] 4)
  = Some [1; 2; 1].
Proof. vm_compute. reflexivity. Qed.

(** C6 on the code: an RLE4 literal run of 5 pixels (3 bytes of data
    and a pad byte), a run of 3 pixels 6, 7, 6 and the end-of-bitmap
    marker, in an 8 x 1 image.  The literal run leaves the cursor at 5,
    on the pad byte; the pad is then read as an escape,
    the run (3, 0x67) as a literal run, and the last pixel is 0. *)
Theorem rle4_literal_run_is_not_padded :
  let stream := [0; 5; 18; 52; 80; 0; 3; 103; 0; 1] in
  let s0 := {| rs_i := 0; rs_j := 0;
               rs_out := replicate 8 0; rs_stores := [] |} in
  (exists s, rle4_body stream 10 8 8 s0 = Ok (Again s) /\ rs_i s = 5)
  /\ result_out (rle_decompress stream 10 8 8 4 (replicate 8 0) 10)
     = Some [1; 2; 3; 4; 5; 6; 7; 0].
Proof.
  split; [eexists; split |]; vm_compute; reflexivity.
Qed.

(** RLE8 does pad: the same shape of stream, with a literal run of 3
    bytes and its pad byte, decodes as written. *)
Example rle8_literal_run_is_padded :
  result_out (rle_decompress [0; 3; 1; 2; 3; 0; 3; 6; 0; 1] 10 6 6 8
                             (replicate 6 0) 10)
  = Some [1; 2; 3; 6; 6; 6].
Proof. vm_compute. reflexivity. Qed.

(** ** Compression methods the decoder does not handle *)





(** The 1-bit header with the BITFIELDS method: the colour table is
    read, and the only message is the one about the output file, when
    that does not open; with a negative [iClrUsed] the run leaves a
    block before the output file is opened. *)
Example bitfields_open_failure :
  convert never never true (hdr_at_54 mono_data) bitfields_mono_hdr 0 4
          (file_of mono_data) (replicate 8 0) fresh_maps [] [] [] 0
  = Some ([EvSeek 54; EvRead 4 2; EvDiag CannotOpenOutput], Exit (-1)).
Proof. vm_compute. reflexivity. Qed.

Example bitfields_table_fault :
  convert never never false (hdr_at_54 mono_data) bitfields_mono_hdr (-1) 4
          (file_of mono_data) [] fresh_maps [] [] [] 0
  = Some ([EvSeek 54; EvRead 4 (2 ^ 32 - 1); EvUb (WritePastEnd 0)],
          Undefined).
Proof. lazy. reflexivity. Qed.


(** ** Rows of a decompressed image *)

Lemma rle_rows_sink write_fails info_hdr blk n row :
  0 <= row ->
  row + Z.of_nat n = image_length info_hdr ->
  image_width info_hdr * image_length info_hdr < 2 ^ 32 ->
  sink_rows (image_width info_hdr)
            (rle_rows write_fails info_hdr blk n row)
  = (fun r => (r, take (Z.to_nat (image_width info_hdr))
                    (drop (Z.to_nat ((image_length info_hdr - 1 - r)
                                     * image_width info_hdr)) blk)))
    <$> seqZ row (Z.of_nat n).
Proof.
  pose proof (u32_range (iWidth info_hdr)) as Hw.
  fold (image_width info_hdr) in Hw.
  pose proof (u32_range (if 0 <? iHeight info_hdr then iHeight info_hdr
                         else - iHeight info_hdr)) as Hl.
  fold (image_length info_hdr) in Hl.
  revert row. induction n as [| n IH]; intros row H0 Hn Hno; [done |].
  rewrite seqZ_cons by lia. cbn [rle_rows].
  replace (Z.pred (Z.of_nat (S n))) with (Z.of_nat n) by lia.
  unfold sink_rows. rewrite fmap_cons, !omap_app.
  assert (0 <= (image_length info_hdr - row - 1) * image_width info_hdr
          < 2 ^ 32) as Hofs.
  { split; [apply Z.mul_nonneg_nonneg; lia |].
    apply Z.le_lt_trans
      with (image_length info_hdr * image_width info_hdr); [| lia].
    apply Z.mul_le_mono_nonneg_r; lia. }
  rewrite (u32_small (image_length info_hdr - row)) by lia.
  rewrite (u32_small (image_length info_hdr - row - 1)) by lia.
  rewrite (u32_small _ Hofs).
  rewrite (u32_small (row + 1)) by lia.
  replace (omap _ (if write_fails row then _ else _)) with (@nil (Z * list Z))
    by (by destruct (write_fails row)).
  cbn [omap list_omap app]. f_equal.
  - unfold sink_row.
    by replace ((image_length info_hdr - row - 1) * image_width info_hdr)
      with ((image_length info_hdr - 1 - row) * image_width info_hdr) by lia.
  - apply IH; lia.
Qed.

(** C7, as the code has it: when [width * length] fits in 32 bits and
    the decompression has ended normally, the sink is handed the rows
    0 .. length - 1 in this order, and row [r] is the [width] samples of
    the decompressed block from offset [(length - 1 - r) * width] on,
    whatever the sign of the height. *)
Theorem rle_rows_are_emitted_bottom_up
    (fseek_fails write_fails : Z -> bool)
    (file_hdr : BMPFileHeader) (info_hdr : BMPInfoHeader) (f : stream)
    (scanbuf comprbuf uncomprbuf : list Z) (fuel : nat) (s : rle_state) :
  iCompression info_hdr = BMPC_RLE8 \/ iCompression info_hdr = BMPC_RLE4 ->
  image_width info_hdr * image_length info_hdr < 2 ^ 32 ->
  decompress_image fseek_fails file_hdr info_hdr f comprbuf uncomprbuf fuel
  = Some (Ok s) ->
  exists evs,
    read_image fseek_fails write_fails file_hdr info_hdr f
               scanbuf comprbuf uncomprbuf fuel = Some evs
    /\ sink_rows (image_width info_hdr) evs
       = (fun r => (r, take (Z.to_nat (image_width info_hdr))
                         (drop (Z.to_nat ((image_length info_hdr - 1 - r)
                                          * image_width info_hdr))
                               (rs_out s))))
         <$> seqZ 0 (image_length info_hdr).
Proof.
  intros Hc Hno Hd. unfold read_image. rewrite Hd.
  assert ((iCompression info_hdr =? BMPC_RGB) = false) as ->
    by (destruct Hc as [-> | ->]; reflexivity).
  assert (((iCompression info_hdr =? BMPC_RLE8)
           || (iCompression info_hdr =? BMPC_RLE4)) = true) as ->
    by (destruct Hc as [-> | ->]; reflexivity).
  eexists. split; [reflexivity |].
  pose proof (u32_range (if 0 <? iHeight info_hdr then iHeight info_hdr
                         else - iHeight info_hdr)) as Hl.
  fold (image_length info_hdr) in Hl.
  unfold sink_rows. rewrite omap_app. cbn [omap list_omap app].
  fold (sink_rows (image_width info_hdr)
          (rle_rows write_fails info_hdr (rs_out s)
                    (Z.to_nat (image_length info_hdr)) 0)).
  rewrite rle_rows_sink by lia.
  by rewrite Z2Nat.id by lia.
Qed.

Lemma rle_rows_are_emitted_bottom_up_witness :
  exists evs,
    read_image never never (hdr_at_54 rle8_4x2_data) rle8_4x2_hdr
               (file_of rle8_4x2_data) [] (replicate 6 0) (replicate 8 0) 7
    = Some evs
    /\ sink_rows (image_width rle8_4x2_hdr) evs
       = [(0, [2; 2; 2; 2]); (1, [1; 1; 1; 1])].
Proof.
  destruct (rle_rows_are_emitted_bottom_up
              never never (hdr_at_54 rle8_4x2_data) rle8_4x2_hdr
              (file_of rle8_4x2_data) [] (replicate 6 0) (replicate 8 0) 7
              {| rs_i := 4; rs_j := 8; rs_out := [1; 1; 1; 1; 2; 2; 2; 2];
                 rs_stores := [7; 6; 5; 4; 3; 2; 1; 0] |})
    as (evs & Hevs & Hrows).
  - left. reflexivity.
  - reflexivity.
  - vm_compute. reflexivity.
  - exists evs. split; [exact Hevs |]. rewrite Hrows. reflexivity.
Defined.

(** C7 fails once [width * length] wraps: in a 65536 x 65537 image the
    block has 65536 bytes, and display row 0 is handed to the sink at
    offset 0 of it, not at offset 65536 * 65536. *)
Lemma rle_row_offset_wraps :
  image_width rle8_wide_hdr = 65536
  /\ image_length rle8_wide_hdr = 65537
  /\ head (scanlines
             (default []
                (read_image never never (hdr_at_54 rle8_wide_data)
                   rle8_wide_hdr (file_of rle8_wide_data) []
                   (replicate 2 0) (replicate (Z.to_nat 65536) 0) 1)))
     = Some (0, 0)
  /\ 0 <> (65537 - 1 - 0) * 65536.
Proof.
  split; [reflexivity |]. split; [reflexivity |].
  split; [vm_compute; reflexivity | discriminate].
Qed.

(** ** Rows of an uncompressed image *)

Lemma store_inside (buf : list Z) j v :
  0 <= j < Z.of_nat (length buf) ->
  store buf j v = Ok (<[Z.to_nat j := v]> buf).
Proof.
  intros Hj. unfold store.
  destruct (Z.ltb_spec j 0); [lia |].
  destruct (Z.leb_spec (Z.of_nat (length buf)) j); [lia |]. reflexivity.
Qed.

Lemma rearrange24_ok n p (blk : list Z) :
  0 <= p -> p + 3 * Z.of_nat n <= Z.of_nat (length blk) ->
  exists blk', rearrange24 n p blk = Ok blk' /\ length blk' = length blk.
Proof.
  revert p blk. induction n as [| n IH]; intros p blk Hp Hn;
    cbn [rearrange24]; [by exists blk |].
  destruct (load_inside blk p) as [tmp ->]; [lia |]. cbn [bind].
  destruct (load_inside blk (p + 2)) as [b2 ->]; [lia |]. cbn [bind].
  rewrite store_inside by lia. cbn [bind].
  rewrite store_inside by (rewrite length_insert; lia). cbn [bind].
  destruct (IH (p + 3) (<[Z.to_nat (p + 2) := tmp]>
                          (<[Z.to_nat p := b2]> blk)))
    as (blk' & -> & Hl); [lia | rewrite !length_insert; lia |].
  exists blk'. by rewrite Hl, !length_insert.
Qed.

Lemma rearrange32_ok n p p1 (blk : list Z) :
  0 <= p1 <= p -> p + 4 * Z.of_nat n <= Z.of_nat (length blk) ->
  exists blk', rearrange32 n p p1 blk = Ok blk' /\ length blk' = length blk.
Proof.
  revert p p1 blk. induction n as [| n IH]; intros p p1 blk Hp Hn;
    cbn [rearrange32]; [by exists blk |].
  destruct (load_inside blk p) as [tmp ->]; [lia |]. cbn [bind].
  destruct (load_inside blk (p + 2)) as [b2 ->]; [lia |]. cbn [bind].
  rewrite store_inside by lia. cbn [bind].
  destruct (load_inside (<[Z.to_nat p1 := b2]> blk) (p + 1)) as [b1 ->];
    [rewrite length_insert; lia |]. cbn [bind].
  rewrite store_inside by (rewrite length_insert; lia). cbn [bind].
  rewrite store_inside by (rewrite !length_insert; lia). cbn [bind].
  match goal with |- context [rearrange32 n _ _ ?b] =>
    destruct (IH (p + 4) (p1 + 3) b) as (blk' & -> & Hl);
      [lia | rewrite !length_insert; lia |]
  end.
  exists blk'. by rewrite Hl, !length_insert.
Qed.

Lemma row_size_holds_row width bit_count :
  0 <= width -> 0 <= bit_count ->
  width * bit_count + 31 < 2 ^ 32 ->
  width * bit_count <= 8 * row_size width bit_count.
Proof.
  intros Hw Hb Hno.
  rewrite row_size_no_overflow by nia.
  unfold spec_row_stride. rewrite ceil_div_32.
  pose proof (Z.div_mod (width * bit_count + 31) 32 ltac:(lia)).
  pose proof (Z.mod_pos_bound (width * bit_count + 31) 32 ltac:(lia)).
  lia.
Qed.

Lemma rearrangePixels_ok (blk : list Z) width bit_count :
  0 <= width -> 0 <= bit_count ->
  width * bit_count + 31 < 2 ^ 32 ->
  Z.of_nat (length blk) = row_size width bit_count ->
  exists blk', rearrangePixels blk width bit_count = Ok blk'
               /\ length blk' = length blk.
Proof.
  intros Hw Hb Hno Hl.
  pose proof (row_size_holds_row width bit_count Hw Hb Hno) as Hrow.
  unfold rearrangePixels.
  destruct (Z.eqb_spec bit_count 16); [by exists blk |].
  destruct (Z.eqb_spec bit_count 24) as [-> |].
  { apply rearrange24_ok; lia. }
  destruct (Z.eqb_spec bit_count 32) as [-> |]; [| by exists blk].
  apply rearrange32_ok; lia.
Qed.

Lemma fread_length f (blk : list Z) size nmemb :
  Z.of_nat (length blk) = size * nmemb ->
  length (fread f blk size nmemb).1.1 = length blk.
Proof.
  intros Hl. unfold fread. cbn [fst].
  rewrite length_app, length_drop, length_take. lia.
Qed.

Section RgbRows.

Variables fseek_fails write_fails : Z -> bool.
Variable file_hdr : BMPFileHeader.
Variable info_hdr : BMPInfoHeader.

Local Abbreviation width := (image_width info_hdr).
Local Abbreviation rows := (image_length info_hdr).
Local Abbreviation size := (row_size width (iBitCount info_hdr)).

Hypothesis Hbits : 0 <= iBitCount info_hdr.
Hypothesis Hstride : width * iBitCount info_hdr + 31 < 2 ^ 32.
Hypothesis Hoff : 0 <= iOffBits file_hdr.
Hypothesis Hend : iOffBits file_hdr + rows * size < 2 ^ 32.

Lemma rgb_rows_calls n row f (scanbuf : list Z) :
  0 <= row -> row + Z.of_nat n = rows ->
  Z.of_nat (length scanbuf) = size ->
  calls (rgb_rows fseek_fails write_fails file_hdr info_hdr size n row
                  f scanbuf)
  = seqZ row (Z.of_nat n) ≫=
      (fun r => [Fseek (iOffBits file_hdr + file_row info_hdr r * size);
                 Fread size 1; WriteScanline r]).
Proof.
  pose proof (u32_range (iWidth info_hdr)) as Hw.
  fold width in Hw.
  pose proof (u32_range (if 0 <? iHeight info_hdr then iHeight info_hdr
                         else - iHeight info_hdr)) as Hr.
  fold rows in Hr.
  assert (0 <= size) as Hsize.
  { pose proof (row_size_holds_row width (iBitCount info_hdr)
                  ltac:(lia) Hbits Hstride). nia. }
  revert row f scanbuf.
  induction n as [| n IH]; intros row f scanbuf H0 Hn Hl; [done |].
  rewrite seqZ_cons by lia. cbn [rgb_rows].
  replace (Z.pred (Z.of_nat (S n))) with (Z.of_nat n) by lia.
  set (offset := if 0 <? iHeight info_hdr then _ else _).
  assert (offset = iOffBits file_hdr + file_row info_hdr row * size)
    as Hoffset.
  { unfold offset, file_row. destruct (0 <? iHeight info_hdr).
    - rewrite (u32_small (rows - row)) by lia.
      rewrite (u32_small (rows - row - 1)) by lia.
      assert (0 <= (rows - row - 1) * size <= rows * size) by nia.
      rewrite (u32_small ((rows - row - 1) * size)) by lia.
      rewrite u32_small by lia. f_equal. f_equal. lia.
    - assert (0 <= row * size <= rows * size) by nia.
      rewrite (u32_small (row * size)) by lia.
      by rewrite u32_small by lia. }
  set (f1 := if fseek_fails offset then f else seek f offset).
  pose proof (fread_length f1 scanbuf size 1 ltac:(lia)) as Hfl.
  destruct (fread f1 scanbuf size 1) as [[blk items] f'] eqn:Hfread.
  cbn [fst] in Hfl.
  destruct (rearrangePixels_ok blk width (iBitCount info_hdr))
    as (blk' & -> & Hl'); [lia | lia | lia | lia |].
  unfold calls. rewrite !omap_app. cbn [omap list_omap app].
  replace (omap _ (if fseek_fails offset then _ else _)) with (@nil call)
    by (by destruct (fseek_fails offset)).
  replace (omap _ (if items =? 1 then _ else _)) with (@nil call)
    by (by destruct (items =? 1)).
  replace (omap _ (if write_fails row then _ else _)) with (@nil call)
    by (by destruct (write_fails row)).
  cbn [app]. rewrite bind_cons. cbn [app]. rewrite Hoffset.
  do 3 f_equal.
  rewrite (u32_small (row + 1)) by lia.
  apply IH; lia.
Qed.

End RgbRows.

(** C8, as the code has it: when neither the row size nor the offsets
    of the rows wrap around in 32 bits, the decoder, for the display
    rows 0 .. length - 1 in this order, seeks to
    [iOffBits + (length - 1 - r) * rowStride] if the height is positive
    and to [iOffBits + r * rowStride] otherwise, asks for one item of
    [rowStride] bytes and hands the row to the sink as row [r]. *)
Theorem rgb_rows_are_read_in_display_order
    (fseek_fails write_fails : Z -> bool)
    (file_hdr : BMPFileHeader) (info_hdr : BMPInfoHeader) (f : stream)
    (scanbuf comprbuf uncomprbuf : list Z) (fuel : nat) :
  let rowStride :=
    spec_row_stride (image_width info_hdr) (iBitCount info_hdr) in
  iCompression info_hdr = BMPC_RGB ->
  iBitCount info_hdr ∈ [1; 4; 8; 16; 24; 32] ->
  image_width info_hdr * iBitCount info_hdr + 31 < 2 ^ 32 ->
  0 <= iOffBits file_hdr ->
  iOffBits file_hdr + image_length info_hdr * rowStride < 2 ^ 32 ->
  Z.of_nat (length scanbuf)
  = row_size (image_width info_hdr) (iBitCount info_hdr) ->
  exists evs,
    read_image fseek_fails write_fails file_hdr info_hdr f
               scanbuf comprbuf uncomprbuf fuel = Some evs
    /\ calls evs
       = seqZ 0 (image_length info_hdr) ≫=
           (fun r =>
              [Fseek (iOffBits file_hdr + file_row info_hdr r * rowStride);
               Fread rowStride 1; WriteScanline r]).
Proof.
  intros rowStride Hc Hb Hstride Hoff Hend Hl. unfold read_image.
  rewrite Hc. change (BMPC_RGB =? BMPC_RGB) with true. cbv iota.
  eexists. split; [reflexivity |].
  pose proof (u32_range (iWidth info_hdr)) as Hw.
  fold (image_width info_hdr) in Hw.
  pose proof (u32_range (if 0 <? iHeight info_hdr then iHeight info_hdr
                         else - iHeight info_hdr)) as Hr.
  fold (image_length info_hdr) in Hr.
  assert (0 <= iBitCount info_hdr) as Hbits.
  { repeat (apply elem_of_cons in Hb as [-> | Hb]; [lia |]).
    by apply elem_of_nil in Hb. }
  assert (row_size (image_width info_hdr) (iBitCount info_hdr) = rowStride)
    as Hsize by (apply row_size_no_overflow; [nia | lia]).
  rewrite rgb_rows_calls; try done; try lia.
  by rewrite Z2Nat.id, Hsize by lia.
Qed.

Lemma rgb_rows_are_read_in_display_order_witness :
  exists evs,
    read_image never never (hdr_at_54 rgb24_data) (rgb24_hdr 2)
               (file_of rgb24_data) (replicate 8 0) [] [] 0 = Some evs
    /\ calls evs
       = [Fseek 62; Fread 8 1; WriteScanline 0;
          Fseek 54; Fread 8 1; WriteScanline 1].
Proof.
  apply (rgb_rows_are_read_in_display_order
           never never (hdr_at_54 rgb24_data) (rgb24_hdr 2)
           (file_of rgb24_data) (replicate 8 0) [] [] 0).
  - reflexivity.
  - repeat constructor.
  - reflexivity.
  - discriminate.
  - reflexivity.
  - reflexivity.
Defined.

(** The same rows stored bottom-up and top-down reach the sink alike. *)
Example rgb24_bottom_up :
  read_image never never (hdr_at_54 rgb24_data) (rgb24_hdr 2)
             (file_of rgb24_data) (replicate 8 0) [] [] 0
  = Some [EvSeek 62; EvRead 8 1;
          EvScanline 0 [13; 12; 11; 16; 15; 14; 0; 0] 0;
          EvSeek 54; EvRead 8 1;
          EvScanline 1 [3; 2; 1; 6; 5; 4; 0; 0] 0].
Proof. vm_compute. reflexivity. Qed.

Example rgb24_top_down :
  read_image never never (hdr_at_54 rgb24_data) (rgb24_hdr (-2))
             (file_of rgb24_data) (replicate 8 0) [] [] 0
  = Some [EvSeek 54; EvRead 8 1;
          EvScanline 0 [3; 2; 1; 6; 5; 4; 0; 0] 0;
          EvSeek 62; EvRead 8 1;
          EvScanline 1 [13; 12; 11; 16; 15; 14; 0; 0] 0].
Proof. vm_compute. reflexivity. Qed.

(** C8 fails once the offset of a row wraps: in a 32-bit image one
    pixel wide and 2^30 + 1 rows high, stored bottom-up, display row 0
    is file row 2^30, at offset 54 + 2^32; the decoder seeks to 54. *)
Lemma rgb_row_offset_wraps :
  file_row rgb32_tall_hdr 0 = 2 ^ 30
  /\ spec_row_stride (image_width rgb32_tall_hdr)
                     (iBitCount rgb32_tall_hdr) = 4
  /\ head (calls
             (default []
                (read_image never never (hdr_at_54 []) rgb32_tall_hdr
                   (file_of []) [0; 0; 0; 0] [] [] 0)))
     = Some (Fseek 54)
  /\ 54 <> 54 + 2 ^ 30 * 4.
Proof.
  split; [reflexivity |]. split; [reflexivity |].
  split; [lazy; reflexivity | discriminate].
Qed.

(** ** Runs of the decompressor, pass by pass *)

Lemma list_inserts_take_drop {A} (l k : list A) (j : nat) :
  (j + length k <= length l)%nat ->
  list_inserts j k l = take j l ++ k ++ drop (j + length k) l.
Proof.
  intros H.
  rewrite <- (take_drop j l) at 1.
  rewrite <- (take_drop (length k) (drop j l)) at 1.
  rewrite drop_drop.
  replace j with (length (take j l) + 0)%nat at 1
    by (rewrite length_take; lia).
  rewrite list_inserts_app_r.
  rewrite list_inserts_0_r; [done |].
  rewrite length_take, length_drop. lia.
Qed.

Lemma put_Ok s v :
  0 <= rs_j s < Z.of_nat (length (rs_out s)) ->
  put s v = Ok {| rs_i := rs_i s; rs_j := u32 (rs_j s + 1);
                  rs_out := <[Z.to_nat (rs_j s) := v]> (rs_out s);
                  rs_stores := rs_j s :: rs_stores s |}.
Proof. intros H. unfold put. rewrite store_inside by lia. reflexivity. Qed.

Lemma nonzero_land_1 z : nonzero (Z.land z 1) = Z.odd z.
Proof.
  change 1 with (Z.ones 1) at 1. rewrite Z.land_ones by lia.
  change (2 ^ 1) with 2. rewrite Zmod_odd. by destruct (Z.odd z).
Qed.

Lemma run4_pixels_S n b :
  0 <= n ->
  run4_pixels (n + 1) b
  = (if Z.odd (n + 1) then hi_nibble b else lo_nibble b) :: run4_pixels n b.
Proof.
  intros Hn. unfold run4_pixels. rewrite seqZ_cons by lia.
  rewrite fmap_cons. rewrite Z.sub_0_r. f_equal.
  replace (Z.pred (n + 1)) with n by lia.
  change (Z.succ 0) with (1 + 0).
  rewrite <- fmap_add_seqZ, <- list_fmap_compose.
  apply list_fmap_ext. intros i t _. cbn.
  by replace (n + 1 - (1 + t)) with (n - t) by lia.
Qed.

Lemma incr_i_eq s :
  incr_i s = {| rs_i := u32 (rs_i s + 1); rs_j := rs_j s;
                rs_out := rs_out s; rs_stores := rs_stores s |}.
Proof. reflexivity. Qed.

Lemma odd_succ_negb k : Z.odd (k + 1) = negb (Z.odd k).
Proof. by rewrite Z.add_1_r, Z.odd_succ, <- Z.negb_odd. Qed.

Lemma nonzero_pos z : 0 < z -> nonzero z = true.
Proof. intros H. unfold nonzero. by destruct (Z.eqb_spec z 0); [lia |]. Qed.

Lemma load_lookup (buf : list Z) i b :
  0 <= i -> buf !! Z.to_nat i = Some b -> load buf i = Ok b.
Proof.
  intros Hi Hb. unfold load. destruct (Z.ltb_spec i 0); [lia |].
  by rewrite Hb.
Qed.

Lemma length_nibbles l : length (nibbles l) = (2 * length l)%nat.
Proof.
  unfold nibbles. induction l as [| b l IH]; [done |].
  rewrite bind_cons, length_app, IH. cbn [length]. lia.
Qed.

Section Runs.
Variable comprbuf : list Z.
Variables compr_size uncompr_size width : Z.
Hypothesis Hcs : Z.of_nat (length comprbuf) = compr_size.
Hypothesis Hmax : compr_size < 2 ^ 32 - 1.
Hypothesis Hus : uncompr_size < 2 ^ 32.

Lemma rle8_run_fills n s v :
  load comprbuf (rs_i s) = Ok v ->
  rs_i s < compr_size ->
  0 <= rs_j s ->
  Z.of_nat (length (rs_out s)) = uncompr_size ->
  exists s',
    rle8_run comprbuf compr_size uncompr_size n s = Ok s'
    /\ rs_i s' = rs_i s
    /\ rs_j s' = rs_j s + Z.min (Z.of_nat n) (Z.max 0 (uncompr_size - rs_j s))
    /\ rs_out s'
       = list_inserts (Z.to_nat (rs_j s))
           (replicate (Z.to_nat (Z.min (Z.of_nat n)
                                   (Z.max 0 (uncompr_size - rs_j s)))) v)
           (rs_out s).
Proof.
  revert s. induction n as [| n IH]; intros s Hv Hi Hj Hl.
  - exists s. cbn [rle8_run]. repeat split; try done; [lia |].
    replace (Z.min _ _) with 0 by lia. done.
  - cbn [rle8_run]. unfold in_range.
    destruct (Z.ltb_spec (rs_j s) uncompr_size) as [Hlt | Hge]; cbn [andb].
    + destruct (Z.ltb_spec (rs_i s) compr_size); [| lia].
      rewrite Hv. cbn [bind].
      rewrite put_Ok by lia. cbn [bind].
      edestruct (IH {| rs_i := rs_i s; rs_j := u32 (rs_j s + 1);
                  rs_out := <[Z.to_nat (rs_j s) := v]> (rs_out s);
                  rs_stores := rs_j s :: rs_stores s |})
        as (s' & -> & Hi' & Hj' & Ho');
        cbn [rs_i rs_j rs_out]; try done.
      { apply u32_range. }
      { by rewrite length_insert. }
      cbn [rs_i rs_j rs_out] in *.
      rewrite (u32_small (rs_j s + 1)) in * by lia.
      exists s'. split; [done |]. split; [done |]. split; [lia |].
      rewrite Ho'.
      replace (Z.to_nat (Z.min (Z.of_nat (S n))
                              (Z.max 0 (uncompr_size - rs_j s))))
        with (S (Z.to_nat (Z.min (Z.of_nat n)
                       (Z.max 0 (uncompr_size - (rs_j s + 1)))))) by lia.
      cbn [replicate list_inserts].
      replace (Z.to_nat (rs_j s + 1)) with (S (Z.to_nat (rs_j s))) by lia.
      rewrite list_insert_inserts_lt by lia. done.
    + exists s. repeat split; try done; [lia |].
      replace (Z.min _ _) with 0 by lia. done.
Qed.

Lemma rle4_run_fills n s v :
  load comprbuf (rs_i s) = Ok v ->
  rs_i s < compr_size ->
  0 <= rs_j s ->
  Z.of_nat (length (rs_out s)) = uncompr_size ->
  exists s',
    rle4_run comprbuf compr_size uncompr_size n s = Ok s'
    /\ rs_i s' = rs_i s
    /\ rs_j s' = rs_j s + Z.min (Z.of_nat n) (Z.max 0 (uncompr_size - rs_j s))
    /\ rs_out s'
       = list_inserts (Z.to_nat (rs_j s))
           (take (Z.to_nat (Z.min (Z.of_nat n)
                              (Z.max 0 (uncompr_size - rs_j s))))
                 (run4_pixels (Z.of_nat n) v))
           (rs_out s).
Proof.
  revert s. induction n as [| n IH]; intros s Hv Hi Hj Hl.
  - exists s. cbn [rle4_run]. repeat split; try done; [lia |].
    replace (Z.min _ _) with 0 by lia. done.
  - cbn [rle4_run]. unfold in_range.
    destruct (Z.ltb_spec (rs_j s) uncompr_size) as [Hlt | Hge]; cbn [andb].
    + destruct (Z.ltb_spec (rs_i s) compr_size); [| lia].
      rewrite Hv. cbn [bind].
      rewrite put_Ok by lia. cbn [bind].
      match goal with |- context [rle4_run _ _ _ n ?s1] =>
        destruct (IH s1) as (s' & -> & Hi' & Hj' & Ho') end;
        cbn [rs_i rs_j rs_out]; try done.
      { apply u32_range. }
      { by rewrite length_insert. }
      cbn [rs_i rs_j rs_out] in *.
      rewrite (u32_small (rs_j s + 1)) in * by lia.
      exists s'. split; [done |]. split; [done |]. split; [lia |].
      rewrite Ho'.
      replace (Z.to_nat (Z.min (Z.of_nat (S n))
                              (Z.max 0 (uncompr_size - rs_j s))))
        with (S (Z.to_nat (Z.min (Z.of_nat n)
                       (Z.max 0 (uncompr_size - (rs_j s + 1)))))) by lia.
      replace (Z.of_nat (S n)) with (Z.of_nat n + 1) by lia.
      rewrite run4_pixels_S by lia. rewrite nonzero_land_1.
      cbn [take list_inserts].
      replace (Z.to_nat (rs_j s + 1)) with (S (Z.to_nat (rs_j s))) by lia.
      rewrite list_insert_inserts_lt by lia. done.
    + exists s. repeat split; try done; [lia |].
      replace (Z.min _ _) with 0 by lia. done.
Qed.

Lemma rle8_abs_copies n k s :
  0 <= rs_i s -> 0 <= rs_j s ->
  Z.of_nat (length (rs_out s)) = uncompr_size ->
  let m := Z.min (Z.of_nat n)
             (Z.max 0 (Z.min (uncompr_size - rs_j s)
                             (compr_size - rs_i s))) in
  exists s',
    rle8_abs comprbuf compr_size uncompr_size n k s = Ok (k + m, s')
    /\ rs_i s' = rs_i s + m
    /\ rs_j s' = rs_j s + m
    /\ rs_out s'
       = list_inserts (Z.to_nat (rs_j s))
           (take (Z.to_nat m) (drop (Z.to_nat (rs_i s)) comprbuf))
           (rs_out s).
Proof.
  revert k s. induction n as [| n IH]; intros k s Hi Hj Hl m.
  - exists s. cbn [rle8_abs]. subst m.
    replace (Z.min _ _) with 0 by lia.
    rewrite !Z.add_0_r. done.
  - cbn [rle8_abs]. unfold in_range.
    destruct (Z.ltb_spec (rs_j s) uncompr_size) as [Hlt | Hge]; cbn [andb].
    2:{ exists s. subst m. replace (Z.min _ _) with 0 by lia.
        rewrite !Z.add_0_r. done. }
    destruct (Z.ltb_spec (rs_i s) compr_size) as [Hlti | Hgei].
    2:{ exists s. subst m. replace (Z.min _ _) with 0 by lia.
        rewrite !Z.add_0_r. done. }
    destruct (load_inside comprbuf (rs_i s)) as [b Hb]; [lia |].
    rewrite Hb. cbn [bind]. apply load_Ok in Hb as [_ Hb].
    rewrite put_Ok by lia. cbn [bind]. rewrite incr_i_eq.
    cbn [rs_i rs_j rs_out rs_stores].
    rewrite (u32_small (rs_j s + 1)), (u32_small (rs_i s + 1)) by lia.
    match goal with |- context [rle8_abs _ _ _ n _ ?s1] =>
      destruct (IH (k + 1) s1) as (s' & -> & Hi' & Hj' & Ho') end;
      cbn [rs_i rs_j rs_out]; try lia.
    { by rewrite length_insert. }
    cbn [rs_i rs_j rs_out] in *.
    set (m1 := Z.min (Z.of_nat n)
                 (Z.max 0 (Z.min (uncompr_size - (rs_j s + 1))
                                 (compr_size - (rs_i s + 1))))) in *.
    assert (m = m1 + 1) as -> by (subst m m1; lia).
    exists s'. split; [f_equal; f_equal; lia |].
    split; [lia |]. split; [lia |].
    rewrite Ho'.
    replace (Z.to_nat (m1 + 1)) with (S (Z.to_nat m1)) by lia.
    rewrite (drop_S _ _ _ Hb). cbn [take list_inserts].
    replace (Z.to_nat (rs_j s + 1)) with (S (Z.to_nat (rs_j s))) by lia.
    replace (Z.to_nat (rs_i s + 1)) with (S (Z.to_nat (rs_i s))) by lia.
    rewrite list_insert_inserts_lt by lia. done.
Qed.

(** An RLE4 literal run that fits in both blocks stores the nibbles
    that are pending and leaves the cursor on the byte that holds the
    next one. *)
Lemma rle4_abs_copies n k s :
  0 <= rs_i s -> 0 <= rs_j s ->
  Z.of_nat (length (rs_out s)) = uncompr_size ->
  rs_j s + Z.of_nat n <= uncompr_size ->
  (n <= length (pending_nibbles k (drop (Z.to_nat (rs_i s)) comprbuf)))%nat ->
  exists s',
    rle4_abs comprbuf compr_size uncompr_size n k s
    = Ok (k + Z.of_nat n, s')
    /\ rs_i s' = rs_i s + (k mod 2 + Z.of_nat n) / 2
    /\ rs_j s' = rs_j s + Z.of_nat n
    /\ rs_out s'
       = list_inserts (Z.to_nat (rs_j s))
           (take n (pending_nibbles k (drop (Z.to_nat (rs_i s)) comprbuf)))
           (rs_out s).
Proof.
  revert k s. induction n as [| n IH]; intros k s Hi Hj Hl Hroom Hn.
  - exists s. cbn [rle4_abs]. rewrite !Z.add_0_r.
    pose proof (Z.mod_pos_bound k 2 ltac:(lia)).
    rewrite Z.div_small by lia. rewrite Z.add_0_r. done.
  - cbn [rle4_abs]. unfold in_range.
    destruct (Z.ltb_spec (rs_j s) uncompr_size) as [Hlt | Hge]; [| lia].
    cbn [andb].
    assert (rs_i s < compr_size) as Hlti.
    { destruct (Z.lt_ge_cases (rs_i s) compr_size) as [| Hge]; [done |].
      rewrite drop_ge in Hn by lia.
      unfold pending_nibbles, nibbles in Hn.
      destruct (Z.odd k); cbn in Hn; lia. }
    destruct (Z.ltb_spec (rs_i s) compr_size); [| lia].
    destruct (load_inside comprbuf (rs_i s)) as [b Hb]; [lia |].
    rewrite Hb. cbn [bind]. apply load_Ok in Hb as [_ Hb].
    rewrite nonzero_land_1.
    assert (pending_nibbles k (drop (Z.to_nat (rs_i s)) comprbuf)
            = (if Z.odd k then lo_nibble b else hi_nibble b)
              :: pending_nibbles (k + 1)
                   (drop (Z.to_nat (if Z.odd k then rs_i s + 1 else rs_i s))
                         comprbuf)) as Hpend.
    { unfold pending_nibbles. rewrite odd_succ_negb.
      destruct (Z.odd k); cbn [negb].
      - rewrite (drop_S _ _ _ Hb). unfold nibbles. rewrite bind_cons.
        cbn [app drop]. by replace (Z.to_nat (rs_i s + 1))
          with (S (Z.to_nat (rs_i s))) by lia.
      - rewrite (drop_S _ _ _ Hb). unfold nibbles. by rewrite bind_cons. }
    rewrite Hpend in Hn |- *. cbn [length take] in Hn |- *.
    destruct (Z.odd k) eqn:Hodd.
    + rewrite put_Ok by lia. cbn [bind]. rewrite incr_i_eq.
      cbn [rs_i rs_j rs_out rs_stores].
      rewrite (u32_small (rs_j s + 1)), (u32_small (rs_i s + 1)) by lia.
      match goal with |- context [rle4_abs _ _ _ n _ ?s1] =>
        destruct (IH (k + 1) s1) as (s' & -> & Hi' & Hj' & Ho') end;
        cbn [rs_i rs_j rs_out]; try lia.
      { by rewrite length_insert. }
      cbn [rs_i rs_j rs_out] in *.
      exists s'. split; [f_equal; f_equal; lia |].
      split.
      { rewrite Hi', (Zmod_odd k), (Zmod_odd (k + 1)), odd_succ_negb, Hodd.
        cbn [negb].
        replace (1 + Z.of_nat (S n)) with (Z.of_nat n + 1 * 2) by lia.
        rewrite Z.div_add, Z.add_0_l by lia. lia. }
      split; [lia |].
      rewrite Ho'. cbn [list_inserts].
      replace (Z.to_nat (rs_j s + 1)) with (S (Z.to_nat (rs_j s))) by lia.
      rewrite list_insert_inserts_lt by lia. done.
    + rewrite put_Ok by lia. cbn [bind].
      cbn [rs_i rs_j rs_out rs_stores].
      rewrite (u32_small (rs_j s + 1)) by lia.
      match goal with |- context [rle4_abs _ _ _ n _ ?s1] =>
        destruct (IH (k + 1) s1) as (s' & -> & Hi' & Hj' & Ho') end;
        cbn [rs_i rs_j rs_out]; try lia.
      { by rewrite length_insert. }
      cbn [rs_i rs_j rs_out] in *.
      exists s'. split; [f_equal; f_equal; lia |].
      split.
      { rewrite Hi', (Zmod_odd k), (Zmod_odd (k + 1)), odd_succ_negb, Hodd.
        cbn [negb]. f_equal. f_equal. lia. }
      split; [lia |].
      rewrite Ho'. cbn [list_inserts].
      replace (Z.to_nat (rs_j s + 1)) with (S (Z.to_nat (rs_j s))) by lia.
      rewrite list_insert_inserts_lt by lia. done.
Qed.

Lemma rle8_body_run s b0 v :
  Z.of_nat (length (rs_out s)) = uncompr_size ->
  0 <= rs_i s -> 0 <= rs_j s ->
  in_range compr_size uncompr_size s = true ->
  comprbuf !! Z.to_nat (rs_i s) = Some b0 -> 0 < b0 ->
  comprbuf !! Z.to_nat (rs_i s + 1) = Some v ->
  let m := Z.min b0 (uncompr_size - rs_j s) in
  exists s',
    rle8_body comprbuf compr_size uncompr_size width s = Ok (Again s')
    /\ rs_i s' = rs_i s + 2
    /\ rs_j s' = rs_j s + m
    /\ rs_out s'
       = list_inserts (Z.to_nat (rs_j s)) (replicate (Z.to_nat m) v)
                      (rs_out s).
Proof.
  intros Hl Hi Hj Hr Hb0 Hpos Hv m.
  apply in_range_true in Hr as [Hjlt Hilt].
  assert (rs_i s + 1 < compr_size) as Hi1
    by (apply lookup_lt_Some in Hv; lia).
  unfold rle8_body. rewrite (load_lookup _ _ _ Hi Hb0). cbn [bind].
  rewrite nonzero_pos by done. rewrite incr_i_eq.
  rewrite (u32_small (rs_i s + 1)) by lia.
  match goal with |- context [rle8_run _ _ _ ?n ?s1] =>
    destruct (rle8_run_fills n s1 v) as (s2 & -> & Hi2 & Hj2 & Ho2) end;
    cbn [rs_i rs_j rs_out]; try done.
  { apply load_lookup; [lia | done]. }
  cbn [rs_i rs_j rs_out bind] in *.
  eexists. split; [reflexivity |]. rewrite incr_i_eq.
  cbn [rs_i rs_j rs_out]. rewrite Hi2, Hj2, Ho2.
  rewrite u32_small by lia.
  replace (Z.min (Z.of_nat (Z.to_nat b0)) (Z.max 0 (uncompr_size - rs_j s)))
    with m by (subst m; lia).
  repeat split; lia.
Qed.

Lemma rle4_body_run s b0 v :
  Z.of_nat (length (rs_out s)) = uncompr_size ->
  0 <= rs_i s -> 0 <= rs_j s ->
  in_range compr_size uncompr_size s = true ->
  comprbuf !! Z.to_nat (rs_i s) = Some b0 -> 0 < b0 ->
  comprbuf !! Z.to_nat (rs_i s + 1) = Some v ->
  let m := Z.min b0 (uncompr_size - rs_j s) in
  exists s',
    rle4_body comprbuf compr_size uncompr_size width s = Ok (Again s')
    /\ rs_i s' = rs_i s + 2
    /\ rs_j s' = rs_j s + m
    /\ rs_out s'
       = list_inserts (Z.to_nat (rs_j s))
                      (take (Z.to_nat m) (run4_pixels b0 v)) (rs_out s).
Proof.
  intros Hl Hi Hj Hr Hb0 Hpos Hv m.
  apply in_range_true in Hr as [Hjlt Hilt].
  assert (rs_i s + 1 < compr_size) as Hi1
    by (apply lookup_lt_Some in Hv; lia).
  unfold rle4_body. rewrite (load_lookup _ _ _ Hi Hb0). cbn [bind].
  rewrite nonzero_pos by done. rewrite incr_i_eq.
  rewrite (u32_small (rs_i s + 1)) by lia.
  match goal with |- context [rle4_run _ _ _ ?n ?s1] =>
    destruct (rle4_run_fills n s1 v) as (s2 & -> & Hi2 & Hj2 & Ho2) end;
    cbn [rs_i rs_j rs_out]; try done.
  { apply load_lookup; [lia | done]. }
  cbn [rs_i rs_j rs_out bind] in *.
  eexists. split; [reflexivity |]. rewrite incr_i_eq.
  cbn [rs_i rs_j rs_out]. rewrite Hi2, Hj2, Ho2.
  rewrite u32_small by lia.
  replace (Z.min (Z.of_nat (Z.to_nat b0)) (Z.max 0 (uncompr_size - rs_j s)))
    with m by (subst m; lia).
  rewrite Z2Nat.id by lia.
  repeat split; lia.
Qed.

Lemma rle4_body_literal s n :
  Z.of_nat (length (rs_out s)) = uncompr_size ->
  0 <= rs_i s -> 0 <= rs_j s ->
  comprbuf !! Z.to_nat (rs_i s) = Some 0 ->
  comprbuf !! Z.to_nat (rs_i s + 1) = Some n -> 3 <= n ->
  rs_i s + 2 + (n + 1) / 2 <= compr_size ->
  rs_j s + n <= uncompr_size ->
  exists s',
    rle4_body comprbuf compr_size uncompr_size width s = Ok (Again s')
    /\ rs_i s' = rs_i s + 2 + (n + 1) / 2
    /\ rs_j s' = rs_j s + n
    /\ rs_out s'
       = list_inserts (Z.to_nat (rs_j s))
           (take (Z.to_nat n)
                 (nibbles (drop (Z.to_nat (rs_i s + 2)) comprbuf)))
           (rs_out s).
Proof.
  intros Hl Hi Hj Hb0 Hb1 Hn Hin Hout.
  pose proof (Z.div_mod (n + 1) 2 ltac:(lia)) as Hdm.
  pose proof (Z.mod_pos_bound (n + 1) 2 ltac:(lia)) as Hmb.
  unfold rle4_body. rewrite (load_lookup _ _ _ Hi Hb0). cbn [bind].
  change (nonzero 0) with false. cbv iota.
  unfold escape. rewrite !incr_i_eq. cbn [rs_i rs_j rs_out rs_stores].
  rewrite (u32_small (rs_i s + 1)) by lia.
  rewrite (load_lookup _ (rs_i s + 1) _ ltac:(lia) Hb1). cbn [bind].
  destruct (Z.eqb_spec n 0); [lia |].
  destruct (Z.eqb_spec n 1); [lia |].
  destruct (Z.eqb_spec n 2); [lia |].
  rewrite (u32_small (rs_i s + 1 + 1)) by lia.
  match goal with |- context [rle4_abs _ _ _ ?c ?k ?s1] =>
    destruct (rle4_abs_copies c k s1) as (s3 & -> & Hi3 & Hj3 & Ho3) end;
    cbn [rs_i rs_j rs_out]; try lia.
  { unfold pending_nibbles. cbn [Z.odd].
    rewrite length_nibbles, length_drop. lia. }
  cbn [rs_i rs_j rs_out bind] in *.
  unfold pending_nibbles in Ho3. cbn [Z.odd] in Ho3.
  rewrite Z2Nat.id in * by lia.
  rewrite Z.add_0_l, nonzero_land_1.
  change (0 mod 2) with 0 in Hi3. rewrite Z.add_0_l in Hi3.
  eexists. split; [reflexivity |].
  pose proof (Z.div_mod n 2 ltac:(lia)) as Hdm'.
  pose proof (Zmod_odd n) as Hodd.
  replace (rs_i s + 2) with (rs_i s + 1 + 1) by lia.
  destruct (Z.odd n).
  - rewrite incr_i_eq. cbn [rs_i rs_j rs_out].
    rewrite u32_small by lia.
    repeat split; try done; lia.
  - repeat split; try done; lia.
Qed.

End Runs.

Section LastByte.
Variable comprbuf : list Z.
Variables compr_size uncompr_size width : Z.
Variable init : list Z.
Hypothesis Hcs : Z.of_nat (length comprbuf) = compr_size.
Hypothesis Hus : Z.of_nat (length init) = uncompr_size.
Hypothesis Hmax : compr_size < 2 ^ 32 - 1.

Lemma rle8_body_Ub s f :
  rle_inv init s -> in_range compr_size uncompr_size s = true ->
  rle8_body comprbuf compr_size uncompr_size width s = Ub f ->
  comprbuf !! Z.to_nat (compr_size - 1) = Some 0.
Proof.
  intros Hs Hr Hb.
  pose proof (rle8_body_safe comprbuf compr_size uncompr_size width init
                Hcs Hus Hmax s Hs Hr) as Hsafe.
  rewrite Hb in Hsafe. destruct Hsafe as [_ Hi]. rewrite <- Hi.
  unfold rle8_body in Hb.
  destruct (load_inside comprbuf (rs_i s)) as [b0 L].
  { apply in_range_true in Hr. destruct Hs. lia. }
  rewrite L in Hb. apply load_Ok in L as [_ L]. rewrite L.
  cbn [bind] in Hb.
  unfold nonzero in Hb. destruct (Z.eqb_spec b0 0) as [E |];
    [by rewrite E |].
  cbn [negb] in Hb.
  destruct (rle8_run_inv comprbuf compr_size uncompr_size init Hcs Hus
              (Z.to_nat b0) (incr_i s)) as (s2 & Hrun & _).
  { by apply incr_i_inv. }
  rewrite Hrun in Hb. discriminate.
Qed.

Lemma rle4_body_Ub s f :
  rle_inv init s -> in_range compr_size uncompr_size s = true ->
  rle4_body comprbuf compr_size uncompr_size width s = Ub f ->
  comprbuf !! Z.to_nat (compr_size - 1) = Some 0.
Proof.
  intros Hs Hr Hb.
  pose proof (rle4_body_safe comprbuf compr_size uncompr_size width init
                Hcs Hus Hmax s Hs Hr) as Hsafe.
  rewrite Hb in Hsafe. destruct Hsafe as [_ Hi]. rewrite <- Hi.
  unfold rle4_body in Hb.
  destruct (load_inside comprbuf (rs_i s)) as [b0 L].
  { apply in_range_true in Hr. destruct Hs. lia. }
  rewrite L in Hb. apply load_Ok in L as [_ L]. rewrite L.
  cbn [bind] in Hb.
  unfold nonzero in Hb. destruct (Z.eqb_spec b0 0) as [E |];
    [by rewrite E |].
  cbn [negb] in Hb.
  destruct (rle4_run_inv comprbuf compr_size uncompr_size init Hcs Hus
              (Z.to_nat b0) (incr_i s)) as (s2 & Hrun & _).
  { by apply incr_i_inv. }
  rewrite Hrun in Hb. discriminate.
Qed.

Lemma rle_loop_Ub body fuel s f :
  (forall s, rle_inv init s -> in_range compr_size uncompr_size s = true ->
             step_safe init compr_size s (body s)) ->
  (forall s f, rle_inv init s ->
               in_range compr_size uncompr_size s = true ->
               body s = Ub f ->
               comprbuf !! Z.to_nat (compr_size - 1) = Some 0) ->
  rle_inv init s ->
  rle_loop compr_size uncompr_size body fuel s = Some (Ub f) ->
  comprbuf !! Z.to_nat (compr_size - 1) = Some 0.
Proof.
  intros Hsafe HUb. revert s.
  induction fuel as [| fuel IH]; intros s Hs; cbn [rle_loop].
  - by destruct (in_range _ _ s).
  - destruct (in_range _ _ s) eqn:Hr; [| done].
    pose proof (Hsafe s Hs Hr) as Hstep.
    destruct (body s) as [[s' | s'] | f'] eqn:Hb; cbn in Hstep.
    + by apply IH.
    + done.
    + intros _. by eapply HUb.
Qed.
End LastByte.


Lemma load_app (pre l : list Z) q k b :
  q = Z.of_nat (length pre) + Z.of_nat k ->
  l !! k = Some b -> load (pre ++ l) q = Ok b.
Proof.
  intros -> H. unfold load.
  destruct (Z.ltb_spec (Z.of_nat (length pre) + Z.of_nat k) 0); [lia |].
  rewrite lookup_app_r by lia.
  replace (Z.to_nat (Z.of_nat (length pre) + Z.of_nat k) - length pre)%nat
    with k by lia.
  by rewrite H.
Qed.

Lemma store_app (pre l : list Z) q k v :
  q = Z.of_nat (length pre) + Z.of_nat k -> (k < length l)%nat ->
  store (pre ++ l) q v = Ok (pre ++ <[k := v]> l).
Proof.
  intros -> Hk. rewrite store_inside by (rewrite length_app; lia).
  replace (Z.to_nat (Z.of_nat (length pre) + Z.of_nat k))
    with (length pre + k)%nat by lia.
  by rewrite insert_app_r.
Qed.

Lemma rearrange24_spec n : forall p (pre row : list Z),
  p = Z.of_nat (length pre) ->
  (3 * n <= length row)%nat ->
  rearrange24 n p (pre ++ row) = Ok (pre ++ bgr_to_rgb n row).
Proof.
  induction n as [| n IH]; intros p pre row Hp Hlen; [done |].
  destruct row as [| b [| g [| r row]]]; cbn [length] in Hlen; try lia.
  cbn [rearrange24 bgr_to_rgb].
  rewrite (load_app pre _ p 0 b) by (done || lia). cbn [bind].
  rewrite (load_app pre _ (p + 2) 2 r) by (done || lia). cbn [bind].
  rewrite (store_app pre _ p 0) by (cbn [length]; lia).
  cbn [bind insert list_insert].
  rewrite (store_app pre _ (p + 2) 2) by (cbn [length]; lia).
  cbn [bind insert list_insert].
  replace (pre ++ r :: g :: b :: row) with ((pre ++ [r; g; b]) ++ row)
    by (by rewrite <- app_assoc).
  rewrite IH; [by rewrite <- app_assoc | | lia].
  rewrite length_app. cbn [length]. lia.
Qed.

Lemma bgr_to_rgb_involutive n : forall row,
  bgr_to_rgb n (bgr_to_rgb n row) = row.
Proof.
  induction n as [| n IH]; intros row; [by destruct row |].
  destruct row as [| b [| g [| r row]]]; try done.
  cbn [bgr_to_rgb]. by rewrite IH.
Qed.

Lemma length_bgr_to_rgb n : forall row, length (bgr_to_rgb n row) = length row.
Proof.
  induction n as [| n IH]; intros row; [by destruct row |].
  destruct row as [| b [| g [| r row]]]; try done.
  cbn [bgr_to_rgb length]. by rewrite IH.
Qed.

Lemma length_bgra_to_rgb n : forall row,
  (4 * n <= length row)%nat -> length (bgra_to_rgb n row) = (3 * n)%nat.
Proof.
  induction n as [| n IH]; intros row H; [by destruct row |].
  destruct row as [| b [| g [| r [| a row]]]]; cbn [length] in H; try lia.
  cbn [bgra_to_rgb length]. rewrite IH by lia. lia.
Qed.

Lemma rearrange32_spec (orig : list Z) n : forall i p p1 (T : list Z),
  length T = (3 * i)%nat ->
  p = Z.of_nat (4 * i) -> p1 = Z.of_nat (3 * i) ->
  (4 * (i + n) <= length orig)%nat ->
  rearrange32 n p p1 (T ++ drop (3 * i) orig)
  = Ok (T ++ bgra_to_rgb n (drop (4 * i) orig) ++ drop (3 * (i + n)) orig).
Proof.
  induction n as [| n IH]; intros i p p1 T HT Hp Hp1 Hlen.
  { cbn [rearrange32]. rewrite Nat.add_0_r.
    by destruct (drop (4 * i) orig). }
  destruct (lookup_lt_is_Some_2 orig (4 * i)) as [b Hb]; [lia |].
  destruct (lookup_lt_is_Some_2 orig (4 * i + 1)) as [g Hg]; [lia |].
  destruct (lookup_lt_is_Some_2 orig (4 * i + 2)) as [r Hr]; [lia |].
  destruct (lookup_lt_is_Some_2 orig (4 * i + 3)) as [a Ha]; [lia |].
  assert (HD : drop (4 * i) orig = b :: g :: r :: a :: drop (4 * (i + 1)) orig).
  { rewrite (drop_S _ b) by done.
    rewrite (drop_S _ g) by (by rewrite <- Nat.add_1_r).
    rewrite (drop_S _ r)
      by (by replace (S (S (4 * i))) with (4 * i + 2)%nat by lia).
    rewrite (drop_S _ a)
      by (by replace (S (S (S (4 * i)))) with (4 * i + 3)%nat by lia).
    do 4 f_equal. f_equal. lia. }
  destruct (drop (3 * i) orig) as [| d0 [| d1 [| d2 D]]] eqn:ED;
    try (apply (f_equal length) in ED; rewrite length_drop in ED;
         cbn [length] in ED; lia).
  assert (ED' : drop (3 * (i + 1)) orig = D).
  { replace (3 * (i + 1))%nat with (3 * i + 3)%nat by lia.
    by rewrite <- drop_drop, ED. }
  assert (Hk : forall k, (d0 :: d1 :: d2 :: D) !! (i + k)%nat
                         = orig !! (4 * i + k)%nat).
  { intros k. rewrite <- ED, lookup_drop. f_equal. lia. }
  cbn [rearrange32]. rewrite HD. cbn [bgra_to_rgb].
  rewrite (load_app T _ p i b)
    by (lia || by rewrite <- (Nat.add_0_r i), Hk, Nat.add_0_r).
  cbn [bind].
  rewrite (load_app T _ (p + 2) (i + 2) r) by (lia || by rewrite Hk).
  cbn [bind].
  rewrite (store_app T _ p1 0) by (cbn [length]; lia).
  cbn [bind insert list_insert].
  rewrite (load_app T _ (p + 1) (i + 1) g).
  2: lia.
  2: { rewrite Nat.add_1_r. cbn [lookup list_lookup].
       specialize (Hk 1%nat). rewrite Nat.add_1_r in Hk.
       cbn [lookup list_lookup] in Hk. by rewrite Hk. }
  cbn [bind].
  rewrite (store_app T _ (p1 + 1) 1) by (cbn [length]; lia).
  cbn [bind insert list_insert].
  rewrite (store_app T _ (p1 + 2) 2) by (cbn [length]; lia).
  cbn [bind insert list_insert].
  replace (T ++ r :: g :: b :: D)
    with ((T ++ [r; g; b]) ++ drop (3 * (i + 1)) orig)
    by (by rewrite ED', <- app_assoc).
  rewrite (IH (i + 1)%nat);
    [| rewrite length_app; cbn [length]; lia | lia | lia | lia].
  rewrite <- app_assoc. cbn [app].
  by replace (i + 1 + n)%nat with (i + S n)%nat by lia.
Qed.

(** ** What one pass of the decompression loops decodes *)

Lemma in_range_intro cs us s :
  rs_j s < us -> rs_i s < cs -> in_range cs us s = true.
Proof.
  intros Hj Hi. unfold in_range. apply andb_true_iff.
  split; by apply Z.ltb_lt.
Qed.

Lemma inserts_as_segment (out l : list Z) (j m : Z) :
  0 <= j -> 0 <= m -> Z.of_nat (length l) = m ->
  j + m <= Z.of_nat (length out) ->
  list_inserts (Z.to_nat j) l out
  = take (Z.to_nat j) out ++ l ++ drop (Z.to_nat (j + m)) out.
Proof.
  intros Hj Hm Hl Hfit. rewrite list_inserts_take_drop by lia.
  do 3 f_equal. lia.
Qed.

(** X1.  An RLE8 pair [n, v] with [n > 0] stores [v] at the next [n]
    positions of the output block, or at those that are left when the
    block ends before; the cursor of the compressed block moves by 2,
    and no other position of the output changes. *)
Theorem rle8_encoded_run (comprbuf : list Z)
    (compr_size uncompr_size width : Z) (s : rle_state) (n v : Z) :
  Z.of_nat (length comprbuf) = compr_size ->
  compr_size < 2 ^ 32 - 1 ->
  Z.of_nat (length (rs_out s)) = uncompr_size ->
  uncompr_size < 2 ^ 32 ->
  0 <= rs_i s -> 0 <= rs_j s < uncompr_size ->
  comprbuf !! Z.to_nat (rs_i s) = Some n -> 0 < n ->
  comprbuf !! Z.to_nat (rs_i s + 1) = Some v ->
  let m := Z.min n (uncompr_size - rs_j s) in
  exists s',
    rle8_body comprbuf compr_size uncompr_size width s = Ok (Again s')
    /\ rs_i s' = rs_i s + 2
    /\ rs_j s' = rs_j s + m
    /\ rs_out s'
       = take (Z.to_nat (rs_j s)) (rs_out s)
         ++ replicate (Z.to_nat m) v
         ++ drop (Z.to_nat (rs_j s + m)) (rs_out s).
Proof.
  intros Hcs Hmax Hl Hus Hi Hj Hn Hpos Hv m.
  assert (rs_i s + 1 < compr_size) as Hi1
    by (apply lookup_lt_Some in Hv; lia).
  destruct (rle8_body_run comprbuf compr_size uncompr_size width
              Hcs Hmax Hus s n v) as (s' & Hb & Hi' & Hj' & Ho);
    try done; try lia.
  { apply in_range_intro; lia. }
  exists s'. repeat split; try done.
  rewrite Ho. apply inserts_as_segment; try lia.
  rewrite length_replicate. lia.
Qed.

Lemma rle8_encoded_run_witness :
  exists s',
    rle8_body [3; 7; 0; 1] 4 6 3
      {| rs_i := 0; rs_j := 1; rs_out := [9; 9; 9; 9; 9; 9];
         rs_stores := [] |} = Ok (Again s')
    /\ rs_i s' = 2 /\ rs_j s' = 4
    /\ rs_out s' = [9; 7; 7; 7; 9; 9].
Proof.
  apply (rle8_encoded_run [3; 7; 0; 1] 4 6 3
           {| rs_i := 0; rs_j := 1; rs_out := [9; 9; 9; 9; 9; 9];
              rs_stores := [] |} 3 7);
    simpl; (reflexivity || lia).
Defined.

Lemma length_run4_pixels n b : length (run4_pixels n b) = Z.to_nat n.
Proof. unfold run4_pixels. by rewrite length_fmap, length_seqZ. Qed.

(** X2.  An RLE4 pair [n, b] with [n > 0] stores [n] pixels, or as
    many as the output block still takes: pixel [t] of the run is the
    high nibble of [b] when [n - t] is odd and the low nibble when it
    is even, so a run of even length starts with the low nibble.  The
    cursor of the compressed block moves by 2. *)
Theorem rle4_encoded_run (comprbuf : list Z)
    (compr_size uncompr_size width : Z) (s : rle_state) (n b : Z) :
  Z.of_nat (length comprbuf) = compr_size ->
  compr_size < 2 ^ 32 - 1 ->
  Z.of_nat (length (rs_out s)) = uncompr_size ->
  uncompr_size < 2 ^ 32 ->
  0 <= rs_i s -> 0 <= rs_j s < uncompr_size ->
  comprbuf !! Z.to_nat (rs_i s) = Some n -> 0 < n ->
  comprbuf !! Z.to_nat (rs_i s + 1) = Some b ->
  let m := Z.min n (uncompr_size - rs_j s) in
  exists s',
    rle4_body comprbuf compr_size uncompr_size width s = Ok (Again s')
    /\ rs_i s' = rs_i s + 2
    /\ rs_j s' = rs_j s + m
    /\ rs_out s'
       = take (Z.to_nat (rs_j s)) (rs_out s)
         ++ take (Z.to_nat m) (run4_pixels n b)
         ++ drop (Z.to_nat (rs_j s + m)) (rs_out s).
Proof.
  intros Hcs Hmax Hl Hus Hi Hj Hn Hpos Hv m.
  assert (rs_i s + 1 < compr_size) as Hi1
    by (apply lookup_lt_Some in Hv; lia).
  destruct (rle4_body_run comprbuf compr_size uncompr_size width
              Hcs Hmax Hus s n b) as (s' & Hb & Hi' & Hj' & Ho);
    try done; try lia.
  { apply in_range_intro; lia. }
  exists s'. repeat split; try done.
  rewrite Ho. apply inserts_as_segment; try lia.
  rewrite length_take, length_run4_pixels. lia.
Qed.

Lemma rle4_encoded_run_witness :
  exists s',
    rle4_body [4; 18; 0; 1] 4 6 3
      {| rs_i := 0; rs_j := 1; rs_out := [9; 9; 9; 9; 9; 9];
         rs_stores := [] |} = Ok (Again s')
    /\ rs_i s' = 2 /\ rs_j s' = 5
    /\ rs_out s' = [9; 2; 1; 2; 1; 9].
Proof.
  apply (rle4_encoded_run [4; 18; 0; 1] 4 6 3
           {| rs_i := 0; rs_j := 1; rs_out := [9; 9; 9; 9; 9; 9];
              rs_stores := [] |} 4 18);
    simpl; (reflexivity || lia).
Defined.

(** X3.  An RLE8 literal run [0, n, d1 .. dn] with [n >= 3] copies the
    [n] bytes that follow, or as many of them as both blocks allow, to
    the output; the cursor of the compressed block then stands behind
    the bytes copied, plus one pad byte when their number is odd. *)
Theorem rle8_literal_run_copies_bytes (comprbuf : list Z)
    (compr_size uncompr_size width : Z) (s : rle_state) (n : Z) :
  Z.of_nat (length comprbuf) = compr_size ->
  compr_size < 2 ^ 32 - 1 ->
  Z.of_nat (length (rs_out s)) = uncompr_size ->
  uncompr_size < 2 ^ 32 ->
  0 <= rs_i s -> 0 <= rs_j s <= uncompr_size ->
  comprbuf !! Z.to_nat (rs_i s) = Some 0 ->
  comprbuf !! Z.to_nat (rs_i s + 1) = Some n -> 3 <= n ->
  let m := Z.min n (Z.min (uncompr_size - rs_j s)
                          (compr_size - (rs_i s + 2))) in
  exists s',
    rle8_body comprbuf compr_size uncompr_size width s = Ok (Again s')
    /\ rs_i s' = rs_i s + 2 + m + m mod 2
    /\ rs_j s' = rs_j s + m
    /\ rs_out s'
       = take (Z.to_nat (rs_j s)) (rs_out s)
         ++ bytes_at comprbuf (rs_i s + 2) m
         ++ drop (Z.to_nat (rs_j s + m)) (rs_out s).
Proof.
  intros Hcs Hmax Hl Hus Hi Hj Hb0 Hb1 Hn m.
  assert (rs_i s + 1 < compr_size) as Hi1
    by (apply lookup_lt_Some in Hb1; lia).
  unfold rle8_body. rewrite (load_lookup _ _ _ Hi Hb0). cbn [bind].
  change (nonzero 0) with false. cbv iota.
  unfold escape. rewrite !incr_i_eq. cbn [rs_i rs_j rs_out rs_stores].
  rewrite (u32_small (rs_i s + 1)) by lia.
  rewrite (load_lookup _ (rs_i s + 1) _ ltac:(lia) Hb1). cbn [bind].
  destruct (Z.eqb_spec n 0); [lia |].
  destruct (Z.eqb_spec n 1); [lia |].
  destruct (Z.eqb_spec n 2); [lia |].
  rewrite (u32_small (rs_i s + 1 + 1)) by lia.
  match goal with |- context [rle8_abs _ _ _ ?c ?k ?s1] =>
    destruct (rle8_abs_copies comprbuf compr_size uncompr_size Hcs Hmax Hus
                c k s1) as (s3 & -> & Hi3 & Hj3 & Ho3) end;
    cbn [rs_i rs_j rs_out]; try lia.
  cbn [rs_i rs_j rs_out bind] in *.
  replace (Z.min (Z.of_nat (Z.to_nat n))
             (Z.max 0 (Z.min (uncompr_size - rs_j s)
                             (compr_size - (rs_i s + 1 + 1)))))
    with m in * by lia.
  rewrite Z.add_0_l, nonzero_land_1.
  assert (rs_out s3
          = take (Z.to_nat (rs_j s)) (rs_out s)
            ++ bytes_at comprbuf (rs_i s + 2) m
            ++ drop (Z.to_nat (rs_j s + m)) (rs_out s)) as Hout.
  { rewrite Ho3. unfold bytes_at.
    replace (rs_i s + 1 + 1) with (rs_i s + 2) by lia.
    apply inserts_as_segment; try lia.
    rewrite length_take, length_drop. lia. }
  eexists. split; [reflexivity |].
  rewrite Zmod_odd. destruct (Z.odd m).
  - rewrite incr_i_eq. cbn [rs_i rs_j rs_out].
    rewrite u32_small by lia. repeat split; try done; lia.
  - repeat split; try done; lia.
Qed.

Lemma rle8_literal_run_copies_bytes_witness :
  exists s',
    rle8_body [0; 3; 5; 6; 7; 0; 0; 1] 8 6 3
      {| rs_i := 0; rs_j := 1; rs_out := [9; 9; 9; 9; 9; 9];
         rs_stores := [] |} = Ok (Again s')
    /\ rs_i s' = 6 /\ rs_j s' = 4
    /\ rs_out s' = [9; 5; 6; 7; 9; 9].
Proof.
  apply (rle8_literal_run_copies_bytes [0; 3; 5; 6; 7; 0; 0; 1] 8 6 3
           {| rs_i := 0; rs_j := 1; rs_out := [9; 9; 9; 9; 9; 9];
              rs_stores := [] |} 3);
    simpl; (reflexivity || lia).
Defined.

(** X4.  An RLE4 literal run [0, n, ..] with [n >= 3] that fits in both
    blocks stores the first [n] nibbles of the bytes that follow, high
    nibble first, and moves the cursor of the compressed block behind
    the [(n + 1) / 2] bytes that hold them: no pad byte is skipped. *)
Theorem rle4_literal_run_stores_nibbles (comprbuf : list Z)
    (compr_size uncompr_size width : Z) (s : rle_state) (n : Z) :
  Z.of_nat (length comprbuf) = compr_size ->
  compr_size < 2 ^ 32 - 1 ->
  Z.of_nat (length (rs_out s)) = uncompr_size ->
  uncompr_size < 2 ^ 32 ->
  0 <= rs_i s -> 0 <= rs_j s ->
  comprbuf !! Z.to_nat (rs_i s) = Some 0 ->
  comprbuf !! Z.to_nat (rs_i s + 1) = Some n -> 3 <= n ->
  rs_i s + 2 + (n + 1) / 2 <= compr_size ->
  rs_j s + n <= uncompr_size ->
  exists s',
    rle4_body comprbuf compr_size uncompr_size width s = Ok (Again s')
    /\ rs_i s' = rs_i s + 2 + (n + 1) / 2
    /\ rs_j s' = rs_j s + n
    /\ rs_out s'
       = take (Z.to_nat (rs_j s)) (rs_out s)
         ++ take (Z.to_nat n)
                 (nibbles (bytes_at comprbuf (rs_i s + 2) ((n + 1) / 2)))
         ++ drop (Z.to_nat (rs_j s + n)) (rs_out s).
Proof.
  intros Hcs Hmax Hl Hus Hi Hj Hb0 Hb1 Hn Hin Hout.
  destruct (rle4_body_literal comprbuf compr_size uncompr_size width
              Hcs Hmax Hus s n) as (s' & Hb & Hi' & Hj' & Ho);
    try done.
  exists s'. repeat split; try done.
  rewrite Ho.
  pose proof (Z.div_mod (n + 1) 2 ltac:(lia)) as Hdm.
  pose proof (Z.mod_pos_bound (n + 1) 2 ltac:(lia)) as Hmb.
  assert (take (Z.to_nat n)
            (nibbles (bytes_at comprbuf (rs_i s + 2) ((n + 1) / 2)))
          = take (Z.to_nat n)
              (nibbles (drop (Z.to_nat (rs_i s + 2)) comprbuf))) as ->.
  { unfold bytes_at.
    rewrite <- (take_drop (Z.to_nat ((n + 1) / 2))
                  (drop (Z.to_nat (rs_i s + 2)) comprbuf)) at 2.
    unfold nibbles. rewrite bind_app.
    rewrite take_app_le; [done |].
    fold (nibbles (take (Z.to_nat ((n + 1) / 2))
                        (drop (Z.to_nat (rs_i s + 2)) comprbuf))).
    rewrite length_nibbles, length_take, length_drop. lia. }
  apply inserts_as_segment; try lia.
  rewrite length_take, length_nibbles, length_drop. lia.
Qed.

Lemma rle4_literal_run_stores_nibbles_witness :
  exists s',
    rle4_body [0; 3; 18; 52; 0; 1] 6 6 3
      {| rs_i := 0; rs_j := 1; rs_out := [9; 9; 9; 9; 9; 9];
         rs_stores := [] |} = Ok (Again s')
    /\ rs_i s' = 4 /\ rs_j s' = 4
    /\ rs_out s' = [9; 1; 2; 3; 9; 9].
Proof.
  apply (rle4_literal_run_stores_nibbles [0; 3; 18; 52; 0; 1] 6 6 3
           {| rs_i := 0; rs_j := 1; rs_out := [9; 9; 9; 9; 9; 9];
              rs_stores := [] |} 3);
    try reflexivity; try (simpl; lia); by vm_compute.
Defined.

(** ** Streams of encoded runs *)

Section RunStream.

Variable comprbuf : list Z.
Variables compr_size uncompr_size : Z.
Variable body : rle_state -> res step.
Variable pixels : Z -> Z -> list Z.

Hypothesis Hcs : Z.of_nat (length comprbuf) = compr_size.
Hypothesis Hpixels : forall n v, 0 < n -> length (pixels n v) = Z.to_nat n.
Hypothesis Hbody : forall s n v,
  Z.of_nat (length (rs_out s)) = uncompr_size ->
  0 <= rs_i s -> 0 <= rs_j s ->
  comprbuf !! Z.to_nat (rs_i s) = Some n -> 0 < n ->
  comprbuf !! Z.to_nat (rs_i s + 1) = Some v ->
  rs_j s + n <= uncompr_size ->
  exists s',
    body s = Ok (Again s')
    /\ rs_i s' = rs_i s + 2
    /\ rs_j s' = rs_j s + n
    /\ rs_out s' = list_inserts (Z.to_nat (rs_j s)) (pixels n v) (rs_out s).

Lemma rle_loop_runs runs : forall pre s fuel,
  comprbuf = pre ++ encode_runs runs ->
  rs_i s = Z.of_nat (length pre) ->
  0 <= rs_j s ->
  Z.of_nat (length (rs_out s)) = uncompr_size ->
  Forall (fun r => 0 < r.1) runs ->
  rs_j s + Z.of_nat (length (runs ≫= (fun r => pixels r.1 r.2)))
  <= uncompr_size ->
  (length runs <= fuel)%nat ->
  exists s',
    rle_loop compr_size uncompr_size body fuel s = Some (Ok s')
    /\ rs_out s'
       = list_inserts (Z.to_nat (rs_j s))
                      (runs ≫= (fun r => pixels r.1 r.2)) (rs_out s).
Proof.
  induction runs as [| [n v] runs IH];
    intros pre s fuel Hbuf Hi Hj Hl Hpos Hroom Hfuel.
  - exists s. split; [| done].
    assert (in_range compr_size uncompr_size s = false) as Hr.
    { unfold in_range. apply andb_false_iff. right. apply Z.ltb_ge.
      rewrite <- Hcs, Hbuf, length_app. cbn. lia. }
    destruct fuel; cbn [rle_loop]; by rewrite Hr.
  - apply Forall_cons in Hpos as [Hn Hpos]. cbn [fst] in Hn.
    rewrite bind_cons, length_app in Hroom. cbn [fst snd] in Hroom.
    rewrite Hpixels in Hroom by done.
    assert (Z.of_nat (length comprbuf)
            = Z.of_nat (length pre) + 2
              + Z.of_nat (length (encode_runs runs))) as Hlen.
    { rewrite Hbuf. unfold encode_runs. rewrite bind_cons, !length_app.
      cbn [length]. lia. }
    assert (in_range compr_size uncompr_size s = true) as Hr
      by (apply in_range_intro; lia).
    destruct fuel as [| fuel]; [cbn in Hfuel; lia |].
    cbn [rle_loop]. rewrite Hr.
    destruct (Hbody s n v) as (s1 & -> & Hi1 & Hj1 & Ho1);
      try done; try lia.
    { rewrite Hbuf, Hi, Nat2Z.id, lookup_app_r by lia.
      by rewrite Nat.sub_diag. }
    { rewrite Hbuf, Hi. replace (Z.to_nat (Z.of_nat (length pre) + 1))
        with (S (length pre)) by lia.
      rewrite lookup_app_r by lia.
      by replace (S (length pre) - length pre)%nat with 1%nat by lia. }
    destruct (IH (pre ++ [n; v]) s1 fuel) as (s' & -> & Ho');
      try done.
    + rewrite Hbuf. unfold encode_runs. rewrite bind_cons.
      by rewrite <- app_assoc.
    + rewrite Hi1, Hi, length_app. cbn [length]. lia.
    + lia.
    + rewrite Ho1, length_inserts. done.
    + lia.
    + cbn [length] in Hfuel. lia.
    + exists s'. split; [done |]. rewrite Ho', Ho1, Hj1.
      rewrite bind_cons. cbn [fst snd].
      rewrite list_inserts_app_l, Hpixels by done.
      f_equal. lia.
Qed.

End RunStream.

(** X5.  Round trip for RLE8: a compressed block that consists of
    encoded runs [n1, v1, n2, v2, ..] with every [ni > 0], decoded into
    an output block that has room for them, gives the runs written
    out, [n1] times [v1], then [n2] times [v2] and so on, in front of
    the part of the block that the runs do not reach. *)
Theorem rle8_decodes_runs (runs : list (Z * Z)) (init : list Z) (width : Z)
    (fuel : nat) :
  Forall (fun r => 0 < r.1) runs ->
  Z.of_nat (length (encode_runs runs)) < 2 ^ 32 - 1 ->
  Z.of_nat (length init) < 2 ^ 32 ->
  (length (expand_runs runs) <= length init)%nat ->
  (length runs <= fuel)%nat ->
  result_out
    (rle_decompress (encode_runs runs)
       (Z.of_nat (length (encode_runs runs))) (Z.of_nat (length init))
       width 8 init fuel)
  = Some (expand_runs runs ++ drop (length (expand_runs runs)) init).
Proof.
  intros Hpos Hmax Hus Hroom Hfuel. unfold rle_decompress.
  change (8 =? 8) with true. cbv iota.
  set (cs := Z.of_nat (length (encode_runs runs))) in *.
  set (us := Z.of_nat (length init)) in *.
  destruct (rle_loop_runs (encode_runs runs) cs us
              (rle8_body (encode_runs runs) cs us width)
              (fun n v => replicate (Z.to_nat n) v) eq_refl)
    with (runs := runs) (pre := @nil Z) (fuel := fuel)
         (s := {| rs_i := 0; rs_j := 0; rs_out := init; rs_stores := [] |})
    as (s' & -> & Ho); cbn [rs_i rs_j rs_out]; try done; try lia.
  - intros n v _. apply length_replicate.
  - intros s n v Hl Hi Hj Hn Hn0 Hv Hfit.
    assert (rs_i s + 1 < cs) as Hi1
      by (apply lookup_lt_Some in Hv; lia).
    destruct (Z.eq_dec (rs_j s) us) as [E | NE].
    + assert (n = 0) by lia. lia.
    + destruct (rle8_body_run (encode_runs runs) cs us width eq_refl
                  Hmax Hus s n v) as (s' & Hb & Hi' & Hj' & Ho);
        try done.
      { apply in_range_intro; lia. }
      replace (Z.min n (us - rs_j s)) with n in * by lia.
      by exists s'.
  - fold (expand_runs runs). lia.
  - cbn [result_out]. rewrite Ho. fold (expand_runs runs).
    change (Z.to_nat 0) with 0%nat.
    rewrite list_inserts_take_drop by (cbn; lia).
    by rewrite take_0.
Qed.

Lemma rle8_decodes_runs_witness :
  result_out (rle_decompress [2; 7; 3; 5] 4 6 3 8 [9; 9; 9; 9; 9; 9] 2)
  = Some [7; 7; 5; 5; 5; 9].
Proof.
  apply (rle8_decodes_runs [(2, 7); (3, 5)] [9; 9; 9; 9; 9; 9] 3 2).
  - repeat constructor.
  - reflexivity.
  - reflexivity.
  - simpl. lia.
  - simpl. lia.
Defined.

(** X6.  The same for RLE4: a block of encoded runs [n1, b1, n2, b2, ..]
    with every [ni > 0] decodes to the pixels of the runs one after the
    other, each run alternating the two nibbles of its byte and ending
    with the high one. *)
Theorem rle4_decodes_runs (runs : list (Z * Z)) (init : list Z) (width : Z)
    (fuel : nat) :
  Forall (fun r => 0 < r.1) runs ->
  Z.of_nat (length (encode_runs runs)) < 2 ^ 32 - 1 ->
  Z.of_nat (length init) < 2 ^ 32 ->
  (length (expand_runs4 runs) <= length init)%nat ->
  (length runs <= fuel)%nat ->
  result_out
    (rle_decompress (encode_runs runs)
       (Z.of_nat (length (encode_runs runs))) (Z.of_nat (length init))
       width 4 init fuel)
  = Some (expand_runs4 runs ++ drop (length (expand_runs4 runs)) init).
Proof.
  intros Hpos Hmax Hus Hroom Hfuel. unfold rle_decompress.
  change (4 =? 8) with false. cbv iota.
  set (cs := Z.of_nat (length (encode_runs runs))) in *.
  set (us := Z.of_nat (length init)) in *.
  destruct (rle_loop_runs (encode_runs runs) cs us
              (rle4_body (encode_runs runs) cs us width)
              run4_pixels eq_refl)
    with (runs := runs) (pre := @nil Z) (fuel := fuel)
         (s := {| rs_i := 0; rs_j := 0; rs_out := init; rs_stores := [] |})
    as (s' & -> & Ho); cbn [rs_i rs_j rs_out]; try done; try lia.
  - intros n v _. apply length_run4_pixels.
  - intros s n v Hl Hi Hj Hn Hn0 Hv Hfit.
    assert (rs_i s + 1 < cs) as Hi1
      by (apply lookup_lt_Some in Hv; lia).
    destruct (Z.eq_dec (rs_j s) us) as [E | NE].
    + assert (n = 0) by lia. lia.
    + destruct (rle4_body_run (encode_runs runs) cs us width eq_refl
                  Hmax Hus s n v) as (s' & Hb & Hi' & Hj' & Ho);
        try done.
      { apply in_range_intro; lia. }
      replace (Z.min n (us - rs_j s)) with n in * by lia.
      exists s'. repeat split; try done.
      rewrite Ho. f_equal. apply take_ge.
      rewrite length_run4_pixels. lia.
  - fold (expand_runs4 runs). lia.
  - cbn [result_out]. rewrite Ho. fold (expand_runs4 runs).
    change (Z.to_nat 0) with 0%nat.
    rewrite list_inserts_take_drop by (cbn; lia).
    by rewrite take_0.
Qed.

Lemma rle4_decodes_runs_witness :
  result_out (rle_decompress [2; 18; 3; 52] 4 6 3 4 [9; 9; 9; 9; 9; 9] 2)
  = Some [2; 1; 3; 4; 3; 9].
Proof.
  apply (rle4_decodes_runs [(2, 18); (3, 52)] [9; 9; 9; 9; 9; 9] 3 2).
  - repeat constructor.
  - reflexivity.
  - reflexivity.
  - simpl. lia.
  - simpl. lia.
Defined.

(** ** Blocks whose last byte is not 0 *)

(** X7.  A load past the end of the compressed block can only follow
    an escape byte 0 in its last position: when the last byte of a
    block of fewer than 2^32 - 1 bytes is not 0, either loop ends
    without any access outside the two blocks, whatever the block
    holds. *)
Theorem nonzero_last_byte_is_safe (comprbuf init : list Z) (width bits : Z)
    (fuel : nat) :
  Z.of_nat (length comprbuf) < 2 ^ 32 - 1 ->
  last comprbuf <> Some 0 ->
  (length comprbuf < fuel)%nat ->
  exists s,
    rle_decompress comprbuf (Z.of_nat (length comprbuf))
                   (Z.of_nat (length init)) width bits init fuel
    = Some (Ok s).
Proof.
  intros Hmax Hlast Hfuel.
  set (cs := Z.of_nat (length comprbuf)) in *.
  set (us := Z.of_nat (length init)) in *.
  destruct (rle_decompress_ends comprbuf init cs us width bits fuel
              eq_refl Hmax ltac:(lia)) as [[s | f] Hr]; [by exists s |].
  exfalso. apply Hlast. rewrite last_lookup.
  replace (Nat.pred (length comprbuf)) with (Z.to_nat (cs - 1)) by lia.
  assert (rle_inv init {| rs_i := 0; rs_j := 0;
                          rs_out := init; rs_stores := [] |}) as H0
    by (repeat split; simpl; lia || done).
  unfold rle_decompress in Hr.
  destruct (bits =? 8).
  - eapply (rle_loop_Ub comprbuf cs us init); [| | exact H0 | exact Hr].
    + intros s0 Hs Hrange. by apply rle8_body_safe.
    + intros s0 f0 Hs Hrange Hb.
      by eapply (rle8_body_Ub comprbuf cs us width init).
  - eapply (rle_loop_Ub comprbuf cs us init); [| | exact H0 | exact Hr].
    + intros s0 Hs Hrange. by apply rle4_body_safe.
    + intros s0 f0 Hs Hrange Hb.
      by eapply (rle4_body_Ub comprbuf cs us width init).
Qed.

Lemma nonzero_last_byte_is_safe_witness :
  exists s,
    rle_decompress [0; 0; 3; 7; 0; 1] 6 4 2 8 [9; 9; 9; 9] 7 = Some (Ok s).
Proof.
  apply (nonzero_last_byte_is_safe [0; 0; 3; 7; 0; 1] [9; 9; 9; 9] 2 8 7).
  - reflexivity.
  - discriminate.
  - simpl. lia.
Defined.

(** ** rearrangePixels *)

Lemma rearrange24_whole n (blk : list Z) :
  (3 * n <= length blk)%nat ->
  rearrange24 n 0 blk = Ok (bgr_to_rgb n blk).
Proof. intros H. by apply (rearrange24_spec n 0 [] blk). Qed.

Lemma rearrange32_whole n (blk : list Z) :
  (4 * n <= length blk)%nat ->
  rearrange32 n 0 0 blk = Ok (bgra_to_rgb n blk ++ drop (3 * n) blk).
Proof.
  intros H. by apply (rearrange32_spec blk n 0 0 0 []); try lia.
Qed.

(** X8.  For a 24-bit row rearrangePixels exchanges the first and the
    third byte of each of the [width] pixels, BGR to RGB, and leaves
    the second byte and the bytes behind the pixels as they are. *)
Theorem rearrangePixels_24_swaps_blue_and_red (blk : list Z) (width : Z) :
  0 <= width -> 3 * width <= Z.of_nat (length blk) ->
  rearrangePixels blk width 24 = Ok (bgr_to_rgb (Z.to_nat width) blk).
Proof.
  intros Hw Hl. unfold rearrangePixels.
  change (24 =? 16) with false. change (24 =? 24) with true. cbv iota.
  apply rearrange24_whole. lia.
Qed.

Lemma rearrangePixels_24_swaps_blue_and_red_witness :
  rearrangePixels [1; 2; 3; 4; 5; 6; 0; 0] 2 24
  = Ok [3; 2; 1; 6; 5; 4; 0; 0].
Proof.
  apply (rearrangePixels_24_swaps_blue_and_red [1; 2; 3; 4; 5; 6; 0; 0] 2);
    simpl; lia.
Defined.

(** X9.  On a 24-bit row rearrangePixels is its own inverse: applied
    twice it gives the row back. *)
Theorem rearrangePixels_24_twice (blk : list Z) (width : Z) :
  0 <= width -> 3 * width <= Z.of_nat (length blk) ->
  (do blk' <- rearrangePixels blk width 24; rearrangePixels blk' width 24)
  = Ok blk.
Proof.
  intros Hw Hl. unfold rearrangePixels.
  change (24 =? 16) with false. change (24 =? 24) with true. cbv iota.
  rewrite rearrange24_whole by lia. cbn [bind].
  rewrite rearrange24_whole by (rewrite length_bgr_to_rgb; lia).
  by rewrite bgr_to_rgb_involutive.
Qed.

Lemma rearrangePixels_24_twice_witness :
  (do blk' <- rearrangePixels [1; 2; 3; 4; 5; 6; 0; 0] 2 24;
   rearrangePixels blk' 2 24)
  = Ok [1; 2; 3; 4; 5; 6; 0; 0].
Proof.
  apply (rearrangePixels_24_twice [1; 2; 3; 4; 5; 6; 0; 0] 2); simpl; lia.
Defined.

(** X10.  For a 32-bit row rearrangePixels packs the pixels to the
    front of the block, three bytes each in the order third, second,
    first byte, and drops the fourth; from byte [3 * width] on the
    block keeps the bytes it held, the tail of the 4-byte pixels. *)
Theorem rearrangePixels_32_packs_rgb (blk : list Z) (width : Z) :
  0 <= width -> 4 * width <= Z.of_nat (length blk) ->
  rearrangePixels blk width 32
  = Ok (bgra_to_rgb (Z.to_nat width) blk
        ++ drop (3 * Z.to_nat width) blk).
Proof.
  intros Hw Hl. unfold rearrangePixels.
  change (32 =? 16) with false. change (32 =? 24) with false.
  change (32 =? 32) with true. cbv iota.
  by rewrite rearrange32_whole by lia.
Qed.

Lemma rearrangePixels_32_packs_rgb_witness :
  rearrangePixels [1; 2; 3; 255; 4; 5; 6; 255] 2 32
  = Ok [3; 2; 1; 6; 5; 4; 6; 255].
Proof.
  apply (rearrangePixels_32_packs_rgb [1; 2; 3; 255; 4; 5; 6; 255] 2);
    simpl; lia.
Defined.

Lemma rearrangePixels_rearranged (blk : list Z) width bit_count :
  0 <= width -> width * bit_count <= 8 * Z.of_nat (length blk) ->
  rearrangePixels blk width bit_count
  = Ok (rearranged bit_count (Z.to_nat width) blk).
Proof.
  intros Hw Hl. unfold rearrangePixels, rearranged.
  destruct (Z.eqb_spec bit_count 16) as [-> |]; [done |].
  destruct (Z.eqb_spec bit_count 24) as [-> |].
  { apply rearrange24_whole. lia. }
  destruct (Z.eqb_spec bit_count 32) as [-> |]; [| done].
  by rewrite rearrange32_whole by lia.
Qed.

(** ** The data of the uncompressed rows *)

Lemma fread_row (f : stream) (blk : list Z) size :
  0 <= st_pos f -> 0 <= size ->
  Z.of_nat (length blk) = size ->
  let r := fread f blk size 1 in
  st_data r.2 = st_data f
  /\ length r.1.1 = length blk
  /\ ((r.1.2 =? 1) = (0 <? size) && in_file (st_data f) (st_pos f) size)
  /\ (in_file (st_data f) (st_pos f) size = true ->
      r.1.1 = bytes_at (st_data f) (st_pos f) size).
Proof.
  intros Hpos Hsize Hl. unfold fread, in_file, bytes_at. cbn [fst snd].
  rewrite Z.mul_1_r.
  set (got := take (Z.to_nat size) (drop (Z.to_nat (st_pos f)) (st_data f))).
  assert (Z.of_nat (length got)
          = Z.min size (Z.max 0 (Z.of_nat (length (st_data f)) - st_pos f)))
    as Hgot by (unfold got; rewrite length_take, length_drop; lia).
  split; [done |]. split.
  { rewrite length_app, length_drop. lia. }
  split.
  - destruct (Z.eqb_spec size 0) as [-> | Hnz]; [done |].
    assert ((0 <? size) = true) as -> by (apply Z.ltb_lt; lia).
    cbn [andb].
    destruct (Z.leb_spec (st_pos f + size) (Z.of_nat (length (st_data f)))).
    + rewrite Hgot. replace (Z.min _ _) with size by lia.
      rewrite Z.div_same by lia. done.
    + assert (0 <= Z.of_nat (length got) < size) as Hlt by lia.
      rewrite (Z.div_small _ _ Hlt). done.
  - intros Hin. apply Z.leb_le in Hin.
    rewrite drop_ge by lia. by rewrite app_nil_r.
Qed.

Section RgbData.

Variables fseek_fails write_fails : Z -> bool.
Variable file_hdr : BMPFileHeader.
Variable info_hdr : BMPInfoHeader.
Variable data : list Z.

Local Abbreviation width := (image_width info_hdr).
Local Abbreviation rows := (image_length info_hdr).
Local Abbreviation size := (row_size width (iBitCount info_hdr)).

Hypothesis Hbits : 0 <= iBitCount info_hdr.
Hypothesis Hstride : width * iBitCount info_hdr + 31 < 2 ^ 32.
Hypothesis Hoff : 0 <= iOffBits file_hdr.
Hypothesis Hend : iOffBits file_hdr + rows * size < 2 ^ 32.
Hypothesis Hseek : forall o, fseek_fails o = false.

Lemma rgb_row_offset row :
  0 <= row < rows ->
  (if 0 <? iHeight info_hdr
   then u32 (iOffBits file_hdr + u32 (u32 (u32 (rows - row) - 1) * size))
   else u32 (iOffBits file_hdr + u32 (row * size)))
  = iOffBits file_hdr + file_row info_hdr row * size
  /\ 0 <= file_row info_hdr row < rows
  /\ 0 <= size.
Proof.
  intros Hrow.
  pose proof (u32_range (iWidth info_hdr)) as Hw.
  fold width in Hw.
  pose proof (u32_range (if 0 <? iHeight info_hdr then iHeight info_hdr
                         else - iHeight info_hdr)) as Hr.
  fold rows in Hr.
  assert (0 <= size) as Hsize.
  { pose proof (row_size_holds_row width (iBitCount info_hdr)
                  ltac:(lia) Hbits Hstride). nia. }
  unfold file_row. destruct (0 <? iHeight info_hdr).
  - rewrite (u32_small (rows - row)) by lia.
    rewrite (u32_small (rows - row - 1)) by lia.
    assert (0 <= (rows - row - 1) * size <= rows * size) by nia.
    rewrite (u32_small ((rows - row - 1) * size)) by lia.
    rewrite u32_small by lia.
    split; [| lia]. f_equal. f_equal. lia.
  - assert (0 <= row * size <= rows * size) by nia.
    rewrite (u32_small (row * size)) by lia.
    rewrite u32_small by lia. lia.
Qed.

Lemma rgb_rows_blocks n row f (scanbuf : list Z) :
  0 <= row -> row + Z.of_nat n = rows ->
  Z.of_nat (length scanbuf) = size ->
  st_data f = data ->
  iOffBits file_hdr + rows * size <= Z.of_nat (length data) ->
  scanline_blocks (rgb_rows fseek_fails write_fails file_hdr info_hdr size
                            n row f scanbuf)
  = (fun r =>
       (r, rearranged (iBitCount info_hdr) (Z.to_nat width)
             (bytes_at data (iOffBits file_hdr + file_row info_hdr r * size)
                       size)))
    <$> seqZ row (Z.of_nat n).
Proof.
  pose proof (u32_range (iWidth info_hdr)) as Hw.
  fold width in Hw.
  pose proof (u32_range (if 0 <? iHeight info_hdr then iHeight info_hdr
                         else - iHeight info_hdr)) as Hr.
  fold rows in Hr.
  revert row f scanbuf.
  induction n as [| n IH]; intros row f scanbuf H0 Hn Hl Hf Hall; [done |].
  rewrite seqZ_cons by lia. cbn [rgb_rows].
  replace (Z.pred (Z.of_nat (S n))) with (Z.of_nat n) by lia.
  destruct (rgb_row_offset row) as (-> & Hrow & Hsize); [lia |].
  set (offset := iOffBits file_hdr + file_row info_hdr row * size).
  rewrite Hseek.
  assert (0 <= offset) as Hofs by (unfold offset; nia).
  destruct (fread_row (seek f offset) scanbuf size Hofs Hsize Hl)
    as (Hd & Hfl & _ & Hblk).
  cbn [seek st_data st_pos] in Hd, Hblk. rewrite Hf in Hd, Hblk.
  destruct (fread (seek f offset) scanbuf size 1) as [[blk items] f']
    eqn:Hfread.
  cbn [fst snd] in Hd, Hfl, Hblk.
  assert (blk = bytes_at data offset size) as ->
    by (apply Hblk; unfold in_file, offset; apply Z.leb_le; nia).
  pose proof (row_size_holds_row width (iBitCount info_hdr)
                ltac:(lia) Hbits Hstride) as Hfit.
  rewrite rearrangePixels_rearranged by lia.
  unfold scanline_blocks. rewrite !omap_app. cbn [omap list_omap app].
  replace (omap _ (if items =? 1 then _ else _)) with (@nil (Z * list Z))
    by (by destruct (items =? 1)).
  replace (omap _ (if write_fails row then _ else _)) with (@nil (Z * list Z))
    by (by destruct (write_fails row)).
  cbn [app]. rewrite fmap_cons. f_equal.
  rewrite (u32_small (row + 1)) by lia.
  apply IH; try lia; try done.
  unfold rearranged.
  destruct (iBitCount info_hdr =? 24); [rewrite length_bgr_to_rgb; lia |].
  destruct (Z.eqb_spec (iBitCount info_hdr) 32) as [E32 |]; [| lia].
  assert (width * 32 <= 8 * size) by (rewrite <- E32 at 1; exact Hfit).
  rewrite length_app, length_drop, length_bgra_to_rgb by lia. lia.
Qed.

Lemma rgb_rows_read_errors n row f (scanbuf : list Z) :
  0 <= row -> row + Z.of_nat n = rows ->
  Z.of_nat (length scanbuf) = size ->
  st_data f = data ->
  read_errors (rgb_rows fseek_fails write_fails file_hdr info_hdr size
                        n row f scanbuf)
  = omap (fun r =>
            if (0 <? size)
               && in_file data
                    (iOffBits file_hdr + file_row info_hdr r * size) size
            then None else Some r)
         (seqZ row (Z.of_nat n)).
Proof.
  pose proof (u32_range (iWidth info_hdr)) as Hw.
  fold width in Hw.
  pose proof (u32_range (if 0 <? iHeight info_hdr then iHeight info_hdr
                         else - iHeight info_hdr)) as Hr.
  fold rows in Hr.
  revert row f scanbuf.
  induction n as [| n IH]; intros row f scanbuf H0 Hn Hl Hf; [done |].
  rewrite seqZ_cons by lia. cbn [rgb_rows].
  replace (Z.pred (Z.of_nat (S n))) with (Z.of_nat n) by lia.
  destruct (rgb_row_offset row) as (-> & Hrow & Hsize); [lia |].
  set (offset := iOffBits file_hdr + file_row info_hdr row * size).
  rewrite Hseek.
  assert (0 <= offset) as Hofs by (unfold offset; nia).
  destruct (fread_row (seek f offset) scanbuf size Hofs Hsize Hl)
    as (Hd & Hfl & Hitems & _).
  cbn [seek st_data st_pos] in Hd, Hitems. rewrite Hf in Hd, Hitems.
  destruct (fread (seek f offset) scanbuf size 1) as [[blk items] f']
    eqn:Hfread.
  cbn [fst snd] in Hd, Hfl, Hitems.
  destruct (rearrangePixels_ok blk width (iBitCount info_hdr))
    as (blk' & -> & Hl'); [lia | lia | lia | lia |].
  unfold read_errors. rewrite !omap_app. cbn [omap list_omap app].
  rewrite Hitems.
  replace (omap _ (if write_fails row then _ else _)) with (@nil Z)
    by (by destruct (write_fails row)).
  cbn [app]. rewrite (u32_small (row + 1)) by lia.
  fold (read_errors (rgb_rows fseek_fails write_fails file_hdr info_hdr size
                       n (row + 1) f' blk')).
  rewrite IH by (lia || done). subst offset.
  by destruct ((0 <? size) && in_file data _ size).
Qed.

End RgbData.

(** X11.  In the uncompressed path, when the file holds all the rows,
    no offset wraps around and no seek fails, the block handed to the
    sink for display row [r] is what rearrangePixels makes of the
    [size] bytes of the file at the offset of that row; nothing of an
    earlier row is left in the reused scan buffer. *)
Theorem rgb_rows_hold_the_file_rows
    (fseek_fails write_fails : Z -> bool)
    (file_hdr : BMPFileHeader) (info_hdr : BMPInfoHeader) (f : stream)
    (scanbuf comprbuf uncomprbuf : list Z) (fuel : nat) :
  let width := image_width info_hdr in
  let size := row_size width (iBitCount info_hdr) in
  iCompression info_hdr = BMPC_RGB ->
  0 <= iBitCount info_hdr ->
  width * iBitCount info_hdr + 31 < 2 ^ 32 ->
  0 <= iOffBits file_hdr ->
  iOffBits file_hdr + image_length info_hdr * size < 2 ^ 32 ->
  iOffBits file_hdr + image_length info_hdr * size
  <= Z.of_nat (length (st_data f)) ->
  (forall o, fseek_fails o = false) ->
  Z.of_nat (length scanbuf) = size ->
  exists evs,
    read_image fseek_fails write_fails file_hdr info_hdr f
               scanbuf comprbuf uncomprbuf fuel = Some evs
    /\ scanline_blocks evs
       = (fun r =>
            (r, rearranged (iBitCount info_hdr) (Z.to_nat width)
                  (bytes_at (st_data f)
                     (iOffBits file_hdr + file_row info_hdr r * size) size)))
         <$> seqZ 0 (image_length info_hdr).
Proof.
  intros width size Hc Hbits Hstride Hoff Hend Hall Hseek Hl.
  unfold read_image. rewrite Hc.
  change (BMPC_RGB =? BMPC_RGB) with true. cbv iota.
  eexists. split; [reflexivity |].
  pose proof (u32_range (if 0 <? iHeight info_hdr then iHeight info_hdr
                         else - iHeight info_hdr)) as Hr.
  fold (image_length info_hdr) in Hr.
  rewrite (rgb_rows_blocks fseek_fails write_fails file_hdr info_hdr
             (st_data f)); try done; try lia.
  by rewrite Z2Nat.id by lia.
Qed.

Lemma rgb_rows_hold_the_file_rows_witness :
  exists evs,
    read_image never never (hdr_at_54 rgb24_data) (rgb24_hdr 2)
               (file_of rgb24_data) (replicate 8 0) [] [] 0 = Some evs
    /\ scanline_blocks evs
       = [(0, [13; 12; 11; 16; 15; 14; 0; 0]);
          (1, [3; 2; 1; 6; 5; 4; 0; 0])].
Proof.
  apply (rgb_rows_hold_the_file_rows
           never never (hdr_at_54 rgb24_data) (rgb24_hdr 2)
           (file_of rgb24_data) (replicate 8 0) [] [] 0).
  - reflexivity.
  - discriminate.
  - reflexivity.
  - discriminate.
  - reflexivity.
  - discriminate.
  - reflexivity.
  - reflexivity.
Defined.

Lemma rgb_rows_scanlines fseek_fails write_fails file_hdr info_hdr n :
  forall row f (scanbuf : list Z),
  let size := row_size (image_width info_hdr) (iBitCount info_hdr) in
  0 <= iBitCount info_hdr ->
  image_width info_hdr * iBitCount info_hdr + 31 < 2 ^ 32 ->
  0 <= row -> row + Z.of_nat n < 2 ^ 32 ->
  Z.of_nat (length scanbuf) = size ->
  scanlines (rgb_rows fseek_fails write_fails file_hdr info_hdr size
                      n row f scanbuf)
  = (fun r => (r, 0)) <$> seqZ row (Z.of_nat n).
Proof.
  pose proof (u32_range (iWidth info_hdr)) as Hw.
  fold (image_width info_hdr) in Hw.
  induction n as [| n IH]; intros row f scanbuf size Hbits Hstride H0 Hn Hl;
    [done |].
  rewrite seqZ_cons by lia. cbn [rgb_rows].
  replace (Z.pred (Z.of_nat (S n))) with (Z.of_nat n) by lia.
  set (offset := if 0 <? iHeight info_hdr then _ else _).
  set (f1 := if fseek_fails offset then f else seek f offset).
  assert (0 <= size) as Hsize.
  { pose proof (row_size_holds_row (image_width info_hdr)
                  (iBitCount info_hdr) ltac:(lia) Hbits Hstride).
    unfold size. nia. }
  pose proof (fread_length f1 scanbuf size 1 ltac:(lia)) as Hfl.
  fold size.
  destruct (fread f1 scanbuf size 1) as [[blk items] f'] eqn:Hfread.
  cbn [fst] in Hfl.
  destruct (rearrangePixels_ok blk (image_width info_hdr)
              (iBitCount info_hdr))
    as (blk' & -> & Hl'); [lia | lia | lia | unfold size in *; lia |].
  unfold scanlines. rewrite !omap_app. cbn [omap list_omap app].
  replace (omap _ (if fseek_fails offset then _ else _)) with (@nil (Z * Z))
    by (by destruct (fseek_fails offset)).
  replace (omap _ (if items =? 1 then _ else _)) with (@nil (Z * Z))
    by (by destruct (items =? 1)).
  replace (omap _ (if write_fails row then _ else _)) with (@nil (Z * Z))
    by (by destruct (write_fails row)).
  cbn [app]. rewrite fmap_cons. f_equal.
  rewrite (u32_small (row + 1)) by lia.
  apply IH; try done; lia.
Qed.

(** X12.  A read error does not end the conversion.  In the
    uncompressed path, when no offset wraps around and no seek fails,
    [Read error] is printed for exactly the display rows whose [size]
    bytes are not all in the file, and for every row when [size] is 0;
    all the rows are handed to the sink nevertheless. *)
Theorem read_errors_are_the_rows_cut_off
    (fseek_fails write_fails : Z -> bool)
    (file_hdr : BMPFileHeader) (info_hdr : BMPInfoHeader) (f : stream)
    (scanbuf comprbuf uncomprbuf : list Z) (fuel : nat) :
  let width := image_width info_hdr in
  let size := row_size width (iBitCount info_hdr) in
  iCompression info_hdr = BMPC_RGB ->
  0 <= iBitCount info_hdr ->
  width * iBitCount info_hdr + 31 < 2 ^ 32 ->
  0 <= iOffBits file_hdr ->
  iOffBits file_hdr + image_length info_hdr * size < 2 ^ 32 ->
  (forall o, fseek_fails o = false) ->
  Z.of_nat (length scanbuf) = size ->
  exists evs,
    read_image fseek_fails write_fails file_hdr info_hdr f
               scanbuf comprbuf uncomprbuf fuel = Some evs
    /\ read_errors evs
       = omap (fun r =>
                 if (0 <? size)
                    && in_file (st_data f)
                         (iOffBits file_hdr + file_row info_hdr r * size)
                         size
                 then None else Some r)
              (seqZ 0 (image_length info_hdr))
    /\ scanlines evs
       = (fun r => (r, 0)) <$> seqZ 0 (image_length info_hdr).
Proof.
  intros width size Hc Hbits Hstride Hoff Hend Hseek Hl.
  unfold read_image. rewrite Hc.
  change (BMPC_RGB =? BMPC_RGB) with true. cbv iota.
  eexists. split; [reflexivity |].
  pose proof (u32_range (if 0 <? iHeight info_hdr then iHeight info_hdr
                         else - iHeight info_hdr)) as Hr.
  fold (image_length info_hdr) in Hr.
  split.
  - rewrite (rgb_rows_read_errors fseek_fails write_fails file_hdr info_hdr
               (st_data f)); try done; try lia.
    by rewrite Z2Nat.id by lia.
  - rewrite rgb_rows_scanlines; try done; try lia.
    by rewrite Z2Nat.id by lia.
Qed.

Lemma read_errors_are_the_rows_cut_off_witness :
  exists evs,
    read_image never never (hdr_at_54 (take 66 rgb24_data)) (rgb24_hdr 2)
               (file_of (take 66 rgb24_data)) (replicate 8 0) [] [] 0
    = Some evs
    /\ read_errors evs = [0]
    /\ scanlines evs = [(0, 0); (1, 0)].
Proof.
  apply (read_errors_are_the_rows_cut_off
           never never (hdr_at_54 (take 66 rgb24_data)) (rgb24_hdr 2)
           (file_of (take 66 rgb24_data)) (replicate 8 0) [] [] 0).
  - reflexivity.
  - discriminate.
  - reflexivity.
  - discriminate.
  - reflexivity.
  - reflexivity.
  - reflexivity.
Defined.

(** ** The row pointers of a decompressed image *)

Lemma rle_rows_pointers write_fails info_hdr (blk : list Z) n row :
  0 <= row ->
  row + Z.of_nat n = image_length info_hdr ->
  image_width info_hdr * image_length info_hdr < 2 ^ 32 ->
  row_pointers (rle_rows write_fails info_hdr blk n row)
  = (fun r => ((image_length info_hdr - 1 - r) * image_width info_hdr,
               Z.of_nat (length blk)))
    <$> seqZ row (Z.of_nat n).
Proof.
  pose proof (u32_range (iWidth info_hdr)) as Hw.
  fold (image_width info_hdr) in Hw.
  pose proof (u32_range (if 0 <? iHeight info_hdr then iHeight info_hdr
                         else - iHeight info_hdr)) as Hl.
  fold (image_length info_hdr) in Hl.
  revert row. induction n as [| n IH]; intros row H0 Hn Hno; [done |].
  rewrite seqZ_cons by lia. cbn [rle_rows].
  replace (Z.pred (Z.of_nat (S n))) with (Z.of_nat n) by lia.
  unfold row_pointers. rewrite fmap_cons, !omap_app.
  assert (0 <= (image_length info_hdr - row - 1) * image_width info_hdr
          < 2 ^ 32) as Hofs.
  { split; [apply Z.mul_nonneg_nonneg; lia |].
    apply Z.le_lt_trans
      with (image_length info_hdr * image_width info_hdr); [| lia].
    apply Z.mul_le_mono_nonneg_r; lia. }
  rewrite (u32_small (image_length info_hdr - row)) by lia.
  rewrite (u32_small (image_length info_hdr - row - 1)) by lia.
  rewrite (u32_small _ Hofs).
  rewrite (u32_small (row + 1)) by lia.
  replace (omap _ (if write_fails row then _ else _)) with (@nil (Z * Z))
    by (by destruct (write_fails row)).
  cbn [omap list_omap app]. f_equal.
  - by replace ((image_length info_hdr - row - 1) * image_width info_hdr)
      with ((image_length info_hdr - 1 - row) * image_width info_hdr) by lia.
  - apply IH; lia.
Qed.

(** X13.  For an RLE image whose [width * length] fits in 32 bits,
    whose blocks have the sizes the program asks for and whose
    decompression has ended without an access outside a block, the
    pointer handed to TIFFWriteScanline for display row [r] is at
    offset [(length - 1 - r) * width] of the decompressed block of
    [width * length] bytes, so that at least [width] bytes of the
    block lie behind every row pointer: one byte for each pixel of a
    row, as the decompressor stores them.  How many bytes
    TIFFWriteScanline takes from there is not settled in this file. *)
Theorem rle_row_pointers_stay_in_the_block
    (fseek_fails write_fails : Z -> bool)
    (file_hdr : BMPFileHeader) (info_hdr : BMPInfoHeader) (f : stream)
    (scanbuf comprbuf uncomprbuf : list Z) (fuel : nat) (s : rle_state) :
  let width := image_width info_hdr in
  let rows := image_length info_hdr in
  iCompression info_hdr = BMPC_RLE8 \/ iCompression info_hdr = BMPC_RLE4 ->
  width * rows < 2 ^ 32 ->
  compr_size_of file_hdr < 2 ^ 32 - 1 ->
  Z.of_nat (length comprbuf) = compr_size_of file_hdr ->
  Z.of_nat (length uncomprbuf) = uncompr_size_of info_hdr ->
  decompress_image fseek_fails file_hdr info_hdr f comprbuf uncomprbuf fuel
  = Some (Ok s) ->
  exists evs,
    read_image fseek_fails write_fails file_hdr info_hdr f
               scanbuf comprbuf uncomprbuf fuel = Some evs
    /\ row_pointers evs
       = (fun r => ((rows - 1 - r) * width, width * rows)) <$> seqZ 0 rows
    /\ Forall (fun p => 0 <= p.1 /\ p.1 + width <= p.2) (row_pointers evs).
Proof.
  intros width rows Hc Hno Hmax Hcl Hul Hd. subst width rows.
  set (width := image_width info_hdr) in *.
  set (rows := image_length info_hdr) in *.
  assert (0 <= width < 2 ^ 32) as Hw by apply u32_range.
  assert (0 <= rows < 2 ^ 32) as Hl by apply u32_range.
  assert (Z.of_nat (length (rs_out s)) = width * rows) as Hout.
  { unfold decompress_image in Hd.
    apply rle_decompress_safe in Hd as (_ & _ & Hlen & _); try done.
    - rewrite Hlen, Hul. unfold uncompr_size_of. fold width rows.
      apply u32_small. nia.
    - unfold read_compressed. rewrite fread_length; lia. }
  unfold read_image. rewrite Hd.
  assert ((iCompression info_hdr =? BMPC_RGB) = false) as ->
    by (destruct Hc as [-> | ->]; reflexivity).
  assert (((iCompression info_hdr =? BMPC_RLE8)
           || (iCompression info_hdr =? BMPC_RLE4)) = true) as ->
    by (destruct Hc as [-> | ->]; reflexivity).
  eexists. split; [reflexivity |].
  match goal with |- row_pointers ?evs = _ /\ _ =>
    assert (row_pointers evs
            = (fun r => ((rows - 1 - r) * width, width * rows))
                <$> seqZ 0 rows) as -> end.
  { unfold row_pointers. rewrite omap_app. cbn [omap list_omap app].
    fold (row_pointers (rle_rows write_fails info_hdr (rs_out s)
                                 (Z.to_nat rows) 0)).
    rewrite rle_rows_pointers by (fold width rows; lia).
    fold width rows. by rewrite Z2Nat.id, Hout by lia. }
  split; [done |].
  apply Forall_fmap, Forall_forall.
  intros r Hr. apply elem_of_seqZ in Hr. cbn [compose fst snd].
  split; [nia |].
  assert ((rows - 1 - r) * width + width = (rows - r) * width) as -> by lia.
  rewrite (Z.mul_comm width rows).
  apply Z.mul_le_mono_nonneg_r; lia.
Qed.

Lemma rle_row_pointers_stay_in_the_block_witness :
  exists evs,
    read_image never never (hdr_at_54 rle8_4x2_data) rle8_4x2_hdr
               (file_of rle8_4x2_data) [] (replicate 6 0) (replicate 8 0) 7
    = Some evs
    /\ row_pointers evs = [(4, 8); (0, 8)]
    /\ Forall (fun p => 0 <= p.1 /\ p.1 + 4 <= p.2) (row_pointers evs).
Proof.
  apply (rle_row_pointers_stay_in_the_block
           never never (hdr_at_54 rle8_4x2_data) rle8_4x2_hdr
           (file_of rle8_4x2_data) [] (replicate 6 0) (replicate 8 0) 7
           {| rs_i := 4; rs_j := 8; rs_out := [1; 1; 1; 1; 2; 2; 2; 2];
              rs_stores := [7; 6; 5; 4; 3; 2; 1; 0] |}).
  - left. reflexivity.
  - reflexivity.
  - reflexivity.
  - reflexivity.
  - reflexivity.
  - vm_compute. reflexivity.
Defined.

(** ** The escapes that store nothing *)

Lemma escape_end_of_line (comprbuf : list Z) compr_size width abs s :
  Z.of_nat (length comprbuf) < 2 ^ 32 - 1 ->
  0 <= rs_i s ->
  comprbuf !! Z.to_nat (rs_i s + 1) = Some 0 ->
  escape comprbuf compr_size width abs s
  = Ok (Again (set_ij (rs_i s + 2) (rs_j s) s)).
Proof.
  intros Hmax Hi Hb1.
  assert (rs_i s + 1 < Z.of_nat (length comprbuf)) as Hi1
    by (apply lookup_lt_Some in Hb1; lia).
  unfold escape. rewrite !incr_i_eq. cbn [rs_i rs_j rs_out rs_stores].
  rewrite (u32_small (rs_i s + 1)) by lia.
  rewrite (load_lookup _ (rs_i s + 1) _ ltac:(lia) Hb1). cbn [bind].
  change (0 =? 0) with true. cbv iota.
  rewrite (u32_small (rs_i s + 1 + 1)) by lia.
  unfold set_ij. do 3 f_equal. lia.
Qed.

(** X14.  The end-of-line escape [0, 0] is stepped over in both loops:
    the cursor of the compressed block moves by 2, nothing is stored
    and the output cursor stays where it is; it is not moved to the
    start of the next row. *)
Theorem end_of_line_is_stepped_over (comprbuf : list Z)
    (compr_size uncompr_size width : Z) (s : rle_state) :
  Z.of_nat (length comprbuf) < 2 ^ 32 - 1 ->
  0 <= rs_i s ->
  comprbuf !! Z.to_nat (rs_i s) = Some 0 ->
  comprbuf !! Z.to_nat (rs_i s + 1) = Some 0 ->
  rle8_body comprbuf compr_size uncompr_size width s
  = Ok (Again (set_ij (rs_i s + 2) (rs_j s) s))
  /\ rle4_body comprbuf compr_size uncompr_size width s
     = Ok (Again (set_ij (rs_i s + 2) (rs_j s) s)).
Proof.
  intros Hmax Hi Hb0 Hb1. unfold rle8_body, rle4_body.
  rewrite (load_lookup _ _ _ Hi Hb0). cbn [bind].
  change (nonzero 0) with false. cbv iota.
  split; by apply escape_end_of_line.
Qed.

Lemma end_of_line_is_stepped_over_witness :
  rle8_body [3; 7; 0; 0; 3; 8] 6 8 4
    {| rs_i := 2; rs_j := 3; rs_out := [7; 7; 7; 9; 9; 9; 9; 9];
       rs_stores := [2; 1; 0] |}
  = Ok (Again {| rs_i := 4; rs_j := 3; rs_out := [7; 7; 7; 9; 9; 9; 9; 9];
                 rs_stores := [2; 1; 0] |})
  /\ rle4_body [3; 7; 0; 0; 3; 8] 6 8 4
       {| rs_i := 2; rs_j := 3; rs_out := [7; 7; 7; 9; 9; 9; 9; 9];
          rs_stores := [2; 1; 0] |}
     = Ok (Again {| rs_i := 4; rs_j := 3;
                    rs_out := [7; 7; 7; 9; 9; 9; 9; 9];
                    rs_stores := [2; 1; 0] |}).
Proof.
  apply (end_of_line_is_stepped_over [3; 7; 0; 0; 3; 8] 6 8 4
           {| rs_i := 2; rs_j := 3; rs_out := [7; 7; 7; 9; 9; 9; 9; 9];
              rs_stores := [2; 1; 0] |}).
  - reflexivity.
  - discriminate.
  - reflexivity.
  - reflexivity.
Defined.

Lemma u32_add_u32_r a b : u32 (a + u32 b) = u32 (a + b).
Proof. unfold u32. by rewrite Zplus_mod_idemp_r. Qed.

Lemma escape_delta (comprbuf : list Z) compr_size width abs s dx dy :
  Z.of_nat (length comprbuf) = compr_size ->
  compr_size < 2 ^ 32 - 1 ->
  0 <= rs_i s ->
  comprbuf !! Z.to_nat (rs_i s + 1) = Some 2 ->
  comprbuf !! Z.to_nat (rs_i s + 2) = Some dx ->
  comprbuf !! Z.to_nat (rs_i s + 3) = Some dy ->
  escape comprbuf compr_size width abs s
  = Ok (Again (set_ij (rs_i s + 4) (u32 (rs_j s + dx + dy * width)) s)).
Proof.
  intros Hcs Hmax Hi Hb1 Hdx Hdy.
  assert (rs_i s + 3 < Z.of_nat (length comprbuf)) as Hi3
    by (apply lookup_lt_Some in Hdy; lia).
  unfold escape. rewrite !incr_i_eq. cbn [rs_i rs_j rs_out rs_stores].
  rewrite (u32_small (rs_i s + 1)) by lia.
  rewrite (load_lookup _ (rs_i s + 1) _ ltac:(lia) Hb1). cbn [bind].
  change (2 =? 0) with false. change (2 =? 1) with false.
  change (2 =? 2) with true. cbv iota.
  rewrite (u32_small (rs_i s + 1 + 1)) by lia.
  rewrite (u32_small (compr_size - 1)) by lia.
  destruct (Z.ltb_spec (rs_i s + 1 + 1) (compr_size - 1)); [| lia].
  replace (rs_i s + 1 + 1) with (rs_i s + 2) by lia.
  rewrite (load_lookup _ (rs_i s + 2) _ ltac:(lia) Hdx). cbn [bind].
  replace (rs_i s + 2 + 1) with (rs_i s + 3) by lia.
  rewrite (load_lookup _ (rs_i s + 3) _ ltac:(lia) Hdy). cbn [bind].
  rewrite (u32_small (rs_i s + 2 + 2)) by lia.
  rewrite (u32_add_u32_r dx), u32_add_u32_r.
  unfold set_ij. cbn [rs_out rs_stores].
  do 2 f_equal. f_equal; [lia | f_equal; lia].
Qed.

(** X15.  The delta escape [0, 2, dx, dy] stores nothing: in both
    loops it moves the cursor of the compressed block by 4 and the
    output cursor forward by [dx + dy * width], modulo 2^32; the
    positions it passes over keep what they held. *)
Theorem delta_moves_the_output_cursor (comprbuf : list Z)
    (compr_size uncompr_size width : Z) (s : rle_state) (dx dy : Z) :
  Z.of_nat (length comprbuf) = compr_size ->
  compr_size < 2 ^ 32 - 1 ->
  0 <= rs_i s ->
  comprbuf !! Z.to_nat (rs_i s) = Some 0 ->
  comprbuf !! Z.to_nat (rs_i s + 1) = Some 2 ->
  comprbuf !! Z.to_nat (rs_i s + 2) = Some dx ->
  comprbuf !! Z.to_nat (rs_i s + 3) = Some dy ->
  let s' := set_ij (rs_i s + 4) ((rs_j s + dx + dy * width) mod 2 ^ 32) s in
  rle8_body comprbuf compr_size uncompr_size width s = Ok (Again s')
  /\ rle4_body comprbuf compr_size uncompr_size width s = Ok (Again s').
Proof.
  intros Hcs Hmax Hi Hb0 Hb1 Hdx Hdy s'. unfold rle8_body, rle4_body.
  rewrite (load_lookup _ _ _ Hi Hb0). cbn [bind].
  change (nonzero 0) with false. cbv iota.
  split; by apply escape_delta.
Qed.

Lemma delta_moves_the_output_cursor_witness :
  let s := {| rs_i := 0; rs_j := 1; rs_out := [9; 9; 9; 9; 9; 9; 9; 9];
              rs_stores := [] |} in
  let s' := {| rs_i := 4; rs_j := 6; rs_out := [9; 9; 9; 9; 9; 9; 9; 9];
               rs_stores := [] |} in
  rle8_body [0; 2; 1; 1; 0; 1] 6 8 4 s = Ok (Again s')
  /\ rle4_body [0; 2; 1; 1; 0; 1] 6 8 4 s = Ok (Again s').
Proof.
  apply (delta_moves_the_output_cursor [0; 2; 1; 1; 0; 1] 6 8 4
           {| rs_i := 0; rs_j := 1; rs_out := [9; 9; 9; 9; 9; 9; 9; 9];
              rs_stores := [] |} 1 1).
  - reflexivity.
  - reflexivity.
  - discriminate.
  - reflexivity.
  - reflexivity.
  - reflexivity.
  - reflexivity.
Defined.

(** ** The colour table *)

Lemma clr_tbl_size_of_nonneg depth iClrUsed :
  depth ∈ [1; 4; 8] -> 0 <= iClrUsed ->
  clr_tbl_size_of depth iClrUsed
  = if iClrUsed =? 0 then 2 ^ depth else Z.min (2 ^ depth) iClrUsed.
Proof.
  intros Hd Hc. unfold clr_tbl_size_of, nonzero.
  assert (Z.shiftl 1 depth = 2 ^ depth /\ 2 <= 2 ^ depth <= 256)
    as [-> Hp].
  { repeat (apply elem_of_cons in Hd as [-> | Hd]; [by vm_compute |]).
    by apply elem_of_nil in Hd. }
  destruct (Z.eqb_spec iClrUsed 0); cbn [negb]; [apply u32_small; lia |].
  destruct (Z.ltb_spec (2 ^ depth) iClrUsed); rewrite u32_small; lia.
Qed.

Lemma colormap_bytes_holds depth :
  depth ∈ [1; 4; 8] -> 2 * 2 ^ depth <= colormap_bytes depth.
Proof.
  intros Hd. unfold colormap_bytes.
  repeat (apply elem_of_cons in Hd as [-> | Hd]; [by vm_compute |]).
  by apply elem_of_nil in Hd.
Qed.

Lemma store_lookup (buf : list Z) j v buf' (k : nat) :
  store buf j v = Ok buf' ->
  length buf' = length buf
  /\ 0 <= j < Z.of_nat (length buf)
  /\ buf' !! k = if decide (k = Z.to_nat j) then Some v else buf !! k.
Proof.
  unfold store. intros H.
  destruct (Z.ltb_spec j 0); [done |].
  destruct (Z.leb_spec (Z.of_nat (length buf)) j); [done |].
  cbn [orb] in H. injection H as <-.
  split; [by rewrite length_insert |]. split; [lia |].
  destruct (decide (k = Z.to_nat j)) as [-> |].
  - apply list_lookup_insert_eq. lia.
  - by apply list_lookup_insert_ne.
Qed.

Section ClrLoop.

Variable n_clr_elems : Z.
Variable clr_tbl : list Z.
Hypothesis Hn : 3 <= n_clr_elems.

(** In blocks that are long enough the loop stays inside them; entry
    [k] of a map is 257 times a byte of the table for the [n] entries
    from [clr] on, and what it was elsewhere. *)
Lemma clr_loop_spec n : forall clr (m : colormap),
  0 <= clr ->
  (clr + Z.of_nat n) * n_clr_elems <= Z.of_nat (length clr_tbl) ->
  Z.of_nat (length clr_tbl) < 2 ^ 32 ->
  clr + Z.of_nat n <= Z.of_nat (length (red_tbl m)) ->
  clr + Z.of_nat n <= Z.of_nat (length (green_tbl m)) ->
  clr + Z.of_nat n <= Z.of_nat (length (blue_tbl m)) ->
  exists m',
    clr_loop n_clr_elems clr_tbl n clr m = Ok m'
    /\ length (red_tbl m') = length (red_tbl m)
    /\ length (green_tbl m') = length (green_tbl m)
    /\ length (blue_tbl m') = length (blue_tbl m)
    /\ forall k : nat,
         if bool_decide (clr <= Z.of_nat k < clr + Z.of_nat n)
         then red_tbl m' !! k
              = (fun b => u16 (257 * b))
                  <$> clr_tbl !! Z.to_nat (Z.of_nat k * n_clr_elems + 2)
              /\ green_tbl m' !! k
                 = (fun b => u16 (257 * b))
                     <$> clr_tbl !! Z.to_nat (Z.of_nat k * n_clr_elems + 1)
              /\ blue_tbl m' !! k
                 = (fun b => u16 (257 * b))
                     <$> clr_tbl !! Z.to_nat (Z.of_nat k * n_clr_elems)
         else red_tbl m' !! k = red_tbl m !! k
              /\ green_tbl m' !! k = green_tbl m !! k
              /\ blue_tbl m' !! k = blue_tbl m !! k.
Proof.
  induction n as [| n IH]; intros clr m Hclr Htbl Hmax Hr Hg Hb.
  { exists m. cbn [clr_loop]. repeat split; try done.
    intros k. rewrite bool_decide_eq_false_2 by lia. done. }
  cbn [clr_loop].
  assert (0 <= clr * n_clr_elems) by nia.
  assert (clr * n_clr_elems + n_clr_elems <= Z.of_nat (length clr_tbl))
    by nia.
  rewrite (u32_small (clr * n_clr_elems)) by lia.
  rewrite (u32_small (clr * n_clr_elems + 2)) by lia.
  rewrite (u32_small (clr * n_clr_elems + 1)) by lia.
  destruct (load_inside clr_tbl (clr * n_clr_elems + 2)) as [r Lr]; [lia |].
  destruct (load_inside clr_tbl (clr * n_clr_elems + 1)) as [g Lg]; [lia |].
  destruct (load_inside clr_tbl (clr * n_clr_elems)) as [b Lb]; [lia |].
  rewrite Lr, Lg, Lb. cbn [bind].
  rewrite !store_inside by lia. cbn [bind].
  rewrite (u32_small (clr + 1)) by lia.
  match goal with |- context [clr_loop _ _ n _ ?m1] =>
    destruct (IH (clr + 1) m1) as (m' & -> & Hlr & Hlg & Hlb & Hk) end;
    cbn [red_tbl green_tbl blue_tbl]; rewrite ?length_insert; try lia.
  cbn [red_tbl green_tbl blue_tbl] in *.
  rewrite length_insert in Hlr, Hlg, Hlb.
  exists m'. repeat split; try done.
  intros k. specialize (Hk k).
  apply load_Ok in Lr as [_ Lr]. apply load_Ok in Lg as [_ Lg].
  apply load_Ok in Lb as [_ Lb].
  destruct (decide (Z.of_nat k = clr)) as [E | NE].
  - rewrite bool_decide_eq_false_2 in Hk by lia.
    rewrite bool_decide_eq_true_2 by lia.
    destruct Hk as (-> & -> & ->). rewrite E, Lr, Lg, Lb.
    replace k with (Z.to_nat clr) by lia.
    rewrite !list_lookup_insert_eq by lia. done.
  - destruct (bool_decide (clr + 1 <= Z.of_nat k
                           < clr + 1 + Z.of_nat n)) eqn:Ek.
    + apply bool_decide_eq_true_1 in Ek.
      rewrite bool_decide_eq_true_2 by lia. done.
    + apply bool_decide_eq_false_1 in Ek.
      rewrite bool_decide_eq_false_2 by lia.
      destruct Hk as (-> & -> & ->).
      rewrite !list_lookup_insert_ne by lia. done.
Qed.

(** With fewer entries in a map than passes the loop stores past the
    end of the map, if it does not load past the end of the table
    first. *)
Lemma clr_loop_overruns n : forall clr (m : colormap),
  0 <= clr <= Z.of_nat (length (red_tbl m)) ->
  Z.of_nat (length (red_tbl m)) < 2 ^ 32 - 1 ->
  Z.of_nat (length (red_tbl m)) < clr + Z.of_nat n ->
  exists f, clr_loop n_clr_elems clr_tbl n clr m = Ub f.
Proof.
  induction n as [| n IH]; intros clr m Hclr Hmax Hover; [lia |].
  cbn [clr_loop].
  destruct (load clr_tbl _) as [r | f]; [| by exists f]. cbn [bind].
  destruct (store (red_tbl m) clr _) as [red | f] eqn:Sr;
    [| by exists f].
  cbn [bind].
  destruct (load clr_tbl _) as [g | f]; [| by exists f]. cbn [bind].
  destruct (store (green_tbl m) clr _) as [green | f]; [| by exists f].
  cbn [bind].
  destruct (load clr_tbl _) as [b | f]; [| by exists f]. cbn [bind].
  destruct (store (blue_tbl m) clr _) as [blue | f]; [| by exists f].
  cbn [bind].
  destruct (store_lookup _ _ _ _ 0%nat Sr) as (Hl & Hin & _).
  rewrite (u32_small (clr + 1)) by lia.
  apply IH; cbn [red_tbl]; lia.
Qed.

End ClrLoop.

Lemma fread_into_fits (f : stream) (blk : list Z) size nmemb :
  0 <= size * nmemb <= Z.of_nat (length blk) ->
  exists blk' items f',
    fread_into f blk size nmemb = Ok (blk', items, f')
    /\ length blk' = length blk
    /\ forall k : nat,
         (k < length (bytes_at (st_data f) (st_pos f) (size * nmemb)))%nat ->
         blk' !! k = bytes_at (st_data f) (st_pos f) (size * nmemb) !! k.
Proof.
  intros Hfit. unfold fread_into, fread, bytes_at. cbn [fst snd].
  set (got := take (Z.to_nat (size * nmemb))
                   (drop (Z.to_nat (st_pos f)) (st_data f))).
  assert (length got <= length blk)%nat as Hgot
    by (unfold got; rewrite length_take; lia).
  assert (length (got ++ drop (length got) blk) = length blk) as Hl
    by (rewrite length_app, length_drop; lia).
  rewrite Hl. destruct (Nat.ltb_spec (length blk) (length blk)); [lia |].
  eexists _, _, _. split; [reflexivity |]. split; [done |].
  intros k Hk. by rewrite lookup_app_l.
Qed.

Section ColourTable.

Variable fseek_fails : Z -> bool.
Variable info_hdr : BMPInfoHeader.
Variables iClrUsed n_clr_elems : Z.
Variable f : stream.
Variable clr_tbl : list Z.
Variable m : colormap.

Local Abbreviation depth := (iBitCount info_hdr).
Local Abbreviation clr_tbl_size := (clr_tbl_size_of depth iClrUsed).

Hypothesis Hdepth : depth ∈ [1; 4; 8].
Hypothesis Hn : n_clr_elems = 3 \/ n_clr_elems = 4.
Hypothesis Hclr : Z.of_nat (length clr_tbl)
                  = clr_tbl_bytes n_clr_elems clr_tbl_size.
Hypothesis Hred : 2 * Z.of_nat (length (red_tbl m)) = colormap_bytes depth.
Hypothesis Hgreen :
  2 * Z.of_nat (length (green_tbl m)) = colormap_bytes depth.
Hypothesis Hblue : 2 * Z.of_nat (length (blue_tbl m)) = colormap_bytes depth.

Lemma colour_table_spec :
  0 <= iClrUsed ->
  let f1 := if fseek_fails (u32 (BFH_SIZE + iSize info_hdr)) then f
            else seek f (u32 (BFH_SIZE + iSize info_hdr)) in
  let file_tbl := bytes_at (st_data f1) (st_pos f1)
                           (n_clr_elems * clr_tbl_size) in
  exists m',
    colour_table fseek_fails info_hdr iClrUsed n_clr_elems f clr_tbl m
    = Ok m'
    /\ length (red_tbl m') = length (red_tbl m)
    /\ length (green_tbl m') = length (green_tbl m)
    /\ length (blue_tbl m') = length (blue_tbl m)
    /\ (forall k : nat,
          clr_tbl_size <= Z.of_nat k ->
          red_tbl m' !! k = red_tbl m !! k
          /\ green_tbl m' !! k = green_tbl m !! k
          /\ blue_tbl m' !! k = blue_tbl m !! k)
    /\ (forall (k : nat) (c : Z) (b : Z),
          Z.of_nat k < clr_tbl_size -> 0 <= c ->
          file_tbl !! Z.to_nat (Z.of_nat k * n_clr_elems + c) = Some b ->
          (c = 2 -> red_tbl m' !! k = Some (u16 (257 * b)))
          /\ (c = 1 -> green_tbl m' !! k = Some (u16 (257 * b)))
          /\ (c = 0 -> blue_tbl m' !! k = Some (u16 (257 * b)))).
Proof.
  intros Hused f1 file_tbl.
  pose proof (clr_tbl_size_of_nonneg depth iClrUsed Hdepth Hused) as Hsize.
  pose proof (colormap_bytes_holds depth Hdepth) as Hcap.
  assert (2 <= 2 ^ depth <= 256) as Hp.
  { clear -Hdepth.
    repeat (apply elem_of_cons in Hdepth as [-> | Hdepth]; [by vm_compute |]).
    by apply elem_of_nil in Hdepth. }
  assert (0 <= clr_tbl_size <= 2 ^ depth) as Hs
    by (rewrite Hsize; destruct (iClrUsed =? 0); lia).
  assert (clr_tbl_bytes n_clr_elems clr_tbl_size
          = n_clr_elems * clr_tbl_size) as Hbytes
    by (unfold clr_tbl_bytes; apply u32_small; nia).
  unfold colour_table. fold f1.
  destruct (fread_into_fits f1 clr_tbl n_clr_elems clr_tbl_size)
    as (tbl & items & f' & -> & Htl & Htbl); [nia |].
  cbn [bind].
  destruct (clr_loop_spec n_clr_elems tbl ltac:(lia)
              (Z.to_nat clr_tbl_size) 0 m)
    as (m' & -> & Hlr & Hlg & Hlb & Hk); try lia; try nia.
  exists m'. split; [done |]. do 3 (split; [done |]). split.
  - intros k Hge. specialize (Hk k).
    by rewrite bool_decide_eq_false_2 in Hk by lia.
  - intros k c b Hlt Hc Hb. specialize (Hk k).
    rewrite bool_decide_eq_true_2 in Hk by lia.
    destruct Hk as (Hkr & Hkg & Hkb).
    assert (forall i : nat, file_tbl !! i = Some b -> tbl !! i = Some b)
      as Hfile.
    { intros i Hi. rewrite Htbl; [done |]. by eapply lookup_lt_Some. }
    repeat split; intros ->.
    + by rewrite Hkr, (Hfile _ Hb).
    + by rewrite Hkg, (Hfile _ Hb).
    + rewrite Z.add_0_r in Hb. by rewrite Hkb, (Hfile _ Hb).
Qed.

End ColourTable.

(** X16.  For a 1, 4 or 8-bit image with [iClrUsed >= 0] the colour
    map has [2 ^ depth] entries when [iClrUsed] is 0 and the smaller of
    [2 ^ depth] and [iClrUsed] otherwise; when the file holds that many
    table entries behind the info header, entry [clr] of the red,
    green and blue maps is 257 times byte 2, 1 and 0 of entry [clr] of
    the file's table, whose entries are [n_clr_elems] bytes wide. *)
Theorem colour_map_entries_come_from_the_file
    (fseek_fails : Z -> bool) (info_hdr : BMPInfoHeader)
    (iClrUsed n_clr_elems : Z) (f : stream) (clr_tbl : list Z)
    (m : colormap) :
  let depth := iBitCount info_hdr in
  let size := if iClrUsed =? 0 then 2 ^ depth
              else Z.min (2 ^ depth) iClrUsed in
  let ofs := BFH_SIZE + iSize info_hdr in
  depth ∈ [1; 4; 8] ->
  n_clr_elems = 3 \/ n_clr_elems = 4 ->
  0 <= iClrUsed ->
  0 <= iSize info_hdr -> ofs < 2 ^ 32 ->
  (forall o, fseek_fails o = false) ->
  Forall (fun b => 0 <= b < 256) (st_data f) ->
  ofs + n_clr_elems * size <= Z.of_nat (length (st_data f)) ->
  Z.of_nat (length clr_tbl)
  = clr_tbl_bytes n_clr_elems (clr_tbl_size_of depth iClrUsed) ->
  2 * Z.of_nat (length (red_tbl m)) = colormap_bytes depth ->
  2 * Z.of_nat (length (green_tbl m)) = colormap_bytes depth ->
  2 * Z.of_nat (length (blue_tbl m)) = colormap_bytes depth ->
  exists m',
    colour_table fseek_fails info_hdr iClrUsed n_clr_elems f clr_tbl m
    = Ok m'
    /\ forall clr : nat,
         Z.of_nat clr < size ->
         red_tbl m' !! clr
         = Z.mul 257
             <$> st_data f !! Z.to_nat (ofs + Z.of_nat clr * n_clr_elems + 2)
         /\ green_tbl m' !! clr
            = Z.mul 257
                <$> st_data f
                      !! Z.to_nat (ofs + Z.of_nat clr * n_clr_elems + 1)
         /\ blue_tbl m' !! clr
            = Z.mul 257
                <$> st_data f !! Z.to_nat (ofs + Z.of_nat clr * n_clr_elems).
Proof.
  intros depth size ofs Hdepth Hn Hused Hsz Hofs Hseek Hbytes Hall
         Hclr Hred Hgreen Hblue.
  destruct (colour_table_spec fseek_fails info_hdr iClrUsed n_clr_elems f
              clr_tbl m Hdepth Hn Hclr Hred Hgreen Hblue Hused)
    as (m' & Hrun & _ & _ & _ & _ & Hentries).
  rewrite Hseek in Hentries. cbn [seek st_data st_pos] in Hentries.
  rewrite (u32_small (BFH_SIZE + iSize info_hdr)) in Hentries
    by (unfold ofs in Hofs; unfold BFH_SIZE in *; lia).
  fold ofs depth in Hentries.
  rewrite (clr_tbl_size_of_nonneg depth iClrUsed Hdepth Hused) in Hentries.
  fold size in Hentries.
  assert (0 <= size) as Hsize.
  { unfold size. clear -Hdepth Hused.
    assert (0 < 2 ^ depth) by (apply Z.pow_pos_nonneg; [lia |];
      repeat (apply elem_of_cons in Hdepth as [-> | Hdepth]; [lia |]);
      by apply elem_of_nil in Hdepth).
    destruct (iClrUsed =? 0); lia. }
  exists m'. split; [exact Hrun |]. intros clr Hlt.
  assert (forall c, 0 <= c < n_clr_elems ->
            exists b, st_data f
                        !! Z.to_nat (ofs + Z.of_nat clr * n_clr_elems + c)
                      = Some b
                      /\ u16 (257 * b) = 257 * b
                      /\ bytes_at (st_data f) ofs (n_clr_elems * size)
                           !! Z.to_nat (Z.of_nat clr * n_clr_elems + c)
                         = Some b) as Hbyte.
  { intros c Hc.
    destruct (lookup_lt_is_Some_2 (st_data f)
                (Z.to_nat (ofs + Z.of_nat clr * n_clr_elems + c)))
      as [b Hb]; [unfold ofs, BFH_SIZE in *; nia |].
    exists b. split; [exact Hb |]. split.
    - pose proof (Forall_lookup_1 _ _ _ _ Hbytes Hb) as Hrange.
      cbv beta in Hrange. unfold u16. apply Z.mod_small. lia.
    - unfold bytes_at. rewrite lookup_take_lt by nia.
      rewrite lookup_drop, <- Hb. f_equal.
      unfold ofs, BFH_SIZE in *. nia. }
  destruct (Hbyte 2 ltac:(lia)) as (r & -> & Hr16 & Hr).
  destruct (Hbyte 1 ltac:(lia)) as (g & -> & Hg16 & Hg).
  destruct (Hbyte 0 ltac:(lia)) as (b & Hb & Hb16 & Hb').
  rewrite Z.add_0_r in Hb. rewrite Hb. cbn [fmap option_fmap option_map].
  rewrite <- Hr16, <- Hg16, <- Hb16.
  destruct (Hentries clr 2 r Hlt ltac:(lia) Hr) as (Hr' & _ & _).
  destruct (Hentries clr 1 g Hlt ltac:(lia) Hg) as (_ & Hg' & _).
  destruct (Hentries clr 0 b Hlt ltac:(lia) Hb') as (_ & _ & Hb'').
  by rewrite (Hr' eq_refl), (Hg' eq_refl), (Hb'' eq_refl).
Qed.

Lemma colour_map_entries_come_from_the_file_witness :
  exists m',
    colour_table never mono_hdr 0 4 (file_of mono_data) (replicate 8 0)
                 fresh_maps = Ok m'
    /\ forall clr : nat,
         Z.of_nat clr < 2 ->
         red_tbl m' !! clr
         = Z.mul 257 <$> mono_data !! Z.to_nat (54 + Z.of_nat clr * 4 + 2)
         /\ green_tbl m' !! clr
            = Z.mul 257 <$> mono_data !! Z.to_nat (54 + Z.of_nat clr * 4 + 1)
         /\ blue_tbl m' !! clr
            = Z.mul 257 <$> mono_data !! Z.to_nat (54 + Z.of_nat clr * 4).
Proof.
  apply (colour_map_entries_come_from_the_file
           never mono_hdr 0 4 (file_of mono_data) (replicate 8 0)
           fresh_maps).
  - repeat constructor.
  - right. reflexivity.
  - reflexivity.
  - discriminate.
  - reflexivity.
  - reflexivity.
  - apply Forall_app. split; [apply Forall_replicate; lia |].
    repeat (constructor; [lia |]). constructor.
  - discriminate.
  - reflexivity.
  - reflexivity.
  - reflexivity.
  - reflexivity.
Defined.

(** X17.  With [iClrUsed >= 0] and blocks of the sizes the program asks
    for, reading and building the colour map never leaves a block,
    whatever the file holds; the entries of the three maps from
    [clr_tbl_size] on are never written and keep what the allocator
    left there. *)
Theorem colour_map_rest_is_not_written
    (fseek_fails : Z -> bool) (info_hdr : BMPInfoHeader)
    (iClrUsed n_clr_elems : Z) (f : stream) (clr_tbl : list Z)
    (m : colormap) :
  let depth := iBitCount info_hdr in
  depth ∈ [1; 4; 8] ->
  n_clr_elems = 3 \/ n_clr_elems = 4 ->
  0 <= iClrUsed ->
  Z.of_nat (length clr_tbl)
  = clr_tbl_bytes n_clr_elems (clr_tbl_size_of depth iClrUsed) ->
  2 * Z.of_nat (length (red_tbl m)) = colormap_bytes depth ->
  2 * Z.of_nat (length (green_tbl m)) = colormap_bytes depth ->
  2 * Z.of_nat (length (blue_tbl m)) = colormap_bytes depth ->
  exists m',
    colour_table fseek_fails info_hdr iClrUsed n_clr_elems f clr_tbl m
    = Ok m'
    /\ length (red_tbl m') = length (red_tbl m)
    /\ length (green_tbl m') = length (green_tbl m)
    /\ length (blue_tbl m') = length (blue_tbl m)
    /\ forall k : nat,
         clr_tbl_size_of depth iClrUsed <= Z.of_nat k ->
         red_tbl m' !! k = red_tbl m !! k
         /\ green_tbl m' !! k = green_tbl m !! k
         /\ blue_tbl m' !! k = blue_tbl m !! k.
Proof.
  intros depth Hdepth Hn Hused Hclr Hred Hgreen Hblue.
  destruct (colour_table_spec fseek_fails info_hdr iClrUsed n_clr_elems f
              clr_tbl m Hdepth Hn Hclr Hred Hgreen Hblue Hused)
    as (m' & Hrun & Hlr & Hlg & Hlb & Hrest & _).
  by exists m'.
Qed.

Lemma colour_map_rest_is_not_written_witness :
  exists m',
    colour_table never mono_hdr 1 4 (file_of mono_data) (replicate 4 0)
                 fresh_maps = Ok m'
    /\ length (red_tbl m') = 2%nat
    /\ length (green_tbl m') = 2%nat
    /\ length (blue_tbl m') = 2%nat
    /\ forall k : nat,
         1 <= Z.of_nat k ->
         red_tbl m' !! k = [7; 7] !! k
         /\ green_tbl m' !! k = [7; 7] !! k
         /\ blue_tbl m' !! k = [7; 7] !! k.
Proof.
  apply (colour_map_rest_is_not_written
           never mono_hdr 1 4 (file_of mono_data) (replicate 4 0)
           fresh_maps).
  - repeat constructor.
  - right. reflexivity.
  - discriminate.
  - reflexivity.
  - reflexivity.
  - reflexivity.
  - reflexivity.
Defined.

(** X18.  [iClrUsed] is a signed field and is not checked: when it is
    negative the table size, a [uint32], is at least 2^31, more than
    any map holds, and the run reads or builds the colour map with an
    access past the end of a block. *)
Theorem negative_iClrUsed_overruns
    (fseek_fails : Z -> bool) (info_hdr : BMPInfoHeader)
    (iClrUsed n_clr_elems : Z) (f : stream) (clr_tbl : list Z)
    (m : colormap) :
  let depth := iBitCount info_hdr in
  depth ∈ [1; 4; 8] ->
  - 2 ^ 31 <= iClrUsed < 0 ->
  2 * Z.of_nat (length (red_tbl m)) = colormap_bytes depth ->
  exists e,
    colour_table fseek_fails info_hdr iClrUsed n_clr_elems f clr_tbl m
    = Ub e.
Proof.
  intros depth Hdepth Hused Hred. unfold colour_table. fold depth.
  assert (clr_tbl_size_of depth iClrUsed = 2 ^ 32 + iClrUsed
          /\ colormap_bytes depth <= 2 ^ 16) as [-> Hcap].
  { unfold clr_tbl_size_of, nonzero, colormap_bytes.
    destruct (Z.eqb_spec iClrUsed 0); [lia |]. cbn [negb].
    assert (0 < Z.shiftl 1 depth /\ Z.shiftl 1 (depth * 2) <= 2 ^ 16)
      as [Hpos Hle].
    { clear -Hdepth.
      repeat (apply elem_of_cons in Hdepth as [-> | Hdepth];
              [by vm_compute |]).
      by apply elem_of_nil in Hdepth. }
    destruct (Z.ltb_spec (Z.shiftl 1 depth) iClrUsed); [lia |].
    split; [| done]. unfold u32.
    rewrite <- (Z.mod_add iClrUsed 1) by lia.
    rewrite Z.mod_small by lia. lia. }
  destruct (fread_into _ clr_tbl _ _) as [[[tbl items] f'] | e];
    [| by exists e].
  cbn [bind]. apply clr_loop_overruns; lia.
Qed.

Lemma negative_iClrUsed_overruns_witness :
  exists e,
    colour_table never mono_hdr (-1) 4 (file_of mono_data) [] fresh_maps
    = Ub e.
Proof.
  apply (negative_iClrUsed_overruns
           never mono_hdr (-1) 4 (file_of mono_data) [] fresh_maps).
  - repeat constructor.
  - lia.
  - reflexivity.
Defined.

(** ** Reading the headers *)

Lemma fread_var_full (m : memory) (f : stream) (v : Var.t) :
  0 <= st_pos f ->
  Z.of_nat (length (m v)) = Var.size v ->
  st_pos f + Var.size v <= Z.of_nat (length (st_data f)) ->
  fread_var (m, f) v
  = (assign v (bytes_at (st_data f) (st_pos f) (Var.size v)) m,
     {| st_data := st_data f; st_pos := st_pos f + Var.size v |}).
Proof.
  intros Hpos Hl Hin. unfold fread_var, fread, bytes_at. cbn [fst snd].
  rewrite Z.mul_1_l.
  assert (0 < Var.size v) by (by destruct v).
  set (got := take _ _).
  assert (Z.of_nat (length got) = Var.size v) as Hgot
    by (unfold got; rewrite length_take, length_drop; lia).
  rewrite drop_ge by lia. rewrite app_nil_r, Hgot. done.
Qed.

Lemma fread_var_eof (m : memory) (f : stream) (v : Var.t) :
  0 <= st_pos f ->
  Z.of_nat (length (st_data f)) <= st_pos f ->
  fread_var (m, f) v = (assign v (m v) m, f).
Proof.
  intros Hpos Heof. unfold fread_var, fread. cbn [fst snd].
  rewrite drop_ge by lia. rewrite take_nil. cbn [app length drop].
  rewrite Z.add_0_r. by destruct f.
Qed.

Lemma assign_same v bytes (m : memory) : assign v bytes m v = bytes.
Proof. unfold assign. by rewrite decide_True. Qed.

Lemma assign_other v v' bytes (m : memory) :
  v' <> v -> assign v bytes m v' = m v'.
Proof. intros H. unfold assign. by rewrite decide_False. Qed.

Lemma assign_id v (m : memory) v' : assign v (m v) m v' = m v'.
Proof. unfold assign. by destruct (decide (v' = v)) as [-> |]. Qed.

Lemma length_bytes_at (data : list Z) ofs n :
  0 <= ofs -> 0 <= n -> ofs + n <= Z.of_nat (length data) ->
  Z.of_nat (length (bytes_at data ofs n)) = n.
Proof.
  intros Hofs Hn Hin. unfold bytes_at.
  rewrite length_take, length_drop. lia.
Qed.

Lemma sized_assign v bytes (m : memory) :
  sized m -> Z.of_nat (length bytes) = Var.size v -> sized (assign v bytes m).
Proof.
  intros Hm Hl v'. unfold assign.
  destruct (decide (v' = v)) as [-> |]; [done | apply Hm].
Qed.

Lemma fread_var_step (m : memory) (data : list Z) pos pos' (v : Var.t) :
  sized m -> 0 <= pos -> pos' = pos + Var.size v ->
  pos' <= Z.of_nat (length data) ->
  fread_var (m, {| st_data := data; st_pos := pos |}) v
  = (assign v (bytes_at data pos (Var.size v)) m,
     {| st_data := data; st_pos := pos' |})
  /\ sized (assign v (bytes_at data pos (Var.size v)) m).
Proof.
  intros Hm Hpos -> Hin. split.
  - by rewrite fread_var_full by (cbn [st_data st_pos]; done || lia).
  - apply sized_assign; [done |].
    apply length_bytes_at; [done | by destruct v | done].
Qed.

Lemma bmp_type_of_OS21 size : bmp_type_of size = BMPT_OS21 <-> size = 12.
Proof.
  unfold bmp_type_of, BIH_WIN4SIZE, BIH_OS21SIZE, BIH_OS22SIZE.
  destruct (Z.eqb_spec size 40); [split; [done | lia] |].
  destruct (Z.eqb_spec size 12); [done |].
  destruct (Z.eqb_spec size 64); [done |].
  by destruct (Z.eqb_spec size 16).
Qed.

Tactic Notation "read_var" constr(data) constr(pos) constr(pos') :=
  match goal with
  | Hm : sized ?m |- context [fread_var (?m, _) ?v] =>
    let Hs := fresh "Hm" in
    destruct (fread_var_step m data pos pos' v Hm) as [-> Hs];
    [lia | reflexivity | lia |]; clear Hm;
    cbn [fst snd st_data st_pos]
  end.

Ltac lookup_vars :=
  repeat (rewrite assign_same || rewrite assign_other by discriminate).

(** X19.  With a header of the Windows or OS/2 2.x kind (any size
    field but 12) in a file of at least 54 bytes that starts with
    [BM], the fields are taken from fixed offsets whatever the size
    field says: the data offset from byte 10, the size from 14, width
    and height as signed 32-bit numbers from 18 and 22, the bit count
    from 28, the compression from 30 and the number of colours from
    46; nothing of the uninitialised variables is left. *)
Theorem windows_header_fields (fseek_fails : Z -> bool) (m : memory)
    (f : stream) :
  let data := st_data f in
  let size := le_unsigned (bytes_at data 14 4) in
  st_pos f = 0 ->
  (forall o, fseek_fails o = false) ->
  sized m ->
  54 <= Z.of_nat (length data) ->
  bytes_at data 0 2 = [66; 77] ->
  size <> BIH_OS21SIZE ->
  read_header fseek_fails m f
  = Header {| fh_iSize := u32 (Z.of_nat (length data));
              iOffBits := le_unsigned (bytes_at data 10 4) |}
           {| iSize := size;
              iWidth := le_signed (bytes_at data 18 4);
              iHeight := le_signed (bytes_at data 22 4);
              iBitCount := le_signed (bytes_at data 28 2);
              iCompression := le_unsigned (bytes_at data 30 4) |}
           (le_signed (bytes_at data 46 4))
           (bmp_type_of size) (n_clr_elems_of (bmp_type_of size))
           {| st_data := data; st_pos := 54 |}.
Proof.
  intros data size Hpos Hseek Hm Hlen Hsig Hsize.
  destruct f as [data' pos]. cbn [st_data st_pos] in *. subst data pos.
  unfold read_header. cbn [st_data].
  read_var data' 0 2. cbn [fst snd]. rewrite assign_same.
  set (m1 := assign Var.bType _ m) in *.
  change (Var.size Var.bType) with 2. rewrite Hsig.
  change (negb (default 0 ([66; 77] !! 0%nat) =? 66)
          || negb (default 0 ([66; 77] !! 1%nat) =? 77)) with false.
  cbv iota. rewrite !Hseek. unfold seek, BFH_SIZE. cbn [st_data st_pos].
  read_var data' 10 14. cbn [fst snd].
  read_var data' 14 18. cbn [fst snd]. rewrite assign_same.
  set (m3 := assign Var.iSize _ _) in *.
  change (Var.size Var.iSize) with 4. fold size.
  assert (bmp_type_of size <> BMPT_OS21) as Htype
    by (by rewrite bmp_type_of_OS21).
  rewrite (bool_decide_eq_true_2 (_ \/ _))
    by (destruct (bmp_type_of size); tauto).
  rewrite (bool_decide_eq_false_2 (_ = BMPT_OS21)) by done.
  cbn [foldl].
  read_var data' 18 22. read_var data' 22 26. read_var data' 26 28.
  read_var data' 28 30. read_var data' 30 34. read_var data' 34 38.
  read_var data' 38 42. read_var data' 42 46. read_var data' 46 50.
  read_var data' 50 54.
  cbn [fst snd]. subst m3 m1. lookup_vars. reflexivity.
Qed.

Lemma windows_header_fields_witness :
  read_header never junk (file_of (win4_headers ++ rgb24_data))
  = Header {| fh_iSize := 124; iOffBits := 54 |}
           {| iSize := 40; iWidth := 2; iHeight := -2; iBitCount := 24;
              iCompression := 0 |}
           0 BMPT_WIN4 4
           {| st_data := win4_headers ++ rgb24_data; st_pos := 54 |}.
Proof.
  apply (windows_header_fields never junk
           (file_of (win4_headers ++ rgb24_data))).
  - reflexivity.
  - reflexivity.
  - intros v. by destruct v.
  - simpl. lia.
  - reflexivity.
  - discriminate.
Defined.

Lemma le_unsigned_bound (bytes : list Z) :
  Forall (fun b => 0 <= b < 256) bytes ->
  0 <= le_unsigned bytes < 2 ^ (8 * Z.of_nat (length bytes)).
Proof.
  intros H. unfold le_unsigned.
  rewrite (Z.mul_comm 8). by apply little_endian_to_Z_bound.
Qed.

Lemma le_signed_le_bytes n v :
  0 < n -> - 2 ^ (8 * n - 1) <= v < 2 ^ (8 * n - 1) ->
  le_signed (le_bytes n v) = v.
Proof.
  intros Hn Hv. unfold le_signed, le_unsigned, le_bytes.
  rewrite little_endian_to_Z_to_little_endian by lia.
  rewrite length_Z_to_little_endian by lia.
  rewrite (Z.mul_comm n 8).
  assert (2 ^ (8 * n) = 2 * 2 ^ (8 * n - 1)) as Hpow.
  { rewrite <- Z.pow_succ_r by lia. f_equal. lia. }
  destruct (Z.le_gt_cases 0 v).
  - rewrite Z.mod_small by lia.
    destruct (Z.ltb_spec (2 * v) (2 ^ (8 * n))); lia.
  - rewrite <- (Z.mod_add v 1) by lia. rewrite Z.mod_small by lia.
    destruct (Z.ltb_spec (2 * (v + 1 * 2 ^ (8 * n))) (2 ^ (8 * n))); lia.
Qed.

Lemma le_signed_bound (bytes : list Z) :
  Forall (fun b => 0 <= b < 256) bytes -> bytes <> [] ->
  let n := Z.of_nat (length bytes) in
  - 2 ^ (8 * n - 1) <= le_signed bytes < 2 ^ (8 * n - 1).
Proof.
  intros H Hne n. pose proof (le_unsigned_bound bytes H) as Hu.
  fold n in Hu. unfold le_signed. fold n.
  assert (0 < n) by (destruct bytes; [done | cbn in n; lia]).
  assert (2 ^ (8 * n) = 2 * 2 ^ (8 * n - 1)) as Hpow.
  { rewrite <- Z.pow_succ_r by lia. f_equal. lia. }
  destruct (Z.ltb_spec (2 * le_unsigned bytes) (2 ^ (8 * n))); lia.
Qed.

Lemma Forall_bytes_at (P : Z -> Prop) (data : list Z) ofs n :
  Forall P data -> Forall P (bytes_at data ofs n).
Proof. intros H. unfold bytes_at. by apply Forall_take, Forall_drop. Qed.

(** A 16-bit field read through [iShort] and stored in a variable of 2
    or 4 bytes reads back as the signed value of its two bytes. *)
Lemma le_signed_short (data : list Z) pos (v : Var.t) :
  Forall (fun b => 0 <= b < 256) data ->
  0 <= pos -> pos + 2 <= Z.of_nat (length data) ->
  le_signed (le_bytes (Var.size v) (le_signed (bytes_at data pos 2)))
  = le_signed (bytes_at data pos 2).
Proof.
  intros Hb Hpos Hin.
  pose proof (length_bytes_at data pos 2 Hpos ltac:(lia) Hin) as Hl.
  pose proof (le_signed_bound (bytes_at data pos 2)
                (Forall_bytes_at _ data pos 2 Hb)) as Hs.
  rewrite Hl in Hs. change (8 * 2 - 1) with 15 in Hs.
  assert (bytes_at data pos 2 <> []) as Hne
    by (intros E; rewrite E in Hl; cbn in Hl; lia).
  specialize (Hs Hne). cbv zeta in Hs.
  apply le_signed_le_bytes; [by destruct v |].
  assert (2 ^ 15 <= 2 ^ (8 * Var.size v - 1))
    by (apply Z.pow_le_mono_r; [lia | destruct v; cbn; lia]).
  lia.
Qed.

Lemma fread_short_step (m : memory) (data : list Z) pos pos' (v : Var.t) :
  sized m -> 0 <= pos -> pos' = pos + 2 ->
  pos' <= Z.of_nat (length data) ->
  let m' := assign v (le_bytes (Var.size v) (le_signed (bytes_at data pos 2)))
                   (assign Var.iShort (bytes_at data pos 2) m) in
  fread_short (m, {| st_data := data; st_pos := pos |}) v
  = (m', {| st_data := data; st_pos := pos' |})
  /\ sized m'.
Proof.
  intros Hm Hpos -> Hin m'. unfold fread_short.
  destruct (fread_var_step m data pos (pos + 2) Var.iShort Hm)
    as [-> Hm1]; [lia | reflexivity | lia |].
  cbn [fst snd]. rewrite assign_same. split; [done |].
  apply sized_assign; [done |].
  unfold le_bytes. apply length_Z_to_little_endian. by destruct v.
Qed.

Tactic Notation "read_short" constr(data) constr(pos) constr(pos') :=
  match goal with
  | Hm : sized ?m |- context [fread_short (?m, _) ?v] =>
    let Hs := fresh "Hm" in
    destruct (fread_short_step m data pos pos' v Hm) as [-> Hs];
    [lia | reflexivity | lia |]; clear Hm;
    cbn [fst snd st_data st_pos]
  end.

(** X20.  With an OS/2 1.x header (size field 12) in a file of at
    least 26 bytes, width, height and bit count are the signed 16-bit
    numbers at bytes 18, 20 and 24, the compression is set to RGB, and
    the number of colours is not read: [iClrUsed] is what the
    uninitialised variable held. *)
Theorem os21_header_fields (fseek_fails : Z -> bool) (m : memory)
    (f : stream) :
  let data := st_data f in
  st_pos f = 0 ->
  (forall o, fseek_fails o = false) ->
  sized m ->
  26 <= Z.of_nat (length data) ->
  Forall (fun b => 0 <= b < 256) data ->
  bytes_at data 0 2 = [66; 77] ->
  le_unsigned (bytes_at data 14 4) = BIH_OS21SIZE ->
  read_header fseek_fails m f
  = Header {| fh_iSize := u32 (Z.of_nat (length data));
              iOffBits := le_unsigned (bytes_at data 10 4) |}
           {| iSize := BIH_OS21SIZE;
              iWidth := le_signed (bytes_at data 18 2);
              iHeight := le_signed (bytes_at data 20 2);
              iBitCount := le_signed (bytes_at data 24 2);
              iCompression := BMPC_RGB |}
           (le_signed (m Var.iClrUsed)) BMPT_OS21 3
           {| st_data := data; st_pos := 26 |}.
Proof.
  intros data Hpos Hseek Hm Hlen Hbytes Hsig Hsize.
  destruct f as [data' pos]. cbn [st_data st_pos] in *. subst data pos.
  unfold read_header. cbn [st_data].
  read_var data' 0 2. rewrite assign_same.
  set (m1 := assign Var.bType _ m) in *.
  change (Var.size Var.bType) with 2. rewrite Hsig.
  change (negb (default 0 ([66; 77] !! 0%nat) =? 66)
          || negb (default 0 ([66; 77] !! 1%nat) =? 77)) with false.
  cbv iota. rewrite !Hseek. unfold seek, BFH_SIZE. cbn [st_data st_pos].
  read_var data' 10 14.
  read_var data' 14 18. rewrite assign_same.
  set (m3 := assign Var.iSize _ _) in *.
  change (Var.size Var.iSize) with 4. rewrite Hsize.
  change (bmp_type_of BIH_OS21SIZE) with BMPT_OS21.
  rewrite (bool_decide_eq_false_2 (_ \/ _)) by (intros [? | [? | ?]]; done).
  rewrite (bool_decide_eq_true_2 (_ = BMPT_OS21)) by done.
  cbn [foldl].
  read_short data' 18 20. read_short data' 20 22. read_short data' 22 24.
  read_short data' 24 26.
  subst m3 m1. lookup_vars.
  rewrite !le_signed_short by (done || lia).
  change (Var.size Var.iSize) with 4. rewrite Hsize. reflexivity.
Qed.

Lemma os21_header_fields_witness :
  read_header never junk (file_of (os21_headers ++ rgb24_data))
  = Header {| fh_iSize := 96; iOffBits := 26 |}
           {| iSize := 12; iWidth := 2; iHeight := -2; iBitCount := 24;
              iCompression := 0 |}
           (-1431655766) BMPT_OS21 3
           {| st_data := os21_headers ++ rgb24_data; st_pos := 26 |}.
Proof.
  apply (os21_header_fields never junk
           (file_of (os21_headers ++ rgb24_data))).
  - reflexivity.
  - reflexivity.
  - intros v. by destruct v.
  - simpl. lia.
  - apply Forall_forall. intros b Hb.
    repeat (apply elem_of_cons in Hb as [-> | Hb]; [lia |]).
    by apply elem_of_nil in Hb.
  - reflexivity.
  - reflexivity.
Defined.

(** X21.  A file of at least two bytes is turned down as not being a
    BMP file exactly when its first two bytes are not [B], [M]. *)
Theorem signature_is_checked (fseek_fails : Z -> bool) (m : memory)
    (f : stream) :
  st_pos f = 0 ->
  sized m ->
  2 <= Z.of_nat (length (st_data f)) ->
  read_header fseek_fails m f = NotBMP
  <-> bytes_at (st_data f) 0 2 <> [66; 77].
Proof.
  intros Hpos Hm Hlen.
  destruct f as [data pos]. cbn [st_data st_pos] in *. subst pos.
  unfold read_header. cbn [st_data].
  read_var data 0 2. rewrite assign_same.
  change (Var.size Var.bType) with 2.
  pose proof (length_bytes_at data 0 2 ltac:(lia) ltac:(lia) ltac:(lia))
    as Hl.
  destruct (bytes_at data 0 2) as [| b0 [| b1 [| ? ?]]];
    cbn [length] in Hl; try lia.
  cbn [lookup list_lookup default from_option id].
  destruct (Z.eqb_spec b0 66) as [-> | H0]; cbn [negb orb].
  - destruct (Z.eqb_spec b1 77) as [-> | H1]; cbn [negb].
    + split; [discriminate | by intros H].
    + split; [intros _ | done]. intros E. injection E as E. done.
  - split; [intros _ | done]. intros E. injection E as E. done.
Qed.

Lemma signature_is_checked_witness :
  read_header never junk (file_of [77; 66; 0; 0]) = NotBMP
  <-> bytes_at [77; 66; 0; 0] 0 2 <> [66; 77].
Proof.
  apply (signature_is_checked never junk (file_of [77; 66; 0; 0])).
  - reflexivity.
  - intros v. by destruct v.
  - simpl. lia.
Defined.

(** X22.  No result of [fread] is looked at while the headers are
    read.  A file that starts with [BM] and ends within its first ten
    bytes is not turned down: every field of the headers is then what
    the uninitialised variable of that field held. *)
Theorem cut_off_header_is_not_noticed (fseek_fails : Z -> bool)
    (m : memory) (f : stream) :
  let data := st_data f in
  let size := le_unsigned (m Var.iSize) in
  st_pos f = 0 ->
  (forall o, fseek_fails o = false) ->
  sized m ->
  2 <= Z.of_nat (length data) <= 10 ->
  bytes_at data 0 2 = [66; 77] ->
  size <> BIH_OS21SIZE ->
  read_header fseek_fails m f
  = Header {| fh_iSize := u32 (Z.of_nat (length data));
              iOffBits := le_unsigned (m Var.iOffBits) |}
           {| iSize := size;
              iWidth := le_signed (m Var.iWidth);
              iHeight := le_signed (m Var.iHeight);
              iBitCount := le_signed (m Var.iBitCount);
              iCompression := le_unsigned (m Var.iCompression) |}
           (le_signed (m Var.iClrUsed))
           (bmp_type_of size) (n_clr_elems_of (bmp_type_of size))
           {| st_data := data; st_pos := 14 |}.
Proof.
  intros data size Hpos Hseek Hm Hlen Hsig Hsize.
  destruct f as [data' pos]. cbn [st_data st_pos] in *. subst data pos.
  unfold read_header. cbn [st_data].
  read_var data' 0 2. rewrite assign_same.
  set (m1 := assign Var.bType _ m) in *.
  change (Var.size Var.bType) with 2. rewrite Hsig.
  change (negb (default 0 ([66; 77] !! 0%nat) =? 66)
          || negb (default 0 ([66; 77] !! 1%nat) =? 77)) with false.
  cbv iota. rewrite !Hseek. unfold seek, BFH_SIZE. cbn [st_data st_pos].
  rewrite (fread_var_eof m1 {| st_data := data'; st_pos := 10 |})
    by (cbn [st_data st_pos]; lia).
  cbn [fst snd st_data st_pos].
  rewrite (fread_var_eof _ {| st_data := data'; st_pos := 14 |})
    by (cbn [st_data st_pos]; lia).
  cbn [fst snd]. rewrite !assign_id.
  assert (m1 Var.iSize = m Var.iSize) as ->
    by (subst m1; by rewrite assign_other).
  fold size.
  assert (bmp_type_of size <> BMPT_OS21) as Htype
    by (by rewrite bmp_type_of_OS21).
  rewrite (bool_decide_eq_true_2 (_ \/ _))
    by (destruct (bmp_type_of size); tauto).
  rewrite (bool_decide_eq_false_2 (_ = BMPT_OS21)) by done.
  cbn [foldl].
  repeat (rewrite (fread_var_eof _ {| st_data := data'; st_pos := 14 |})
            by (cbn [st_data st_pos]; lia)).
  cbn [fst snd]. rewrite !assign_id. subst m1. lookup_vars. reflexivity.
Qed.

Lemma cut_off_header_is_not_noticed_witness :
  read_header never junk (file_of [66; 77])
  = Header {| fh_iSize := 2; iOffBits := 2863311530 |}
           {| iSize := 2863311530; iWidth := -1431655766;
              iHeight := -1431655766; iBitCount := -21846;
              iCompression := 2863311530 |}
           (-1431655766) BMPT_WIN5 4
           {| st_data := [66; 77]; st_pos := 14 |}.
Proof.
  apply (cut_off_header_is_not_noticed never junk (file_of [66; 77])).
  - reflexivity.
  - reflexivity.
  - intros v. by destruct v.
  - simpl. lia.
  - reflexivity.
  - discriminate.
Defined.

(** ** processCompressOptions *)

Lemma strchr_app (a b : string) (c : ascii) :
  strchr a c = None ->
  strchr (a +:+ String c b) c = Some (String c b).
Proof.
  induction a as [| x a IH]; simpl; intros H.
  - by rewrite Ascii.eqb_refl.
  - destruct (Ascii.eqb x c) eqn:E; [done |]. by apply IH.
Qed.

(** X23.  For an option [jpeg<a>:<b>], where [<a>] has no colon, the
    quality is set only when the character right behind the first
    colon is a digit, and then to [atoi] of [<b>]; the colour mode is
    set to raw when an [r] stands anywhere behind that colon.  So
    [jpeg:r:50] sets the raw mode and leaves the quality as it was,
    and [jpeg:50:r] sets both. *)
Theorem jpeg_quality_needs_a_digit_behind_the_colon
    (tiff : tiff_h) (atoi : string -> Z) (a b : string) (o : options) :
  strchr a ":" = None ->
  processCompressOptions tiff atoi ("jpeg" +:+ (a +:+ String ":" b)) o
  = (1, {| compression := COMPRESSION_JPEG tiff;
           jpegcolormode := match strchr b "r" with
                            | Some _ => JPEGCOLORMODE_RAW tiff
                            | None => jpegcolormode o
                            end;
           quality := match b with
                      | String d _ => if isdigit d then atoi b else quality o
                      | EmptyString => quality o
                      end;
           predictor := predictor o |}).
Proof.
  intros Ha. unfold processCompressOptions.
  change (String.eqb ("jpeg" +:+ (a +:+ String ":" b)) "none") with false.
  change (String.eqb ("jpeg" +:+ (a +:+ String ":" b)) "packbits")
    with false.
  change (String.prefix "jpeg" ("jpeg" +:+ (a +:+ String ":" b)))
    with (String.prefix "" (a +:+ String ":" b)).
  assert (String.prefix "" (a +:+ String ":" b) = true) as ->
    by (by destruct (a +:+ String ":" b)%string).
  change (strchr ("jpeg" +:+ (a +:+ String ":" b)) ":")
    with (strchr (a +:+ String ":" b) ":").
  rewrite strchr_app by done. cbn [string_tail digit_at_1].
  assert (strchr (String ":" b) "r" = strchr b "r") as -> by done.
  by destruct b.
Qed.

Lemma jpeg_quality_needs_a_digit_behind_the_colon_witness :
  processCompressOptions tiff_values c_atoi "jpeg:r:50" initial_options
  = (1, {| compression := 7; jpegcolormode := 0; quality := 75;
           predictor := 0 |})
  /\ processCompressOptions tiff_values c_atoi "jpeg:50:r"
                            initial_options
     = (1, {| compression := 7; jpegcolormode := 0; quality := 50;
              predictor := 0 |}).
Proof.
  split.
  - apply (jpeg_quality_needs_a_digit_behind_the_colon
             tiff_values c_atoi "" "r:50" initial_options).
    reflexivity.
  - apply (jpeg_quality_needs_a_digit_behind_the_colon
             tiff_values c_atoi "" "50:r" initial_options).
    reflexivity.
Defined.

(** X24.  For an option [lzw<a>:<b>] or [zip<a>:<b>], where [<a>] has
    no colon, the predictor is set to [atoi] of [<b>], as a [uint16],
    whether or not [<b>] is a number; without a colon the predictor is
    left as it was. *)
Theorem lzw_and_zip_take_the_predictor_behind_the_colon
    (tiff : tiff_h) (atoi : string -> Z) (a b : string) (o : options) :
  strchr a ":" = None ->
  processCompressOptions tiff atoi ("lzw" +:+ (a +:+ String ":" b)) o
  = (1, {| compression := COMPRESSION_LZW tiff;
           jpegcolormode := jpegcolormode o; quality := quality o;
           predictor := atoi b mod 2 ^ 16 |})
  /\ processCompressOptions tiff atoi ("zip" +:+ (a +:+ String ":" b)) o
     = (1, {| compression := COMPRESSION_DEFLATE tiff;
              jpegcolormode := jpegcolormode o; quality := quality o;
              predictor := atoi b mod 2 ^ 16 |})
  /\ processCompressOptions tiff atoi ("lzw" +:+ a) o
     = (1, {| compression := COMPRESSION_LZW tiff;
              jpegcolormode := jpegcolormode o; quality := quality o;
              predictor := predictor o |})
  /\ processCompressOptions tiff atoi ("zip" +:+ a) o
     = (1, {| compression := COMPRESSION_DEFLATE tiff;
              jpegcolormode := jpegcolormode o; quality := quality o;
              predictor := predictor o |}).
Proof.
  intros Ha. unfold processCompressOptions.
  assert (forall s, String.prefix "" s = true) as Hnil by (by intros []).
  repeat split.
  - change (String.eqb ("lzw" +:+ (a +:+ String ":" b)) "none") with false.
    change (String.eqb ("lzw" +:+ (a +:+ String ":" b)) "packbits")
      with false.
    change (String.prefix "jpeg" ("lzw" +:+ (a +:+ String ":" b)))
      with false.
    change (String.prefix "lzw" ("lzw" +:+ (a +:+ String ":" b)))
      with (String.prefix "" (a +:+ String ":" b)).
    rewrite Hnil.
    change (strchr ("lzw" +:+ (a +:+ String ":" b)) ":")
      with (strchr (a +:+ String ":" b) ":").
    by rewrite strchr_app by done.
  - change (String.eqb ("zip" +:+ (a +:+ String ":" b)) "none") with false.
    change (String.eqb ("zip" +:+ (a +:+ String ":" b)) "packbits")
      with false.
    change (String.prefix "jpeg" ("zip" +:+ (a +:+ String ":" b)))
      with false.
    change (String.prefix "lzw" ("zip" +:+ (a +:+ String ":" b)))
      with false.
    change (String.prefix "zip" ("zip" +:+ (a +:+ String ":" b)))
      with (String.prefix "" (a +:+ String ":" b)).
    rewrite Hnil.
    change (strchr ("zip" +:+ (a +:+ String ":" b)) ":")
      with (strchr (a +:+ String ":" b) ":").
    by rewrite strchr_app by done.
  - change (String.eqb ("lzw" +:+ a) "none") with false.
    change (String.eqb ("lzw" +:+ a) "packbits") with false.
    change (String.prefix "jpeg" ("lzw" +:+ a)) with false.
    change (String.prefix "lzw" ("lzw" +:+ a)) with (String.prefix "" a).
    rewrite Hnil.
    change (strchr ("lzw" +:+ a) ":") with (strchr a ":").
    by rewrite Ha.
  - change (String.eqb ("zip" +:+ a) "none") with false.
    change (String.eqb ("zip" +:+ a) "packbits") with false.
    change (String.prefix "jpeg" ("zip" +:+ a)) with false.
    change (String.prefix "lzw" ("zip" +:+ a)) with false.
    change (String.prefix "zip" ("zip" +:+ a)) with (String.prefix "" a).
    rewrite Hnil.
    change (strchr ("zip" +:+ a) ":") with (strchr a ":").
    by rewrite Ha.
Qed.

Lemma lzw_and_zip_take_the_predictor_behind_the_colon_witness :
  processCompressOptions tiff_values c_atoi "lzw:2" initial_options
  = (1, {| compression := 5; jpegcolormode := 1; quality := 75;
           predictor := 2 |})
  /\ processCompressOptions tiff_values c_atoi "zip:2" initial_options
     = (1, {| compression := 32946; jpegcolormode := 1; quality := 75;
              predictor := 2 |})
  /\ processCompressOptions tiff_values c_atoi "lzw" initial_options
     = (1, {| compression := 5; jpegcolormode := 1; quality := 75;
              predictor := 0 |})
  /\ processCompressOptions tiff_values c_atoi "zip" initial_options
     = (1, {| compression := 32946; jpegcolormode := 1; quality := 75;
              predictor := 0 |}).
Proof.
  apply (lzw_and_zip_take_the_predictor_behind_the_colon
           tiff_values c_atoi "" "2" initial_options).
  reflexivity.
Defined.

(** ** The compressed block *)

(** X25.  For a file of fewer than 2^32 bytes whose data offset lies in
    the file, the compressed block of an RLE image is as long as the
    rest of the file from the data offset on and, when the seek does
    not fail, holds exactly those bytes: nothing of what the allocator
    left in the block reaches the decompressor. *)
Theorem compressed_block_is_the_rest_of_the_file
    (fseek_fails : Z -> bool) (file_hdr : BMPFileHeader) (f : stream)
    (comprbuf : list Z) :
  fh_iSize file_hdr = Z.of_nat (length (st_data f)) ->
  fh_iSize file_hdr < 2 ^ 32 ->
  0 <= iOffBits file_hdr <= fh_iSize file_hdr ->
  fseek_fails (iOffBits file_hdr) = false ->
  Z.of_nat (length comprbuf) = compr_size_of file_hdr ->
  compr_size_of file_hdr = fh_iSize file_hdr - iOffBits file_hdr
  /\ read_compressed fseek_fails file_hdr f comprbuf
     = drop (Z.to_nat (iOffBits file_hdr)) (st_data f).
Proof.
  intros Hsize Hmax Hoff Hseek Hl.
  assert (compr_size_of file_hdr = fh_iSize file_hdr - iOffBits file_hdr)
    as Hcs by (unfold compr_size_of; apply u32_small; lia).
  split; [done |].
  unfold read_compressed, fread. rewrite Hseek.
  cbn [fst seek st_data st_pos]. rewrite Z.mul_1_l, Hcs.
  rewrite take_ge by (rewrite length_drop; lia).
  rewrite (drop_ge comprbuf) by (rewrite length_drop; lia).
  by rewrite app_nil_r.
Qed.

Lemma compressed_block_is_the_rest_of_the_file_witness :
  compr_size_of (hdr_at_54 rle8_4x2_data) = 60 - 54
  /\ read_compressed never (hdr_at_54 rle8_4x2_data) (file_of rle8_4x2_data)
                     (replicate 6 170)
     = [4; 1; 4; 2; 0; 1].
Proof.
  apply (compressed_block_is_the_rest_of_the_file
           never (hdr_at_54 rle8_4x2_data) (file_of rle8_4x2_data)
           (replicate 6 170)).
  - reflexivity.
  - reflexivity.
  - simpl. lia.
  - reflexivity.
  - reflexivity.
Defined.

(** ** Streams that end with the end-of-bitmap escape *)

Section RunStreamThen.

Variable comprbuf : list Z.
Variables compr_size uncompr_size : Z.
Variable body : rle_state -> res step.
Variable pixels : Z -> Z -> list Z.

Hypothesis Hcs : Z.of_nat (length comprbuf) = compr_size.
Hypothesis Hpixels : forall n v, 0 < n -> length (pixels n v) = Z.to_nat n.
Hypothesis Hbody : forall s n v,
  Z.of_nat (length (rs_out s)) = uncompr_size ->
  0 <= rs_i s -> 0 <= rs_j s ->
  comprbuf !! Z.to_nat (rs_i s) = Some n -> 0 < n ->
  comprbuf !! Z.to_nat (rs_i s + 1) = Some v ->
  rs_j s + n <= uncompr_size ->
  exists s',
    body s = Ok (Again s')
    /\ rs_i s' = rs_i s + 2
    /\ rs_j s' = rs_j s + n
    /\ rs_out s' = list_inserts (Z.to_nat (rs_j s)) (pixels n v) (rs_out s).

(** The loop goes through a stretch of encoded runs and goes on behind
    it. *)
Lemma rle_loop_runs_then runs : forall pre suf s fuel,
  comprbuf = pre ++ encode_runs runs ++ suf ->
  rs_i s = Z.of_nat (length pre) ->
  0 <= rs_j s ->
  Z.of_nat (length (rs_out s)) = uncompr_size ->
  Forall (fun r => 0 < r.1) runs ->
  rs_j s + Z.of_nat (length (runs ≫= (fun r => pixels r.1 r.2)))
  <= uncompr_size ->
  exists s',
    rle_loop compr_size uncompr_size body (length runs + fuel) s
    = rle_loop compr_size uncompr_size body fuel s'
    /\ rs_i s' = Z.of_nat (length pre + length (encode_runs runs))
    /\ 0 <= rs_j s' <= uncompr_size
    /\ rs_out s'
       = list_inserts (Z.to_nat (rs_j s))
                      (runs ≫= (fun r => pixels r.1 r.2)) (rs_out s).
Proof.
  induction runs as [| [n v] runs IH];
    intros pre suf s fuel Hbuf Hi Hj Hl Hpos Hroom.
  - exists s. cbn in Hroom. repeat split; try done; try lia.
    rewrite Hi. cbn. lia.
  - apply Forall_cons in Hpos as [Hn Hpos]. cbn [fst] in Hn.
    rewrite bind_cons, length_app in Hroom. cbn [fst snd] in Hroom.
    rewrite Hpixels in Hroom by done.
    assert (encode_runs ((n, v) :: runs) = [n; v] ++ encode_runs runs)
      as Henc by (unfold encode_runs; by rewrite bind_cons).
    assert (Z.of_nat (length pre) + 2 <= Z.of_nat (length comprbuf))
      as Hlen.
    { rewrite Hbuf, Henc, !length_app. cbn [length]. lia. }
    assert (in_range compr_size uncompr_size s = true) as Hr
      by (apply in_range_intro; lia).
    cbn [length Nat.add rle_loop]. rewrite Hr.
    destruct (Hbody s n v) as (s1 & -> & Hi1 & Hj1 & Ho1);
      try done; try lia.
    { rewrite Hbuf, Henc, Hi, Nat2Z.id, lookup_app_r by lia.
      by rewrite Nat.sub_diag. }
    { rewrite Hbuf, Henc, Hi.
      replace (Z.to_nat (Z.of_nat (length pre) + 1))
        with (S (length pre)) by lia.
      rewrite lookup_app_r by lia.
      by replace (S (length pre) - length pre)%nat with 1%nat by lia. }
    destruct (IH (pre ++ [n; v]) suf s1 fuel)
      as (s' & -> & Hi' & Hj' & Ho'); try done.
    + rewrite Hbuf, Henc. by rewrite <- !app_assoc.
    + rewrite Hi1, Hi, length_app. cbn [length]. lia.
    + lia.
    + rewrite Ho1, length_inserts. done.
    + lia.
    + exists s'. split; [done |]. split.
      { rewrite Hi', Henc, !length_app. cbn [length]. lia. }
      split; [done |]. rewrite Ho', Ho1, Hj1.
      rewrite bind_cons. cbn [fst snd].
      rewrite list_inserts_app_l, Hpixels by done.
      f_equal. lia.
Qed.

End RunStreamThen.

Lemma escape_end_of_bitmap (comprbuf : list Z) compr_size width abs s :
  Z.of_nat (length comprbuf) < 2 ^ 32 - 1 ->
  0 <= rs_i s ->
  comprbuf !! Z.to_nat (rs_i s + 1) = Some 1 ->
  escape comprbuf compr_size width abs s = Ok (Leave (incr_i s)).
Proof.
  intros Hmax Hi Hb1.
  assert (rs_i s + 1 < Z.of_nat (length comprbuf)) as Hi1
    by (apply lookup_lt_Some in Hb1; lia).
  unfold escape. rewrite !incr_i_eq. cbn [rs_i rs_j rs_out rs_stores].
  rewrite (u32_small (rs_i s + 1)) by lia.
  by rewrite (load_lookup _ (rs_i s + 1) _ ltac:(lia) Hb1).
Qed.

(** X26.  The end-of-bitmap escape [0, 1] ends the decoding and what
    stands behind it is never looked at: a compressed block made of
    encoded runs with counts above 0, the escape and any further
    bytes decodes to the pixels of the runs, in RLE8 and in RLE4, in
    front of the part of the output block that the runs do not
    reach. *)
Theorem end_of_bitmap_ends_the_decoding (runs : list (Z * Z))
    (rest init : list Z) (width bits : Z) (fuel : nat) :
  let comprbuf := encode_runs runs ++ [0; 1] ++ rest in
  let pixels := if bits =? 8 then expand_runs runs else expand_runs4 runs in
  Forall (fun r => 0 < r.1) runs ->
  Z.of_nat (length comprbuf) < 2 ^ 32 - 1 ->
  Z.of_nat (length init) < 2 ^ 32 ->
  (length pixels <= length init)%nat ->
  (length runs < fuel)%nat ->
  result_out
    (rle_decompress comprbuf (Z.of_nat (length comprbuf))
       (Z.of_nat (length init)) width bits init fuel)
  = Some (pixels ++ drop (length pixels) init).
Proof.
  intros comprbuf pixels Hpos Hmax Hus Hroom Hfuel.
  set (cs := Z.of_nat (length comprbuf)) in *.
  set (us := Z.of_nat (length init)) in *.
  set (s0 := {| rs_i := 0; rs_j := 0; rs_out := init; rs_stores := [] |}).
  assert (forall body px,
            (forall n v, 0 < n -> length (px n v) = Z.to_nat n) ->
            (forall s n v,
               Z.of_nat (length (rs_out s)) = us ->
               0 <= rs_i s -> 0 <= rs_j s ->
               comprbuf !! Z.to_nat (rs_i s) = Some n -> 0 < n ->
               comprbuf !! Z.to_nat (rs_i s + 1) = Some v ->
               rs_j s + n <= us ->
               exists s',
                 body s = Ok (Again s') /\ rs_i s' = rs_i s + 2
                 /\ rs_j s' = rs_j s + n
                 /\ rs_out s'
                    = list_inserts (Z.to_nat (rs_j s)) (px n v) (rs_out s)) ->
            (forall s, 0 <= rs_i s ->
               comprbuf !! Z.to_nat (rs_i s) = Some 0 ->
               comprbuf !! Z.to_nat (rs_i s + 1) = Some 1 ->
               body s = Ok (Leave (incr_i s))) ->
            let pix := runs ≫= (fun r => px r.1 r.2) in
            (length pix <= length init)%nat ->
            result_out (rle_loop cs us body fuel s0)
            = Some (pix ++ drop (length pix) init)) as Hloop.
  { intros body px Hpx Hrun Hend pix Hfit.
    destruct (rle_loop_runs_then comprbuf cs us body px eq_refl Hpx Hrun
                runs [] ([0; 1] ++ rest) s0 (fuel - length runs))
      as (s' & Hl & Hi' & Hj' & Ho'); cbn [rs_i rs_j rs_out s0];
      try done; try (fold pix; lia).
    replace (length runs + (fuel - length runs))%nat with fuel in Hl by lia.
    rewrite Hl. cbn [rs_j rs_out s0] in Ho'. fold pix in Ho'.
    change (Z.to_nat 0) with 0%nat in Ho'.
    rewrite list_inserts_take_drop, take_0 in Ho' by (cbn; lia).
    cbn [app] in Ho'. cbn [length Nat.add] in Hi'.
    destruct (fuel - length runs)%nat as [| fuel'] eqn:Ef; [lia |].
    cbn [rle_loop].
    destruct (in_range cs us s'); [| by cbn [result_out]; rewrite Ho'].
    rewrite Hend.
    - cbn [result_out]. rewrite incr_i_eq. cbn [rs_out]. by rewrite Ho'.
    - lia.
    - rewrite Hi', Nat2Z.id. unfold comprbuf.
      rewrite lookup_app_r by lia. by rewrite Nat.sub_diag.
    - rewrite Hi'. unfold comprbuf.
      replace (Z.to_nat (Z.of_nat (length (encode_runs runs)) + 1))
        with (S (length (encode_runs runs))) by lia.
      rewrite lookup_app_r by lia.
      by replace (S (length (encode_runs runs))
                  - length (encode_runs runs))%nat with 1%nat by lia. }
  unfold rle_decompress. fold s0. subst pixels.
  destruct (bits =? 8).
  - apply (Hloop _ (fun n v => replicate (Z.to_nat n) v)); try done.
    + intros n v _. apply length_replicate.
    + intros s n v Hl Hi Hj Hn Hn0 Hv Hfit.
      assert (rs_i s + 1 < cs) as Hi1
        by (apply lookup_lt_Some in Hv; lia).
      destruct (rle8_body_run comprbuf cs us width eq_refl
                  ltac:(lia) Hus s n v) as (s' & Hb & Hi' & Hj' & Ho);
        try done.
      { apply in_range_intro; lia. }
      replace (Z.min n (us - rs_j s)) with n in * by lia.
      by exists s'.
    + intros s Hi Hb0 Hb1. unfold rle8_body.
      rewrite (load_lookup _ _ _ Hi Hb0). cbn [bind].
      change (nonzero 0) with false. cbv iota.
      by apply escape_end_of_bitmap.
  - apply (Hloop _ run4_pixels); try done.
    + intros n v _. apply length_run4_pixels.
    + intros s n v Hl Hi Hj Hn Hn0 Hv Hfit.
      assert (rs_i s + 1 < cs) as Hi1
        by (apply lookup_lt_Some in Hv; lia).
      destruct (rle4_body_run comprbuf cs us width eq_refl
                  ltac:(lia) Hus s n v) as (s' & Hb & Hi' & Hj' & Ho);
        try done.
      { apply in_range_intro; lia. }
      replace (Z.min n (us - rs_j s)) with n in * by lia.
      exists s'. repeat split; try done.
      rewrite Ho. f_equal. apply take_ge.
      rewrite length_run4_pixels. lia.
    + intros s Hi Hb0 Hb1. unfold rle4_body.
      rewrite (load_lookup _ _ _ Hi Hb0). cbn [bind].
      change (nonzero 0) with false. cbv iota.
      by apply escape_end_of_bitmap.
Qed.

Lemma end_of_bitmap_ends_the_decoding_witness :
  result_out
    (rle_decompress [2; 7; 3; 5; 0; 1; 4; 9] 8 6 3 8 [9; 9; 9; 9; 9; 9] 3)
  = Some [7; 7; 5; 5; 5; 9].
Proof.
  apply (end_of_bitmap_ends_the_decoding
           [(2, 7); (3, 5)] [4; 9] [9; 9; 9; 9; 9; 9] 3 8 3).
  - repeat constructor.
  - reflexivity.
  - reflexivity.
  - simpl. lia.
  - simpl. lia.
Defined.
